(** * Gaming news scraper: extraction, deduplication and materialization

    A shallow embedding of [gaming_news_scraper.py]: the article record and
    its identifier, the persistent history, the listing crawler with its
    selector chains, the quota collector, the detail enricher and the
    versioned content writer, followed by the properties proved of them. *)

From Stdlib Require Import ZArith List String Ascii Lia Permutation.
From Stdlib Require Import DecimalString DecimalNat.
From stdpp Require Import base option list gmap.

Local Open Scope Z_scope.

(** ** Python strings

    A Python [str] is a sequence of Unicode code points; [len], slicing and
    [startswith] count code points, and [encode('utf-8')] turns them into
    bytes.  Bytes are integers in [0, 255]. *)

Abbreviation str := (list Z).
Abbreviation bytes := (list Z).

(** An ASCII literal of the source, as code points. *)
Definition pystr (s : string) : str :=
  map (fun a => Z.of_N (N_of_ascii a)) (list_ascii_of_string s).

(** Code points a [str] can be encoded from: everything in the Unicode range
    but the surrogates, on which [encode('utf-8')] raises
    [UnicodeEncodeError]. *)
Definition scalar_value (c : Z) : bool :=
  ((0 <=? c) && (c <? 0xD800)) || ((0xE000 <=? c) && (c <? 0x110000)).

Definition encode_char (c : Z) : option bytes :=
  if negb (scalar_value c) then None
  else if c <? 0x80 then Some [c]
  else if c <? 0x800 then
    Some [Z.lor 0xC0 (Z.shiftr c 6); Z.lor 0x80 (Z.land c 0x3F)]
  else if c <? 0x10000 then
    Some [Z.lor 0xE0 (Z.shiftr c 12);
          Z.lor 0x80 (Z.land (Z.shiftr c 6) 0x3F);
          Z.lor 0x80 (Z.land c 0x3F)]
  else
    Some [Z.lor 0xF0 (Z.shiftr c 18);
          Z.lor 0x80 (Z.land (Z.shiftr c 12) 0x3F);
          Z.lor 0x80 (Z.land (Z.shiftr c 6) 0x3F);
          Z.lor 0x80 (Z.land c 0x3F)].

(** [s.encode('utf-8')]; [None] stands for the raised [UnicodeEncodeError]. *)
Fixpoint encode_utf8 (s : str) : option bytes :=
  match s with
  | [] => Some []
  | c :: r =>
      match encode_char c, encode_utf8 r with
      | Some b, Some br => Some (b ++ br)
      | _, _ => None
      end
  end.

(** Truthiness of a string and of an optional string ([if s], [if not s]). *)
Definition truthy (s : str) : bool :=
  match s with [] => false | _ => true end.

Definition truthy_opt (o : option str) : bool :=
  match o with Some s => truthy s | None => false end.

(** [s.startswith(p)] *)
Fixpoint startswith (s p : str) : bool :=
  match p, s with
  | [], _ => true
  | _ :: _, [] => false
  | a :: p', b :: s' => (a =? b) && startswith s' p'
  end.

(** [s.startswith(('http://', 'https://'))] *)
Definition is_absolute (s : str) : bool :=
  startswith s (pystr "http://") || startswith s (pystr "https://").

(** [str(n)] for a non-negative integer. *)
Definition str_of_nat (n : nat) : str :=
  pystr (NilEmpty.string_of_uint (Nat.to_uint n)).

(** ** The MD5 digest of [hashlib] (RFC 1321), on 32-bit words kept in [Z] *)

Module MD5.

Definition mask32 (x : Z) : Z := Z.land x 0xFFFFFFFF.

Definition rotl32 (x c : Z) : Z :=
  mask32 (Z.lor (Z.shiftl x c) (Z.shiftr x (32 - c))).

Definition not32 (x : Z) : Z := Z.lxor x 0xFFFFFFFF.

Definition K : list Z :=
  [0xd76aa478; 0xe8c7b756; 0x242070db; 0xc1bdceee; 0xf57c0faf; 0x4787c62a;
   0xa8304613; 0xfd469501; 0x698098d8; 0x8b44f7af; 0xffff5bb1; 0x895cd7be;
   0x6b901122; 0xfd987193; 0xa679438e; 0x49b40821; 0xf61e2562; 0xc040b340;
   0x265e5a51; 0xe9b6c7aa; 0xd62f105d; 0x02441453; 0xd8a1e681; 0xe7d3fbc8;
   0x21e1cde6; 0xc33707d6; 0xf4d50d87; 0x455a14ed; 0xa9e3e905; 0xfcefa3f8;
   0x676f02d9; 0x8d2a4c8a; 0xfffa3942; 0x8771f681; 0x6d9d6122; 0xfde5380c;
   0xa4beea44; 0x4bdecfa9; 0xf6bb4b60; 0xbebfbc70; 0x289b7ec6; 0xeaa127fa;
   0xd4ef3085; 0x04881d05; 0xd9d4d039; 0xe6db99e5; 0x1fa27cf8; 0xc4ac5665;
   0xf4292244; 0x432aff97; 0xab9423a7; 0xfc93a039; 0x655b59c3; 0x8f0ccc92;
   0xffeff47d; 0x85845dd1; 0x6fa87e4f; 0xfe2ce6e0; 0xa3014314; 0x4e0811a1;
   0xf7537e82; 0xbd3af235; 0x2ad7d2bb; 0xeb86d391].

Definition S : list Z :=
  [7; 12; 17; 22; 7; 12; 17; 22; 7; 12; 17; 22; 7; 12; 17; 22;
   5; 9; 14; 20; 5; 9; 14; 20; 5; 9; 14; 20; 5; 9; 14; 20;
   4; 11; 16; 23; 4; 11; 16; 23; 4; 11; 16; 23; 4; 11; 16; 23;
   6; 10; 15; 21; 6; 10; 15; 21; 6; 10; 15; 21; 6; 10; 15; 21].

Definition zth (l : list Z) (i : Z) : Z := nth (Z.to_nat i) l 0.

(** The padded message: a [0x80] byte, zeros up to 56 modulo 64, and the
    bit length on 8 little-endian bytes. *)
Definition le_bytes (n : nat) (x : Z) : bytes :=
  map (fun i => Z.land (Z.shiftr x (8 * Z.of_nat i)) 0xFF) (seq 0 n).

Definition pad (msg : bytes) : bytes :=
  let len := Z.of_nat (length msg) in
  let zeros := Z.to_nat ((55 - len) mod 64) in
  msg ++ [0x80] ++ repeat 0 zeros ++ le_bytes 8 ((8 * len) mod 2 ^ 64).

Fixpoint le_word (bs : bytes) : Z :=
  match bs with
  | [] => 0
  | b :: r => Z.lor b (Z.shiftl (le_word r) 8)
  end.

Definition words (block : bytes) : list Z :=
  map (fun i => le_word (firstn 4 (skipn (4 * i) block))) (seq 0 16).

Record state := mkState { sA : Z; sB : Z; sC : Z; sD : Z }.

Definition init : state :=
  mkState 0x67452301 0xefcdab89 0x98badcfe 0x10325476.

Definition step (M : list Z) (st : state) (i : Z) : state :=
  let '(mkState A B C D) := st in
  let '(F, g) :=
    if i <? 16 then (Z.lor (Z.land B C) (Z.land (not32 B) D), i)
    else if i <? 32 then
      (Z.lor (Z.land D B) (Z.land (not32 D) C), (5 * i + 1) mod 16)
    else if i <? 48 then (Z.lxor B (Z.lxor C D), (3 * i + 5) mod 16)
    else (Z.lxor C (Z.lor B (not32 D)), (7 * i) mod 16) in
  let F' := mask32 (F + A + zth K i + zth M g) in
  mkState D (mask32 (B + rotl32 F' (zth S i))) B C.

Definition compress (st : state) (block : bytes) : state :=
  let M := words block in
  let r := fold_left (step M) (map Z.of_nat (seq 0 64)) st in
  mkState (mask32 (sA st + sA r)) (mask32 (sB st + sB r))
          (mask32 (sC st + sC r)) (mask32 (sD st + sD r)).

Fixpoint blocks (n : nat) (msg : bytes) (st : state) : state :=
  match n with
  | O => st
  | Datatypes.S n' => blocks n' (skipn 64 msg) (compress st (firstn 64 msg))
  end.

Definition digest (msg : bytes) : bytes :=
  let p := pad msg in
  let st := blocks (length p / 64)%nat p init in
  le_bytes 4 (sA st) ++ le_bytes 4 (sB st) ++
  le_bytes 4 (sC st) ++ le_bytes 4 (sD st).

Definition hex_digit (d : Z) : Z :=
  if d <? 10 then 48 + d else 87 + d.

(** [hexdigest()]: two lower-case hexadecimal digits per byte. *)
Definition hexdigest (msg : bytes) : str :=
  flat_map (fun b => [hex_digit (Z.shiftr b 4); hex_digit (Z.land b 0xF)])
           (digest msg).

End MD5.

(** ** The article record ([NewsItem]) *)

Record NewsItem := mkNewsItem {
  title : str;
  summary : str;
  link : str;
  image_url : option str;
  author : option str;
  published_date : option str;
  news_id : str
}.

Definition set_news_id (self : NewsItem) (v : str) : NewsItem :=
  mkNewsItem (title self) (summary self) (link self) (image_url self)
             (author self) (published_date self) v.

Definition set_summary (self : NewsItem) (v : str) : NewsItem :=
  mkNewsItem (title self) v (link self) (image_url self)
             (author self) (published_date self) (news_id self).

Definition set_image_url (self : NewsItem) (v : option str) : NewsItem :=
  mkNewsItem (title self) (summary self) (link self) v
             (author self) (published_date self) (news_id self).

(** [hashlib.md5(f"{title}|{link}".encode('utf-8')).hexdigest()] *)
Definition article_id (title link : str) : option str :=
  content ← encode_utf8 (title ++ pystr "|" ++ link);
  Some (MD5.hexdigest content).

(** [__post_init__]: the id is computed when the field is still empty. *)
Definition post_init (self : NewsItem) : option NewsItem :=
  if negb (truthy (news_id self)) then
    set_news_id self <$> article_id (title self) (link self)
  else Some self.

(** [NewsItem(title=..., summary=..., link=..., ...)]: [news_id] is not an
    argument of the constructor and starts as the empty string.  [None] is
    the exception raised by the encoding. *)
Definition NewsItem_new (title summary link : str)
    (image_url author published_date : option str) : option NewsItem :=
  post_init (mkNewsItem title summary link image_url author published_date []).

(** ** Python lists and sets *)

(** [l[start:]] for an integer [start], negative indices counted from the
    end and clamped as slicing does. *)
Definition slice_from {A} (start : Z) (l : list A) : list A :=
  let len := Z.of_nat (length l) in
  let s := if start <? 0 then Z.max (start + len) 0 else Z.min start len in
  drop (Z.to_nat s) l.

(** [l[:stop]], with the same convention. *)
Definition slice_to {A} (stop : Z) (l : list A) : list A :=
  let len := Z.of_nat (length l) in
  let e := if stop <? 0 then Z.max (stop + len) 0 else Z.min stop len in
  take (Z.to_nat e) l.

(** A [set] of strings is kept as the list of its elements in iteration
    order, without repetition.  The order is that of the hash table, it
    depends on the per-process hash seed. *)
Abbreviation pyset := (list str).

Definition set_in (x : str) (s : pyset) : bool := bool_decide (x ∈ s).

(** Two representations of the same logical set. *)
Definition same_set (s1 s2 : pyset) : Prop := ∀ x, x ∈ s1 ↔ x ∈ s2.

(** ** The history store ([NewsHistory]) *)

Record NewsHistory := mkNewsHistory {
  news_ids : pyset;
  limit : Z
}.

Section HistoryStore.

(** [set_order l]: the iteration order of the set built from the distinct
    elements [l], decided by the interpreter's hashing. *)
Variable set_order : list str → list str.

(** [set(l)] *)
Definition set_of_list (l : list str) : pyset := set_order (remove_dups l).

(** [is_duplicate] *)
Definition is_duplicate (self : NewsHistory) (item : NewsItem) : bool :=
  set_in (news_id item) (news_ids self).

(** [add_item] *)
Definition add_item (self : NewsHistory) (item : NewsItem) : NewsHistory :=
  if set_in (news_id item) (news_ids self) then self
  else mkNewsHistory (set_of_list (news_ids self ++ [news_id item]))
                     (limit self).

(** The trimming of [save_history], before the file is written. *)
Definition trim_history (self : NewsHistory) : NewsHistory :=
  let news_ids_list := news_ids self in
  if limit self <? Z.of_nat (length news_ids_list) then
    let news_ids_list := slice_from (- limit self) news_ids_list in
    mkNewsHistory (set_of_list news_ids_list) (limit self)
  else self.

(** [save_history]: the store after the call, and the [news_ids] array
    written to the history file; [write_ok = false] is an I/O error, which
    is logged and swallowed, the trimmed set staying in memory. *)
Definition save_history (write_ok : bool) (self : NewsHistory)
    : NewsHistory * option (list str) :=
  let self' := trim_history self in
  (self', if write_ok then Some (news_ids self') else None).

End HistoryStore.

(** ** Exceptions and the outside world *)

Inductive exn :=
| RequestException
| HTTPError
| OSError
| ParserError
| UnicodeEncodeError.

Inductive result (A : Type) :=
| Ok (a : A)
| Raise (e : exn).
Arguments Ok {A} a.
Arguments Raise {A} e.

(** A [requests] response. *)
Record Response := mkResponse {
  status_code : Z;
  text : str;
  content : bytes
}.

(** [response.raise_for_status()] *)
Definition raise_for_status (r : Response) : result unit :=
  if (400 <=? status_code r) && (status_code r <? 600) then Raise HTTPError
  else Ok tt.

(** ** Parsed pages

    What the code asks of BeautifulSoup: the elements a CSS selector matches,
    an element's stripped text and its attributes. *)

(** A matched element: [get_text(strip=True)] and [attrs]. *)
Record Tag := mkTag {
  tag_text : str;
  tag_attrs : list (str * str)
}.

(** [name in tag.attrs] / [tag[name]] *)
Fixpoint attr (attrs : list (str * str)) (name : str) : option str :=
  match attrs with
  | [] => None
  | (k, v) :: r => if bool_decide (k = name) then Some v else attr r name
  end.

(** [tag.get(name, '')] *)
Definition tag_get (t : Tag) (name : str) : str :=
  default [] (attr (tag_attrs t) name).

(** An article fragment, as the answers of [article.select_one(selector)]. *)
Record Element := mkElement {
  select_one : str → option Tag
}.

(** A parsed document: [soup.select(selector)] for the article blocks,
    [soup.select('h2 a, h1 a, h3 a')] with the [parent.parent] of each link,
    and [soup.select_one(selector)] for the detail page. *)
Record Soup := mkSoup {
  soup_select : str → list Element;
  soup_heading_links : list (Tag * Element);
  soup_select_one : str → option Tag
}.

(** The transport, the debug snapshots and the parser. *)
Record World := mkWorld {
  session_get : str → result Response;
  write_debug : str → str → result unit;
  parse_html : str → result Soup
}.

Definition BASE_URL : str := pystr "https://vandal.elespanol.com".
Definition NEWS_URL : str := BASE_URL ++ pystr "/noticias/videojuegos".

(** [needle in hay] on strings *)
Fixpoint contains (needle hay : str) : bool :=
  startswith hay needle ||
  match hay with
  | [] => false
  | _ :: r => contains needle r
  end.

(** [s.split(' ')[0]] *)
Fixpoint before_space (s : str) : str :=
  match s with
  | [] => []
  | c :: r => if c =? 32 then [] else c :: before_space r
  end.

(** The cascade used for every field:
    [for selector in selectors: tag = article.select_one(selector);
     if tag: break].  An element is truthy whatever its content. *)
Fixpoint first_match (article : Element) (selectors : list str) : option Tag :=
  match selectors with
  | [] => None
  | selector :: rest =>
      match select_one article selector with
      | Some tag => Some tag
      | None => first_match article rest
      end
  end.

(** [for attr in names: if attr in image_tag.attrs: ...; break] *)
Fixpoint first_attr (t : Tag) (names : list str) : option str :=
  match names with
  | [] => None
  | name :: rest =>
      match attr (tag_attrs t) name with
      | Some v => Some (if bool_decide (32 ∈ v) then before_space v else v)
      | None => first_attr t rest
      end
  end.

Definition title_selectors : list str :=
  map pystr ["h2.titular a"; "h2 a"; "h1 a"; "h3 a"; ".title a"; "a.title";
             "a[title]"]%string.
Definition summary_selectors : list str :=
  map pystr ["p.texto"; "p.description"; ".summary"; ".excerpt";
             "p:not(.meta)"; "p"]%string.
Definition image_selectors : list str :=
  map pystr ["img"; ".image img"; ".thumbnail img"; "figure img"]%string.
Definition image_attrs : list str :=
  map pystr ["src"; "data-src"; "data-lazy-src"; "data-srcset"]%string.
Definition author_selectors : list str :=
  map pystr [".autor"; ".author"; ".meta .author"; "span.author"]%string.
Definition date_selectors : list str :=
  map pystr [".fecha"; ".date"; ".meta .date"; "time"; "span.date"]%string.
Definition no_summary : str := pystr "Sin resumen disponible".

(** The fields read from one fragment, before the record is built. *)
Record Fields := mkFields {
  f_title : str;
  f_summary : str;
  f_link : str;
  f_image_url : option str;
  f_author : option str;
  f_published_date : option str
}.

(** [url = f"{BASE_URL}{url}"] unless empty or already absolute. *)
Definition absolutize (url : str) : str :=
  if truthy url && negb (is_absolute url) then BASE_URL ++ url else url.

(** The body of the per-article [try] up to the record construction;
    [None] is the [continue] taken when no title element is found. *)
Definition extract_fields (article : Element) : option Fields :=
  match first_match article title_selectors with
  | None => None
  | Some title_tag =>
      let title := tag_text title_tag in
      let summary_tag := first_match article summary_selectors in
      let summary :=
        match summary_tag with
        | Some t => tag_text t
        | None => no_summary
        end in
      let link := default [] (attr (tag_attrs title_tag) (pystr "href")) in
      let link := absolutize link in
      let image_tag := first_match article image_selectors in
      let image_url :=
        match image_tag with
        | Some t => first_attr t image_attrs
        | None => None
        end in
      let image_url := absolutize <$> image_url in
      let author_tag := first_match article author_selectors in
      let author := tag_text <$> author_tag in
      let date_tag := first_match article date_selectors in
      let published_date := tag_text <$> date_tag in
      Some (mkFields title summary link image_url author published_date)
  end.

(** One iteration of [for article in articles]: the record appended to
    [news_list], if any.  An exception of the constructor is caught by the
    per-article handler and the fragment is skipped. *)
Definition extract_article (article : Element) : option NewsItem :=
  f ← extract_fields article;
  if truthy (f_title f) && truthy (f_link f) then
    NewsItem_new (f_title f) (f_summary f) (f_link f) (f_image_url f)
                 (f_author f) (f_published_date f)
  else None.

Definition article_selectors : list str :=
  map pystr ["article.noticia"; "div.article"; "div.card"; ".cardNoticia";
             ".noticia"; "div.item"; "article"; ".article-item"]%string.

(** [for selector in selectors: articles = soup.select(selector);
     if articles: break] *)
Fixpoint select_articles (soup : Soup) (selectors : list str) : list Element :=
  match selectors with
  | [] => []
  | selector :: rest =>
      match soup_select soup selector with
      | [] => select_articles soup rest
      | articles => articles
      end
  end.

Definition max_pages : Z := 5.

(** The entries of [CONFIG] the modelled code reads. *)
Record Config := mkConfig {
  news_count : Z;
  description_length : Z;
  history_limit : Z
}.

Definition CONFIG : Config := mkConfig 5 200 500.

(** The scraper object. *)
Record Scraper := mkScraper {
  config : Config;
  history : NewsHistory
}.

(** ** Effects

    Code that mutates an object or the file system and may raise: a
    computation threads the state and either returns or raises, the state
    keeping whatever was done before the exception. *)
Definition Eff (St A : Type) : Type := St → St * result A.

Definition ret {St A} (a : A) : Eff St A := λ s, (s, Ok a).

Definition bind {St A B} (m : Eff St A) (k : A → Eff St B) : Eff St B :=
  λ s,
    match m s with
    | (s', Ok a) => k a s'
    | (s', Raise e) => (s', Raise e)
    end.

Definition lift {St A} (r : result A) : Eff St A := λ s, (s, r).
Definition get_state {St} : Eff St St := λ s, (s, Ok s).
Definition assign {St} (f : St → St) : Eff St unit := λ s, (f s, Ok tt).

(** [try: m except Exception: return a], the state as the exception left
    it. *)
Definition catch {St A} (m : Eff St A) (a : A) : Eff St A :=
  λ s,
    match m s with
    | (s', Ok x) => (s', Ok x)
    | (s', Raise _) => (s', Ok a)
    end.

Declare Scope eff_scope.
Delimit Scope eff_scope with eff.
Notation "x <~ m ;; k" := (bind m (λ x, k))
  (at level 100, m at next level, right associativity) : eff_scope.
Notation "m ;;; k" := (bind m (λ _, k))
  (at level 100, right associativity) : eff_scope.

(** The [try] body of [fetch_article_details] works on the record. *)
Definition Enrich (A : Type) : Type := Eff NewsItem A.

Definition quote : str := [34].
Definition meta_description : str :=
  pystr "meta[name=" ++ quote ++ pystr "description" ++ quote ++ pystr "]".
Definition meta_og_image : str :=
  pystr "meta[property=" ++ quote ++ pystr "og:image" ++ quote ++ pystr "]".

Definition detail_summary_selectors : list str :=
  map pystr ["div.entradilla"; ".article-summary"; ".summary"; ".intro";
             ".excerpt"]%string ++ [meta_description].
Definition detail_image_selectors : list str :=
  map pystr ["div.imagen img"; ".article-featured-image img";
             ".featured-image img"; "article img"; ".content img"]%string
  ++ [meta_og_image].

(** ** The file system

    A path is the list of its components, [p / name] appends one.  The
    components handled here hold no separator: the fixed file names, and
    [date_str], which [main] renders from the run date with [%Y-%m-%d]. *)

Abbreviation Path := (list str).

(** What a file holds: text, the [json.dump] of a list of records, such a
    dump cut short before the first string the encoder refused, or
    bytes. *)
Inductive Content :=
| Text (s : str)
| Json (items : list NewsItem)
| JsonCut (items : list NewsItem)
| Binary (b : bytes).

Inductive Node :=
| Dir
| File (c : Content).

Abbreviation FS := (gmap (list (list Z)) Node).

Definition child (p : Path) (name : str) : Path := p ++ [name].

Definition OUTPUT_DIR : Path := [pystr "gaming_news_output"].
Definition CONTENT_DIR : Path := child OUTPUT_DIR (pystr "contenido").

(** [path.exists()] *)
Definition path_exists (fs : FS) (p : Path) : bool :=
  bool_decide (is_Some (fs !! p)).

(** [path.mkdir(parents=True, exist_ok=True)]: the missing ancestors are
    created from the top, a file in the way raises. *)
Fixpoint mkdir_from (made rest : Path) (fs : FS) : FS * result unit :=
  match rest with
  | [] => (fs, Ok tt)
  | name :: rest' =>
      let d := child made name in
      match fs !! d with
      | Some (File _) => (fs, Raise OSError)
      | Some Dir => mkdir_from d rest' fs
      | None => mkdir_from d rest' (<[d := Dir]> fs)
      end
  end.

Definition mkdir_p (p : Path) : Eff FS unit := mkdir_from [] p.

(** The directory a file is opened in: the working directory for a bare
    name, which always exists. *)
Definition parent_is_dir (fs : FS) (p : Path) : bool :=
  match removelast p with
  | [] => true
  | q => match fs !! q with Some Dir => true | _ => false end
  end.

(** [with open(path, mode) as f: ...] for a writing [mode], the file
    holding [c] when the block is left: the file is created or replaced,
    unless the path is a directory or its parent is not one, in which case
    [open] raises and nothing changes. *)
Definition write_file (p : Path) (c : Content) : Eff FS unit :=
  λ fs,
    match fs !! p with
    | Some Dir => (fs, Raise OSError)
    | _ =>
        if parent_is_dir fs p then (<[p := File c]> fs, Ok tt)
        else (fs, Raise OSError)
    end.

(** A string the UTF-8 encoder of a text file accepts. *)
Definition encodable (s : str) : bool := forallb scalar_value s.

(** What a sequence of [f.write] calls gets into the file: the strings
    before the first one the encoder refuses, which is written not at
    all. *)
Fixpoint written (chunks : list str) : list str :=
  match chunks with
  | [] => []
  | c :: rest => if encodable c then c :: written rest else []
  end.

Definition encode_check (ok : bool) : result unit :=
  if ok then Ok tt else Raise UnicodeEncodeError.

(** [with open(path, 'w', encoding='utf-8') as f: f.write(c1); ...]: the
    file is opened, hence created or truncated, the strings are written
    in turn, and the first one that holds a surrogate raises
    [UnicodeEncodeError], the file keeping what was written before. *)
Definition write_text (p : Path) (chunks : list str) : Eff FS unit :=
  (write_file p (Text (concat (written chunks))) ;;;
   lift (encode_check (forallb encodable chunks)))%eff.

(** The strings of [asdict(item)], in field order. *)
Definition item_strings (item : NewsItem) : list str :=
  [title item; summary item; link item] ++
  option_list (image_url item) ++ option_list (author item) ++
  option_list (published_date item) ++ [news_id item].

Definition json_encodable (items : list NewsItem) : bool :=
  forallb (λ item, forallb encodable (item_strings item)) items.

(** [with open(path, 'w', encoding='utf-8') as f:
     json.dump([asdict(item) for item in items], f, ensure_ascii=False,
               indent=2)]: strings are passed to the file as they are, so
    one that holds a surrogate raises [UnicodeEncodeError] and leaves the
    dump cut short. *)
Definition write_json (p : Path) (items : list NewsItem) : Eff FS unit :=
  (write_file p (if json_encodable items then Json items
                 else JsonCut items) ;;;
   lift (encode_check (json_encodable items)))%eff.

(** [s.split(sep)[-1]] and [s.split(sep)[0]] for a one-character [sep]. *)
Fixpoint after_last (sep : Z) (s : str) : str :=
  match s with
  | [] => []
  | c :: r =>
      if bool_decide (sep ∈ r) then after_last sep r
      else if c =? sep then r else c :: r
  end.

Fixpoint before_first (sep : Z) (s : str) : str :=
  match s with
  | [] => []
  | c :: r => if c =? sep then [] else c :: before_first sep r
  end.

(** [s.replace(' ', '_')] *)
Definition spaces_to_underscores (s : str) : str :=
  map (λ c, if c =? 32 then 95 else c) s.

Section Crawler.

(** [str.lower] of the interpreter. *)
Variable lower : str → str.
(** The site as seen during the run. *)
Variable W : World.

(** [f"{NEWS_URL}/{page}"] from page 2 on. *)
Definition page_url (page : Z) : str :=
  if 1 <? page then NEWS_URL ++ pystr "/" ++ str_of_nat (Z.to_nat page)
  else NEWS_URL.

Definition debug_page (page : Z) : str :=
  pystr "debug_page_" ++
  (if page <? 0 then pystr "-" else []) ++ str_of_nat (Z.abs_nat page) ++
  pystr ".html".

(** The secondary scan: heading links whose target looks like an article,
    each promoted to its grand-parent block. *)
Definition heading_articles (soup : Soup) : list Element :=
  snd <$> filter (λ p,
    let href := tag_get (fst p) (pystr "href") in
    contains (pystr "noticia") (lower href) = true ∧
    contains (pystr "/n.") (lower href) = true) (soup_heading_links soup).

(** Everything of [fetch_gaming_news] that can raise before the first
    record is appended. *)
Definition load_listing (page : Z) : result Soup :=
  match session_get W (page_url page) with
  | Raise e => Raise e
  | Ok response =>
      match raise_for_status response with
      | Raise e => Raise e
      | Ok _ =>
          match write_debug W (debug_page page) (text response) with
          | Raise e => Raise e
          | Ok _ => parse_html W (text response)
          end
      end
  end.

(** [fetch_gaming_news(page)]: both handlers of the outer [try] log and
    fall through to [return news_list]. *)
Definition fetch_gaming_news (page : Z) : list NewsItem :=
  match load_listing page with
  | Raise _ => []
  | Ok soup =>
      let articles := select_articles soup article_selectors in
      let articles :=
        match articles with
        | [] => heading_articles soup
        | _ => articles
        end in
      omap extract_article articles
  end.

(** The [for] loop over one page's records. *)
Fixpoint scan_page (self : Scraper) (count : Z) (all_news : list NewsItem)
    (new_news duplicate_news : list NewsItem)
    : Scraper * (list NewsItem * list NewsItem) :=
  match all_news with
  | [] => (self, (new_news, duplicate_news))
  | news_item :: rest =>
      if count <=? Z.of_nat (length new_news) then
        (self, (new_news, duplicate_news))
      else if is_duplicate (history self) news_item then
        scan_page self count rest new_news (duplicate_news ++ [news_item])
      else
        scan_page self count rest (new_news ++ [news_item]) duplicate_news
  end.

(** The [while] loop; [fuel] bounds the number of iterations and [None]
    means it was too small. *)
Fixpoint unique_loop (fuel : nat) (self : Scraper) (count : Z)
    (new_news duplicate_news : list NewsItem) (current_page : Z)
    : option (Scraper * (list NewsItem * list NewsItem)) :=
  if (Z.of_nat (length new_news) <? count) && (current_page <=? max_pages)
  then
    match fuel with
    | O => None
    | S fuel' =>
        match fetch_gaming_news current_page with
        | [] =>
            unique_loop fuel' self count new_news duplicate_news
                        (current_page + 1)
        | all_news =>
            let '(self', (new_news', duplicate_news')) :=
              scan_page self count all_news new_news duplicate_news in
            if Z.of_nat (length new_news') <? count then
              unique_loop fuel' self' count new_news' duplicate_news'
                          (current_page + 1)
            else
              unique_loop fuel' self' count new_news' duplicate_news'
                          current_page
        end
    end
  else Some (self, (new_news, duplicate_news)).

(** [get_unique_news(count)]; the scraper is returned with the lists, the
    way a method may leave its object changed. *)
Definition get_unique_news (fuel : nat) (self : Scraper) (count : option Z)
    : option (Scraper * (list NewsItem * list NewsItem)) :=
  let count := default (news_count (config self)) count in
  unique_loop fuel self count [] [] 1.

(** The summary cascade of the detail page. *)
Fixpoint detail_summary (soup : Soup) (selectors : list str)
    : Enrich unit :=
  match selectors with
  | [] => ret tt
  | selector :: rest =>
      match soup_select_one soup selector with
      | Some full_summary_tag =>
          if bool_decide (selector = meta_description) then
            assign (λ i, set_summary i (tag_get full_summary_tag
                                                (pystr "content")))
          else
            assign (λ i, set_summary i (tag_text full_summary_tag))
      | None => detail_summary soup rest
      end
  end.

(** The image cascade of the detail page, entered when the record has no
    image yet. *)
Fixpoint detail_image (soup : Soup) (selectors : list str) : Enrich unit :=
  match selectors with
  | [] => ret tt
  | selector :: rest =>
      match soup_select_one soup selector with
      | Some main_image =>
          ((if bool_decide (selector = meta_og_image) then
              assign (λ i, set_image_url i
                             (Some (tag_get main_image (pystr "content"))))
            else
              match attr (tag_attrs main_image) (pystr "data-src"),
                    attr (tag_attrs main_image) (pystr "src") with
              | Some v, _ => assign (λ i, set_image_url i (Some v))
              | None, Some v => assign (λ i, set_image_url i (Some v))
              | None, None => ret tt
              end) ;;;
           assign (λ i, set_image_url i (absolutize <$> image_url i)))%eff
      | None => detail_image soup rest
      end
  end.

Definition debug_article (news_item : NewsItem) : str :=
  pystr "debug_article_" ++ slice_to 8 (news_id news_item) ++ pystr ".html".

(** The [try] body of [fetch_article_details]. *)
Definition enrich_body : Enrich unit :=
  (news_item <~ get_state ;;
   response <~ lift (session_get W (link news_item)) ;;
   lift (raise_for_status response) ;;;
   lift (write_debug W (debug_article news_item) (text response)) ;;;
   soup <~ lift (parse_html W (text response)) ;;
   detail_summary soup detail_summary_selectors ;;;
   news_item <~ get_state ;;
   if negb (truthy_opt (image_url news_item)) then
     detail_image soup detail_image_selectors
   else ret tt)%eff.

(** [fetch_article_details]: the handler logs the exception and the
    record, as it stands, is returned. *)
Definition fetch_article_details (news_item : NewsItem) : NewsItem :=
  if negb (truthy (link news_item)) then news_item
  else fst (enrich_body news_item).

(** [re.sub(r'[^\w\s-]', '', s)] of the regular-expression library. *)
Variable strip_unsafe : str → str.

Definition image_extensions : list str :=
  map pystr ["jpg"; "jpeg"; "png"; "gif"]%string.

Definition image_name (news_item : NewsItem) (url : str) : str :=
  let image_ext := before_first 63 (after_last 46 url) in
  let image_ext :=
    if bool_decide (lower image_ext ∈ image_extensions) then image_ext
    else pystr "jpg" in
  let safe_title :=
    slice_to 50 (spaces_to_underscores (strip_unsafe (title news_item))) in
  pystr "image_" ++ safe_title ++ pystr "." ++ image_ext.

(** [download_image]: every exception is caught and gives [None]. *)
Definition download_image (news_item : NewsItem) (output_dir : Path)
    : Eff FS (option Path) :=
  if negb (truthy_opt (image_url news_item)) then ret None
  else
    let url := default [] (image_url news_item) in
    catch
      (response <~ lift (session_get W url) ;;
       lift (raise_for_status response) ;;;
       let image_filename := child output_dir (image_name news_item url) in
       write_file image_filename (Binary (content response)) ;;;
       ret (Some image_filename))%eff
      None.

(** [format_description] of the content generator. *)
Definition format_description (cfg : Config) (news_item : NewsItem) : str :=
  let description :=
    slice_to (description_length cfg) (summary news_item) in
  if description_length cfg <? Z.of_nat (length (summary news_item))
  then description ++ pystr "..."
  else description.

(** [f"{date_str}_V{version}"] *)
Definition versioned (date_str : str) (version : nat) : str :=
  date_str ++ pystr "_V" ++ str_of_nat version.

(** The probing loop of [save_content]:
    [while date_dir.exists(): date_dir = ...; version += 1]. *)
Fixpoint probe_dir (fuel : nat) (fs : FS) (date_str : str) (version : nat)
    (date_dir : Path) : option Path :=
  if path_exists fs date_dir then
    match fuel with
    | O => None
    | S fuel' =>
        probe_dir fuel' fs date_str (S version)
                  (child CONTENT_DIR (versioned date_str version))
    end
  else Some date_dir.

Definition allocate_dir (fuel : nat) (fs : FS) (date_str : str)
    : option Path :=
  probe_dir fuel fs date_str 1 (child CONTENT_DIR date_str).

Definition titulo : str := pystr "T" ++ [0xED] ++ pystr "tulo: ".
Definition descripcion : str := pystr "Descripci" ++ [0xF3] ++ pystr "n: ".
Definition nl : str := [10].

(** The two strings written to [description.txt]. *)
Definition description_chunks (cfg : Config) (news_item : NewsItem)
    : list str :=
  [titulo ++ title news_item ++ nl ++ nl;
   descripcion ++ format_description cfg news_item].

Definition noticia (i : nat) : str := pystr "noticia_" ++ str_of_nat (i + 1).

(** [for i, (news_item, caption) in enumerate(zip(news_items, captions))],
    from index [i] on. *)
Fixpoint save_bundles (cfg : Config) (date_dir : Path) (i : nat)
    (news_items : list NewsItem) (captions : list str) : Eff FS unit :=
  match news_items, captions with
  | news_item :: news_items', caption :: captions' =>
      (let news_dir := child date_dir (noticia i) in
       mkdir_p news_dir ;;;
       write_text (child news_dir (pystr "caption.txt")) [caption] ;;;
       write_text (child news_dir (pystr "description.txt"))
                  (description_chunks cfg news_item) ;;;
       download_image news_item news_dir ;;;
       save_bundles cfg date_dir (S i) news_items' captions')%eff
  | _, _ => ret tt
  end.

(** The strings written to [all_captions.txt], one per caption, from
    index [i] on. *)
Fixpoint caption_entries (i : nat) (captions : list str) : list str :=
  match captions with
  | [] => []
  | caption :: rest =>
      (pystr "=== CAPTION " ++ str_of_nat (i + 1) ++ pystr " ===" ++ nl ++
       caption ++ nl ++ nl) :: caption_entries (S i) rest
  end.

(** [save_content], once the directory is chosen. *)
Definition save_into (cfg : Config) (date_dir : Path)
    (news_items : list NewsItem) (captions : list str)
    : Eff FS (Path * Path) :=
  (mkdir_p date_dir ;;;
   let news_filename := child date_dir (pystr "news.json") in
   write_json news_filename news_items ;;;
   save_bundles cfg date_dir 0 news_items captions ;;;
   let all_captions_filename := child date_dir (pystr "all_captions.txt") in
   write_text all_captions_filename (caption_entries 0 captions) ;;;
   ret (all_captions_filename, date_dir))%eff.

(** [save_content(news_items, captions, scraper, date_str)]; [None] when
    [fuel] is too small for the probing loop.  Nothing is caught here: an
    exception leaves the tree as the failing step left it. *)
Definition save_content (fuel : nat) (cfg : Config)
    (news_items : list NewsItem) (captions : list str) (date_str : str)
    (fs : FS) : option (FS * result (Path * Path)) :=
  date_dir ← allocate_dir fuel fs date_str;
  Some (save_into cfg date_dir news_items captions fs).

End Crawler.

(** The loop of [main] that follows the collection:
    [for item in new_news: detailed_item = fetch_article_details(item);
     detailed_news.append(detailed_item);
     if not history.is_duplicate(detailed_item): history.add_item(...)].
    This is where identifiers enter the history. *)
Fixpoint enrich_and_record (set_order : list str → list str) (W : World)
    (self : Scraper) (new_news : list NewsItem) : Scraper * list NewsItem :=
  match new_news with
  | [] => (self, [])
  | item :: rest =>
      let detailed_item := fetch_article_details W item in
      let self' :=
        if negb (is_duplicate (history self) detailed_item)
        then mkScraper (config self)
                       (add_item set_order (history self) detailed_item)
        else self in
      let '(self'', detailed_news) :=
        enrich_and_record set_order W self' rest in
      (self'', detailed_item :: detailed_news)
  end.

(** ** More of the source

    The remaining methods of the history store, the scraper and the content
    generator. *)

(** The [news_ids] entry of the history document, as [set()] sees it: an
    array of strings; a string, iterated by character; an object,
    iterated by key; or a value [set()] raises [TypeError] on, which is
    null, a number, a boolean, or an array that holds an array or an
    object.  The store is typed [Set[str]]: an array that holds a number,
    a boolean or null beside strings would load as a set holding them, and
    such documents are not covered. *)
Inductive IdsEntry :=
| IdsArray (ids : list str)
| IdsString (s : str)
| IdsObject (keys : list str)
| IdsRejected.

(** The history file as [_load_history] finds it: absent; unreadable (the
    open or the JSON parser raises, or the document is not an object, on
    which [.get] raises); or an object with its [news_ids] entry, if it
    has one. *)
Inductive HistoryFile :=
| FileMissing
| FileUnreadable
| FileData (news_ids_entry : option IdsEntry).

(** [_load_history]: a missing file gives [set()], and so does any
    exception; else [set(history_data.get("news_ids", []))]. *)
Definition _load_history (set_order : list str → list str)
    (file : HistoryFile) : pyset :=
  match file with
  | FileMissing => []
  | FileUnreadable => []
  | FileData None => set_of_list set_order []
  | FileData (Some (IdsArray ids)) => set_of_list set_order ids
  | FileData (Some (IdsString s)) =>
      set_of_list set_order ((λ c, [c]) <$> s)
  | FileData (Some (IdsObject keys)) => set_of_list set_order keys
  | FileData (Some IdsRejected) => []
  end.

(** [NewsHistory(history_file, limit)] *)
Definition NewsHistory_new (set_order : list str → list str)
    (file : HistoryFile) (limit : Z) : NewsHistory :=
  mkNewsHistory (_load_history set_order file) limit.

(** The file [save_history] leaves when it is handed [file]: the dumped
    array when the write succeeds.  A write fails either in [open], which
    leaves the file alone, or after it ([opened]), when the file has been
    truncated and holds at most the beginning of a dump, which no longer
    parses. *)
Definition history_file_after (persisted : option (list str))
    (opened : bool) (file : HistoryFile) : HistoryFile :=
  match persisted with
  | Some ids => FileData (Some (IdsArray ids))
  | None => if opened then FileUnreadable else file
  end.

Definition LOGS_DIR : Path := child OUTPUT_DIR (pystr "logs").
Definition LOG_SUBDIR : Path := child LOGS_DIR (pystr "logs").
Definition DEBUG_SUBDIR : Path := child LOGS_DIR (pystr "debug").

(** [_ensure_output_dir]: five [mkdir(parents=True, exist_ok=True)]. *)
Definition _ensure_output_dir : Eff FS unit :=
  (mkdir_p OUTPUT_DIR ;;;
   mkdir_p CONTENT_DIR ;;;
   mkdir_p LOGS_DIR ;;;
   mkdir_p LOG_SUBDIR ;;;
   mkdir_p DEBUG_SUBDIR)%eff.

(** The entries of [CONFIG] read by [format_tiktok_caption]. *)
Record CaptionConfig := mkCaptionConfig {
  caption_max_length : Z;
  summary_length : Z;
  hashtags : list str
}.

Definition CAPTION_CONFIG : CaptionConfig :=
  mkCaptionConfig 150 80
    (map pystr ["Gaming"; "Videojuegos"; "Noticias"; "Gamer"; "PlayStation";
                "Xbox"; "Nintendo"; "PC"]%string).

(** [sep.join(parts)] *)
Fixpoint join (sep : str) (parts : list str) : str :=
  match parts with
  | [] => []
  | [p] => p
  | p :: rest => p ++ sep ++ join sep rest
  end.

(** The caption of [format_tiktok_caption] before it is cut to length;
    [selected_hashtags] is what
    [random.sample(hashtags, min(3, len(hashtags)))] drew.  The caption
    opens with U+1F3AE and the link line with U+1F449. *)
Definition caption_body (cc : CaptionConfig)
    (selected_hashtags : list str) (news_item : NewsItem) : str :=
  let caption := [0x1F3AE; 32] ++ title news_item ++ nl ++ nl in
  let summary' := slice_to (summary_length cc) (summary news_item) in
  let summary' :=
    if summary_length cc <? Z.of_nat (length (summary news_item))
    then summary' ++ pystr "..." else summary' in
  let caption := caption ++ (summary' ++ nl ++ nl) in
  let caption :=
    caption ++ ([0x1F449] ++ pystr " Leer m" ++ [0xE1] ++ pystr "s: " ++
                link news_item ++ nl ++ nl) in
  caption ++ join (pystr " ")
                  (map (λ tag, pystr "#" ++ tag) selected_hashtags).

(** [format_tiktok_caption]: the caption, cut when it is too long. *)
Definition format_tiktok_caption (cc : CaptionConfig)
    (selected_hashtags : list str) (news_item : NewsItem) : str :=
  let caption := caption_body cc selected_hashtags news_item in
  let max_length := caption_max_length cc in
  if max_length <? Z.of_nat (length caption)
  then slice_to (max_length - 3) caption ++ pystr "..."
  else caption.

(** The home page as the last-resort scan of [main] sees it:
    [requests.get] of the site origin, the debug snapshot, and
    [BeautifulSoup(text).find_all('a')]. *)
Record Homepage := mkHomepage {
  requests_get : result Response;
  write_homepage : str → result unit;
  find_all_a : str → result (list Tag)
}.

(** [for link in all_links: ... news_links.append((title, href))] *)
Definition collect_news_links (all_links : list Tag) : list (str * str) :=
  omap (λ link,
          let href := tag_get link (pystr "href") in
          if contains (pystr "/noticia/") href
             || contains (pystr "/noticias/") href
          then
            let title := tag_text link in
            if truthy title && (15 <? Z.of_nat (length title))
            then Some (title, href) else None
          else None)
       all_links.

(** The loop that builds [fallback_news]; a constructor that raises ends
    it, the records appended so far staying in the list. *)
Fixpoint fallback_append (news_links : list (str * str))
    (fallback_news : list NewsItem) : list NewsItem :=
  match news_links with
  | [] => fallback_news
  | (title, href) :: rest =>
      let href :=
        if negb (startswith href (pystr "http")) then BASE_URL ++ href
        else href in
      match NewsItem_new title [] href None None None with
      | Some item => fallback_append rest (fallback_news ++ [item])
      | None => fallback_news
      end
  end.

(** The [try] block of [main] that fills [fallback_news]; [pair_order] is
    the iteration order of [set(news_links)]. *)
Definition fallback_scan
    (pair_order : list (str * str) → list (str * str)) (H : Homepage)
    : list NewsItem :=
  match requests_get H with
  | Raise _ => []
  | Ok response =>
      if status_code response =? 200 then
        match write_homepage H (text response) with
        | Raise _ => []
        | Ok _ =>
            match find_all_a H (text response) with
            | Raise _ => []
            | Ok all_links =>
                let news_links := collect_news_links all_links in
                let news_links := pair_order (remove_dups news_links) in
                fallback_append (slice_to (news_count CONFIG) news_links) []
            end
        end
      else []
  end.

(** * Vocabulary of the statements *)

(** ** Locator chains *)

(** What a chain finds in a fragment: the tag of its first locator that
    matches an element, every earlier locator matching none. *)
Definition first_hit (article : Element) (selectors : list str) (t : Tag)
    : Prop :=
  ∃ pre selector post,
    selectors = pre ++ selector :: post ∧
    Forall (λ s, select_one article s = None) pre ∧
    select_one article selector = Some t.

Definition no_hit (article : Element) (selectors : list str) : Prop :=
  Forall (λ s, select_one article s = None) selectors.

(** A locator that fails or yields empty text, in the words of the
    specification. *)
Definition fails_or_empty (article : Element) (selector : str) : Prop :=
  match select_one article selector with
  | None => True
  | Some t => tag_text t = []
  end.

(** The attribute an image element gives its address in: the first of
    [names] the element carries, with value [v]. *)
Definition first_present (t : Tag) (names : list str) (v : str) : Prop :=
  ∃ pre name post,
    names = pre ++ name :: post ∧
    Forall (λ n, attr (tag_attrs t) n = None) pre ∧
    attr (tag_attrs t) name = Some v.

Definition none_present (t : Tag) (names : list str) : Prop :=
  Forall (λ n, attr (tag_attrs t) n = None) names.

(** A chain either finds its first matching element or matches nowhere. *)
Definition chain_finds (article : Element) (selectors : list str)
    (r : option Tag) : Prop :=
  match r with
  | Some t => first_hit article selectors t
  | None => no_hit article selectors
  end.

(** ** The crawl as a flat sequence

    The records of pages [p], [p+1], ..., [p+n-1] in the order the
    collector meets them. *)
Definition listing_from (lower : str → str) (W : World) (p : Z) (n : nat)
    : list NewsItem :=
  concat (map (λ k, fetch_gaming_news lower W (p + Z.of_nat k)) (seq 0 n)).

(** The whole crawl: pages 1 to [max_pages]. *)
Definition listing (lower : str → str) (W : World) : list NewsItem :=
  listing_from lower W 1 (Z.to_nat max_pages).

(** A record whose identifier is in the history set, and one whose
    identifier is not. *)
Definition seen (self : Scraper) (x : NewsItem) : Prop :=
  news_id x ∈ news_ids (history self).
Definition unseen (self : Scraper) (x : NewsItem) : Prop :=
  news_id x ∉ news_ids (history self).

Global Instance seen_dec self x : Decision (seen self x).
Proof. unfold seen. apply _. Defined.
Global Instance unseen_dec self x : Decision (unseen self x).
Proof. unfold unseen. apply _. Defined.

(** The occurrences of the article with identifier [i] in a list. *)
Definition occurrences (i : str) (l : list NewsItem) : nat :=
  length (filter (λ x, news_id x = i) l).

(** ** Trees *)

(** In a well-formed tree whatever exists below the working directory lies
    in a directory. *)
Definition fs_wf (fs : FS) : Prop :=
  ∀ (p : Path) (name : str),
    is_Some (fs !! child p name) → p ≠ [] → fs !! p = Some Dir.

(** Every entry of [fs] is still there, unchanged, in [fs']. *)
Definition keeps (fs fs' : FS) : Prop :=
  ∀ (p : Path) (n : Node), fs !! p = Some n → fs' !! p = Some n.

(** The directory of version [v] of a date: [<date>_V<v>] under the
    content directory. *)
Definition version_dir (date_str : str) (v : nat) : Path :=
  CONTENT_DIR ++ [date_str ++ pystr "_V" ++ str_of_nat v].

(** The first free candidate in the order [<date>], [<date>_V1],
    [<date>_V2], ... *)
Definition first_free (fs : FS) (date_str : str) (d : Path) : Prop :=
  fs !! d = None ∧
  (d = CONTENT_DIR ++ [date_str] ∨
   ∃ v, (1 ≤ v)%nat ∧
        d = version_dir date_str v ∧
        is_Some (fs !! (CONTENT_DIR ++ [date_str])) ∧
        ∀ u, (1 ≤ u < v)%nat → is_Some (fs !! version_dir date_str u)).

(** What [download_image] stores for a record: the file name and the bytes,
    when the record has an image address and the request succeeds. *)
Definition bundle_image (lower strip_unsafe : str → str) (W : World)
    (news_item : NewsItem) : option (str * Content) :=
  if negb (truthy_opt (image_url news_item)) then None
  else
    let url := default [] (image_url news_item) in
    match session_get W url with
    | Raise _ => None
    | Ok response =>
        match raise_for_status response with
        | Raise _ => None
        | Ok _ =>
            Some (image_name lower strip_unsafe news_item url,
                  Binary (content response))
        end
    end.

(** The text of [description.txt]: the title line, an empty line and the
    description line. *)
Definition description_text (cfg : Config) (news_item : NewsItem) : str :=
  (titulo ++ title news_item ++ nl ++ nl) ++
  (descripcion ++ format_description cfg news_item).

(** The text of [all_captions.txt]: one block per caption, numbered from
    1, each followed by an empty line. *)
Definition caption_block (n : nat) (caption : str) : str :=
  pystr "=== CAPTION " ++ str_of_nat n ++ pystr " ===" ++ nl ++
  caption ++ nl ++ nl.

Definition captions_listing (captions : list str) : str :=
  concat (imap (λ i caption, caption_block (S i) caption) captions).

(** Every text of a run can be encoded: the fields of the records and the
    captions. *)
Definition texts_encodable (news_items : list NewsItem)
    (captions : list str) : bool :=
  json_encodable news_items && forallb encodable captions.

(** The texts the per-record loop writes can be encoded. *)
Fixpoint bundles_encodable (cfg : Config) (news_items : list NewsItem)
    (captions : list str) : bool :=
  match news_items, captions with
  | news_item :: news_items', caption :: captions' =>
      encodable caption &&
      forallb encodable (description_chunks cfg news_item) &&
      bundles_encodable cfg news_items' captions'
  | _, _ => true
  end.

(** Every write of a run goes through. *)
Definition run_encodable (cfg : Config) (news_items : list NewsItem)
    (captions : list str) : bool :=
  json_encodable news_items && bundles_encodable cfg news_items captions &&
  forallb encodable (caption_entries 0 captions).

Definition caption_txt : str := pystr "caption.txt".
Definition description_txt : str := pystr "description.txt".
Definition news_json : str := pystr "news.json".
Definition all_captions_txt : str := pystr "all_captions.txt".

(** Every ancestor of [p], and [p] itself, is a directory. *)
Definition dirs_to (fs : FS) (p : Path) : Prop :=
  ∀ k, (1 ≤ k ≤ length p)%nat → fs !! take k p = Some Dir.

(** [fs'] is [fs] everywhere but strictly below [d]. *)
Definition same_outside (d : Path) (fs fs' : FS) : Prop :=
  ∀ p, ¬ d `prefix_of` p ∨ p = d → fs' !! p = fs !! p.

(** A computation that, run where [d] and its ancestors are directories,
    writes strictly below [d] only. *)
Definition confined {A : Type} (d : Path) (m : Eff FS A) : Prop :=
  ∀ fs, dirs_to fs d → same_outside d fs (fst (m fs)).

(** The tree a sub-bundle leaves: its directory, the caption, the
    description and, when one was downloaded, the image. *)
Definition bundle_fs (news_dir : Path) (caption description : str)
    (image : option (str * Content)) (fs : FS) : FS :=
  let fs := <[news_dir := Dir]> fs in
  let fs := <[child news_dir caption_txt := File (Text caption)]> fs in
  let fs := <[child news_dir description_txt := File (Text description)]> fs in
  match image with
  | Some (name, c) => <[child news_dir name := File c]> fs
  | None => fs
  end.

(** The tree the per-record loop leaves, from index [i] on. *)
Fixpoint bundles_fs (lower strip_unsafe : str → str) (W : World)
    (cfg : Config) (date_dir : Path) (i : nat) (news_items : list NewsItem)
    (captions : list str) (fs : FS) : FS :=
  match news_items, captions with
  | news_item :: news_items', caption :: captions' =>
      bundles_fs lower strip_unsafe W cfg date_dir (S i) news_items' captions'
        (bundle_fs (child date_dir (noticia i)) caption
                   (description_text cfg news_item)
                   (bundle_image lower strip_unsafe W news_item) fs)
  | _, _ => fs
  end.

(** A computation that keeps the tree well formed. *)
Definition wf_preserving {A : Type} (m : Eff FS A) : Prop :=
  ∀ fs, fs_wf fs → fs_wf (fst (m fs)).

(** The tree [save_content] leaves once it has chosen [date_dir]. *)
Definition materialized (lower strip_unsafe : str → str) (W : World)
    (cfg : Config) (date_dir : Path) (news_items : list NewsItem)
    (captions : list str) (fs : FS) : FS :=
  <[child date_dir all_captions_txt
      := File (Text (captions_listing captions))]>
    (bundles_fs lower strip_unsafe W cfg date_dir 0 news_items captions
       (<[child date_dir news_json := File (Json news_items)]>
          (<[date_dir := Dir]> fs))).

(** ** Sample data

    Concrete identifiers, fragments and sites on which the definitions are
    evaluated. *)

(** The identifiers of two stored articles. *)
Definition id_a : str := pystr "0cc175b9c0f1b6a831c399e269772661".
Definition id_b : str := pystr "92eb5ffee6ae2fec3ad71c777531578f".

(** The fragment
    [<article><h2 class='titular'><a href='/n'>T</a></h2>
     <p class='texto'></p><span class='autor'></span></article>]:
    a title link, an empty paragraph and an empty author element. *)
Definition title_link : Tag := mkTag (pystr "T") [(pystr "href", pystr "/n")].
Definition empty_tag : Tag := mkTag [] [].

Definition hollow_article : Element :=
  mkElement (λ selector,
    if bool_decide (selector ∈ map pystr ["h2.titular a"; "h2 a"]%string)
    then Some title_link
    else if bool_decide
              (selector ∈ map pystr ["p.texto"; "p:not(.meta)"; "p";
                                     ".autor"]%string)
    then Some empty_tag
    else None).

(** The fragment
    [<div><h3><a href='https://example.org/a'>Second</a></h3></div>]:
    no [h2] nor [h1] link, only the fourth title locator matches. *)
Definition h3_article : Element :=
  mkElement (λ selector,
    if bool_decide (selector = pystr "h3 a")
    then Some (mkTag (pystr "Second")
                     [(pystr "href", pystr "https://example.org/a")])
    else None).

(** A site that is down: every request raises. *)
Definition offline : World :=
  mkWorld (λ _, Raise RequestException) (λ _ _, Ok tt)
          (λ _, Raise ParserError).

Definition sample_item : NewsItem :=
  mkNewsItem (pystr "T") (pystr "listing summary")
             (pystr "https://vandal.elespanol.com/n") None None None
             (pystr "68c71117eb9cc9adfd2fb5136415584a").

(** The fragment
    [<article><h2><a href='/n'>T</a></h2><img alt='x'></article>]: the
    image element carries none of the address attributes. *)
Definition bare_image_article : Element :=
  mkElement (λ selector,
    if bool_decide (selector = pystr "h2 a") then Some title_link
    else if bool_decide (selector = pystr "img")
    then Some (mkTag [] [(pystr "alt", pystr "x")])
    else None).

(** The same record with the lone surrogate U+D800 as its summary. *)
Definition surrogate_item : NewsItem := set_summary sample_item [0xD800].

(** A fragment [<article><h2><a href=HREF>TITLE</a></h2></article>]. *)
Definition plain_article (t href : string) : Element :=
  mkElement (λ selector,
    if bool_decide (selector = pystr "h2 a")
    then Some (mkTag (pystr t) [(pystr "href", pystr href)])
    else None).

(** A listing page made of the given [article] elements. *)
Definition page_soup (articles : list Element) : Soup :=
  mkSoup (λ selector,
            if bool_decide (selector = pystr "article") then articles else [])
         [] (λ _, None).

(** A site whose first listing page holds [articles] and whose other pages
    hold none; the body served is the address requested. *)
Definition site (articles : list Element) : World :=
  mkWorld (λ url, Ok (mkResponse 200 url []))
          (λ _ _, Ok tt)
          (λ body, Ok (if bool_decide (body = NEWS_URL)
                       then page_soup articles else page_soup [])).

(** A site whose first listing page is empty and whose second page holds
    [articles]. *)
Definition late_site (articles : list Element) : World :=
  mkWorld (λ url, Ok (mkResponse 200 url []))
          (λ _ _, Ok tt)
          (λ body, Ok (if bool_decide (body = NEWS_URL ++ pystr "/2")
                       then page_soup articles else page_soup [])).

Definition article_A : Element := plain_article "A" "/noticia/a".
Definition article_B : Element := plain_article "B" "/noticia/b".

Definition item_A : NewsItem :=
  mkNewsItem (pystr "A") no_summary
             (pystr "https://vandal.elespanol.com/noticia/a") None None None
             (pystr "e220c390496137d3a422aeb17775352f").
Definition item_B : NewsItem :=
  mkNewsItem (pystr "B") no_summary
             (pystr "https://vandal.elespanol.com/noticia/b") None None None
             (pystr "4a56d1224b32e5c3a3db57e94aeb16b2").

Definition fresh_scraper : Scraper :=
  mkScraper CONFIG (mkNewsHistory [] 500).
Definition scraper_seen_A : Scraper :=
  mkScraper CONFIG (mkNewsHistory [news_id item_A] 500).

(** The tree right after the scraper is constructed: the output and
    content directories, nothing else. *)
Definition ready_fs : FS :=
  <[CONTENT_DIR := Dir]> (<[OUTPUT_DIR := Dir]> ∅).

(** ** Further vocabulary *)

(** The strings a history file stores under [news_ids]: the elements of an
    array, the characters of a string, the keys of an object. *)
Definition stored_ids (file : HistoryFile) : list str :=
  match file with
  | FileData (Some (IdsArray ids)) => ids
  | FileData (Some (IdsString s)) => (λ c, [c]) <$> s
  | FileData (Some (IdsObject keys)) => keys
  | _ => []
  end.

(** A lower-case hexadecimal digit, as a code point. *)
Definition is_hex (c : Z) : Prop := 48 ≤ c ≤ 57 ∨ 97 ≤ c ≤ 102.

(** A detail page whose only summary element is [<p class='summary'>]. *)
Definition detail_soup : Soup :=
  mkSoup (λ _, []) []
         (λ selector,
            if bool_decide (selector = pystr ".summary")
            then Some (mkTag (pystr "Full summary") [])
            else None).

(** A site that serves that detail page at every address. *)
Definition detail_site : World :=
  mkWorld (λ url, Ok (mkResponse 200 url []))
          (λ _ _, Ok tt)
          (λ _, Ok detail_soup).

(** [fs'] is [fs] with directories added where nothing was. *)
Definition grows (fs fs' : FS) : Prop :=
  ∀ q : Path, fs' !! q = fs !! q ∨ (fs !! q = None ∧ fs' !! q = Some Dir).

(** No file stands where [p] or one of its ancestors should be. *)
Definition no_file_on (fs : FS) (p : Path) : Prop :=
  ∀ k c, (1 ≤ k)%nat → fs !! take k p ≠ Some (File c).

(** The directories [_ensure_output_dir] creates. *)
Definition output_dirs : list Path :=
  [OUTPUT_DIR; CONTENT_DIR; LOGS_DIR; LOG_SUBDIR; DEBUG_SUBDIR].

(** A tree where a file took the place of the content directory. *)
Definition blocked_fs : FS :=
  <[CONTENT_DIR := File (Text [])]> (<[OUTPUT_DIR := Dir]> ∅).

(** A home page with one long-titled news link, one short-titled one and
    one link that is not a news link. *)
Definition sample_homepage : Homepage :=
  mkHomepage
    (Ok (mkResponse 200 [] []))
    (λ _, Ok tt)
    (λ _, Ok [mkTag (pystr "A long enough headline")
                    [(pystr "href", pystr "/noticia/long")];
              mkTag (pystr "Short") [(pystr "href", pystr "/noticia/short")];
              mkTag (pystr "A long enough link text elsewhere")
                    [(pystr "href", pystr "/about")]]).

Definition fallback_item : NewsItem :=
  mkNewsItem (pystr "A long enough headline") []
             (pystr "https://vandal.elespanol.com/noticia/long")
             None None None
             (pystr "f726b71e79987ff6d175bdead9ae1724").

(** * Properties *)

Arguments pystr : simpl never.

(** ** The digest agrees with [hashlib] on known inputs *)

Example md5_empty :
  MD5.hexdigest [] = pystr "d41d8cd98f00b204e9800998ecf8427e".
Proof. vm_compute. reflexivity. Qed.

Example md5_abc :
  option_map MD5.hexdigest (encode_utf8 (pystr "abc"))
  = Some (pystr "900150983cd24fb0d6963f7d28e17f72").
Proof. vm_compute. reflexivity. Qed.

Example md5_two_blocks :
  MD5.hexdigest (repeat 97 120) = pystr "5f61c0ccad4cac44c75ff505e1f1e537".
Proof. vm_compute. reflexivity. Qed.

(** U+00E9, "|", U+20AC, U+1F600: two, one, three and four bytes. *)
Example md5_utf8 :
  option_map MD5.hexdigest (encode_utf8 [0xE9; 124; 0x20AC; 0x1F600])
  = Some (pystr "b48f8a7bef604e1e533552d75b6e9690").
Proof. vm_compute. reflexivity. Qed.

(** ** Strings and slices on known inputs *)

Example str_of_nat_examples :
  str_of_nat 0 = pystr "0" ∧ str_of_nat 7 = pystr "7" ∧
  str_of_nat 120 = pystr "120".
Proof. repeat split; vm_compute; reflexivity. Qed.

(** [[1, 2, 3][-2:]], [[1, 2, 3][-0:]], [[1, 2, 3][-5:]] and
    [[1, 2, 3][:2]]. *)
Example slice_examples :
  slice_from (-2) [1; 2; 3] = [2; 3] ∧
  slice_from (- 0) [1; 2; 3] = [1; 2; 3] ∧
  slice_from (-5) [1; 2; 3] = [1; 2; 3] ∧
  slice_to 2 [1; 2; 3] = [1; 2].
Proof. repeat split; reflexivity. Qed.

(** ** Article identifier *)

Lemma encode_char_scalar c :
  scalar_value c = true → is_Some (encode_char c).
Proof.
  intros H. unfold encode_char. rewrite H. simpl.
  repeat case_match; eauto.
Qed.

Lemma encode_utf8_scalar s :
  forallb scalar_value s = true → is_Some (encode_utf8 s).
Proof.
  induction s as [|c r IH]; simpl; [eauto|].
  intros [Hc Hr]%andb_prop.
  destruct (encode_char_scalar c Hc) as [b ->].
  destruct (IH Hr) as [br ->]. eauto.
Qed.

(** The constructor never raises on text free of surrogates. *)
Lemma NewsItem_new_total t s l i a d :
  forallb scalar_value t = true → forallb scalar_value l = true →
  ∃ item, NewsItem_new t s l i a d = Some item ∧
          title item = t ∧ summary item = s ∧ link item = l ∧
          image_url item = i ∧ author item = a ∧ published_date item = d.
Proof.
  intros Ht Hl.
  assert (He : is_Some (encode_utf8 (t ++ pystr "|" ++ l))).
  { apply encode_utf8_scalar. rewrite !forallb_app, Ht, Hl. reflexivity. }
  destruct He as [b Hb].
  unfold NewsItem_new, post_init, article_id.
  cbn [news_id title link truthy negb]. rewrite Hb.
  eexists. split; [reflexivity|]. cbn. tauto.
Qed.

(** C1. The identifier of a record is a function of its title and link
    alone: building a record with a given title and link gives the
    hexadecimal MD5 digest of the UTF-8 bytes of title, "|" and link,
    whatever the summary, image, author and date are, so two records with
    the same title and link have the same identifier; and the record is
    built whenever title and link hold no surrogate code point. *)
Theorem news_id_function_of_title_and_link :
  ∀ (t l s1 s2 : str) (i1 i2 a1 a2 d1 d2 : option str),
    news_id <$> NewsItem_new t s1 l i1 a1 d1
      = MD5.hexdigest <$> encode_utf8 (t ++ pystr "|" ++ l) ∧
    news_id <$> NewsItem_new t s1 l i1 a1 d1
      = news_id <$> NewsItem_new t s2 l i2 a2 d2 ∧
    (forallb scalar_value t = true → forallb scalar_value l = true →
     is_Some (NewsItem_new t s1 l i1 a1 d1)).
Proof.
  intros. split; [|split].
  - unfold NewsItem_new, post_init, article_id.
    cbn [news_id title link truthy negb].
    by destruct (encode_utf8 (t ++ pystr "|" ++ l)).
  - unfold NewsItem_new, post_init, article_id.
    cbn [news_id title link truthy negb].
    by destruct (encode_utf8 (t ++ pystr "|" ++ l)).
  - intros Ht Hl.
    destruct (NewsItem_new_total t s1 l i1 a1 d1 Ht Hl) as (item & -> & _).
    eauto.
Qed.

Lemma news_id_function_of_title_and_link_witness :
  is_Some (NewsItem_new (pystr "T") (pystr "s")
             (pystr "https://vandal.elespanol.com/n") None None None).
Proof.
  apply (proj2 (proj2 (news_id_function_of_title_and_link
                         (pystr "T") (pystr "https://vandal.elespanol.com/n")
                         (pystr "s") (pystr "s") None None None None
                         None None))); reflexivity.
Defined.

Example news_id_example :
  news_id <$> NewsItem_new (pystr "T") (pystr "s")
                (pystr "https://vandal.elespanol.com/n") None None None
  = Some (pystr "68c71117eb9cc9adfd2fb5136415584a").
Proof. vm_compute. reflexivity. Qed.

(** ** History store *)

Lemma slice_from_neg_length {A} (n : Z) (l : list A) :
  0 < n → n < Z.of_nat (length l) →
  length (slice_from (- n) l) = Z.to_nat n.
Proof.
  intros Hn Hl. unfold slice_from.
  destruct (Z.ltb_spec (- n) 0); [|lia].
  rewrite length_drop. lia.
Qed.

Lemma slice_from_sublist {A} (n : Z) (l : list A) :
  slice_from n l `sublist_of` l.
Proof. unfold slice_from. apply sublist_drop. Qed.

Lemma slice_from_zero {A} (l : list A) : slice_from (- 0) l = l.
Proof. unfold slice_from. simpl. rewrite Z.min_l by lia. reflexivity. Qed.

Lemma remove_dups_NoDup (l : list str) : NoDup l → remove_dups l = l.
Proof.
  induction 1 as [|x l Hx Hl IH]; simpl; [reflexivity|].
  destruct (decide_rel elem_of x l); [contradiction|]. by rewrite IH.
Qed.

Section HistoryProperties.

Variable set_order : list str → list str.
Hypothesis set_order_perm : ∀ l, set_order l ≡ₚ l.

Lemma set_of_list_NoDup l : NoDup (set_of_list set_order l).
Proof.
  unfold set_of_list. rewrite set_order_perm. apply NoDup_remove_dups.
Qed.

Lemma set_of_list_length l :
  NoDup l → length (set_of_list set_order l) = length l.
Proof.
  intros Hl. unfold set_of_list.
  rewrite set_order_perm, remove_dups_NoDup; done.
Qed.

Lemma set_of_list_elem l x : x ∈ set_of_list set_order l ↔ x ∈ l.
Proof.
  unfold set_of_list. rewrite set_order_perm. apply elem_of_remove_dups.
Qed.

(** For a positive capacity the trimming does what the store promises:
    the retained set is a subset of the old one, of size at most the
    capacity, and of size exactly the capacity when the old one was
    larger. *)
Lemma save_history_positive_limit (w : bool) (h : NewsHistory) :
  NoDup (news_ids h) → 0 < limit h →
  let h' := fst (save_history set_order w h) in
  Z.of_nat (length (news_ids h')) ≤ limit h ∧
  (limit h < Z.of_nat (length (news_ids h)) →
   Z.of_nat (length (news_ids h')) = limit h) ∧
  (∀ x, x ∈ news_ids h' → x ∈ news_ids h) ∧
  NoDup (news_ids h') ∧
  snd (save_history set_order w h)
    = (if w then Some (news_ids h') else None).
Proof.
  intros Hnd Hpos. unfold save_history, trim_history. simpl.
  destruct (Z.ltb_spec (limit h) (Z.of_nat (length (news_ids h))))
    as [Hgt|Hle]; simpl.
  - assert (Hs : NoDup (slice_from (- limit h) (news_ids h))).
    { eapply sublist_NoDup; [done|apply slice_from_sublist]. }
    rewrite set_of_list_length by done.
    rewrite slice_from_neg_length by lia.
    repeat split; try lia.
    + intros x Hx. apply (proj1 (set_of_list_elem _ _)) in Hx.
      eapply elem_of_sublist; [done|apply slice_from_sublist].
    + apply set_of_list_NoDup.
  - repeat split; try lia; done.
Qed.

(** With capacity 0 nothing is trimmed: the slice [-0:] is the whole
    list. *)
Lemma save_history_zero_limit (w : bool) (ids : pyset) :
  NoDup ids →
  let h' := fst (save_history set_order w (mkNewsHistory ids 0)) in
  same_set (news_ids h') ids ∧ length (news_ids h') = length ids.
Proof.
  intros Hnd. unfold save_history, trim_history. cbn [fst news_ids limit].
  destruct (Z.ltb_spec 0 (Z.of_nat (length ids))); [|split; done].
  cbn [news_ids]. rewrite slice_from_zero. split.
  - intros x. apply set_of_list_elem.
  - by apply set_of_list_length.
Qed.

End HistoryProperties.

Lemma save_history_positive_limit_example :
  let h := mkNewsHistory [id_a; id_b] 1 in
  let h' := fst (save_history (λ l, l) true h) in
  Z.of_nat (length (news_ids h')) ≤ 1.
Proof.
  refine (proj1 (save_history_positive_limit (λ l, l) _ true
                   (mkNewsHistory [id_a; id_b] 1) _ _)).
  - intros l. reflexivity.
  - simpl. apply NoDup_cons. split; [|apply NoDup_singleton].
    rewrite list_elem_of_singleton. intros H. vm_compute in H. discriminate.
  - simpl. lia.
Qed.

(** C4. With capacity 0 and one stored identifier the save trims nothing:
    [news_ids_list[-0:]] is the whole list, so the store that is kept and
    written holds one identifier, more than the capacity. *)
Theorem save_history_zero_limit_keeps_everything :
  save_history (λ l, l) true (mkNewsHistory [id_a] 0)
  = (mkNewsHistory [id_a] 0, Some [id_a]).
Proof. vm_compute. reflexivity. Qed.

(** C7. Two loads of the same logical set {a, b} that iterate in different
    orders keep different identifiers when saved with capacity 1: the
    save keeps the last element of the iteration, whichever it is. *)
Theorem save_history_eviction_follows_iteration_order :
  same_set [id_a; id_b] [id_b; id_a] ∧
  news_ids (fst (save_history (λ l, l) true (mkNewsHistory [id_a; id_b] 1)))
    = [id_b] ∧
  news_ids (fst (save_history (λ l, l) true (mkNewsHistory [id_b; id_a] 1)))
    = [id_a] ∧
  ¬ same_set [id_b] [id_a].
Proof.
  split; [|split; [|split]].
  - intros x. rewrite !elem_of_cons. tauto.
  - vm_compute. reflexivity.
  - vm_compute. reflexivity.
  - intros H. specialize (H id_b).
    assert (Hin : id_b ∈ [id_a]) by (apply H; left).
    apply list_elem_of_singleton in Hin. vm_compute in Hin. discriminate.
Qed.

(** ** Field extraction *)

Lemma first_match_Some article selectors t :
  first_match article selectors = Some t ↔ first_hit article selectors t.
Proof.
  unfold first_hit. induction selectors as [|s r IH]; simpl.
  - split; [discriminate|]. intros (pre & sel & post & H & _).
    destruct pre; discriminate.
  - destruct (select_one article s) as [t'|] eqn:Hs.
    + split.
      * intros [= ->]. exists [], s, r. auto.
      * intros (pre & sel & post & H & Hpre & Hsel).
        destruct pre as [|s' pre]; simpl in H; injection H as <- ->.
        -- congruence.
        -- apply Forall_cons in Hpre as [Hs' _]. congruence.
    + rewrite IH. split.
      * intros (pre & sel & post & -> & Hpre & Hsel).
        exists (s :: pre), sel, post. auto.
      * intros (pre & sel & post & H & Hpre & Hsel).
        destruct pre as [|s' pre]; simpl in H; injection H as <- ->.
        -- congruence.
        -- apply Forall_cons in Hpre as [_ Hpre]. eauto 6.
Qed.

Lemma first_match_None article selectors :
  first_match article selectors = None ↔ no_hit article selectors.
Proof.
  unfold no_hit. induction selectors as [|s r IH]; simpl.
  - split; auto.
  - rewrite Forall_cons. destruct (select_one article s); [|tauto].
    split; [discriminate|]. intros [? _]. discriminate.
Qed.

Lemma first_match_finds article selectors :
  chain_finds article selectors (first_match article selectors).
Proof.
  unfold chain_finds. destruct (first_match article selectors) eqn:H.
  - by apply first_match_Some.
  - by apply first_match_None.
Qed.

Lemma before_space_id (v : str) : 32 ∉ v → before_space v = v.
Proof.
  induction v as [|c r IH]; [done|]. intros Hv.
  apply not_elem_of_cons in Hv as [Hc Hr]. cbn [before_space].
  destruct (Z.eqb_spec c 32) as [->|_]; [done|]. by rewrite IH.
Qed.

(** The attribute cascade: the value of the first attribute present, cut
    at its first space, or nothing when none is present. *)
Lemma first_attr_finds (t : Tag) (names : list str) :
  match first_attr t names with
  | Some u => ∃ v, first_present t names v ∧ u = before_space v
  | None => none_present t names
  end.
Proof.
  unfold first_present, none_present.
  induction names as [|name rest IH]; cbn [first_attr]; [constructor|].
  destruct (attr (tag_attrs t) name) as [v|] eqn:Hv.
  - exists v. split; [exists [], name, rest; auto|].
    case_bool_decide as Hsp; [done|]. by rewrite before_space_id.
  - destruct (first_attr t rest) as [u|].
    + destruct IH as (v & (pre & n & post & -> & Hpre & Hn) & ->).
      exists v. split; [|done]. exists (name :: pre), n, post. auto.
    + by constructor.
Qed.

(** C5, as stated, fails: in the fragment with an empty paragraph and an
    empty author element every summary locator fails or yields empty text,
    yet the summary is the empty string and not the default, and the
    author is the empty string and not absent. *)
Lemma empty_match_is_kept :
  ¬ (∀ article f,
       extract_fields article = Some f →
       (Forall (fails_or_empty article) summary_selectors →
        f_summary f = no_summary) ∧
       (Forall (fails_or_empty article) author_selectors →
        f_author f = None)).
Proof.
  intros H.
  destruct (H hollow_article
              (mkFields (pystr "T") [] (pystr "https://vandal.elespanol.com/n")
                        None (Some []) None)) as [Hs _].
  - vm_compute. reflexivity.
  - assert (Hne : [] = no_summary → False) by (vm_compute; discriminate).
    apply Hne, Hs.
    unfold summary_selectors, fails_or_empty.
    repeat (apply Forall_cons; split; [vm_compute; exact I || reflexivity|]).
    apply Forall_nil. exact I.
Qed.

(** C5, amended.  Each field chain takes the first locator that matches an
    element, whatever its text: the title and the link come from the
    first title match (a fragment without one is skipped), the summary is
    the stripped text of the first summary match or the default when no
    locator matches, author and date are the stripped text of their first
    match or absent when no locator matches.  The image comes from the
    first image match: it is the value of the first attribute among
    [src], [data-src], [data-lazy-src] and [data-srcset] that the element
    carries, cut at its first space and prefixed with the site origin
    unless empty or already absolute; it is absent when no image locator
    matches and also when the matched element carries none of the four
    attributes.  When the first locator of a chain
    matches nothing and the second matches, the second locator's element
    is the one used. *)
Theorem first_matching_locator_wins :
  ∀ article : Element,
    match extract_fields article with
    | None => no_hit article title_selectors
    | Some f =>
        (∃ t, first_hit article title_selectors t ∧
              f_title f = tag_text t ∧
              f_link f = absolutize (tag_get t (pystr "href"))) ∧
        ((∃ t, first_hit article summary_selectors t ∧
               f_summary f = tag_text t) ∨
         (no_hit article summary_selectors ∧ f_summary f = no_summary)) ∧
        ((∃ t, first_hit article image_selectors t ∧
               ((∃ v, first_present t image_attrs v ∧
                      f_image_url f = Some (absolutize (before_space v))) ∨
                (none_present t image_attrs ∧ f_image_url f = None))) ∨
         (no_hit article image_selectors ∧ f_image_url f = None)) ∧
        ((∃ t, first_hit article author_selectors t ∧
               f_author f = Some (tag_text t)) ∨
         (no_hit article author_selectors ∧ f_author f = None)) ∧
        ((∃ t, first_hit article date_selectors t ∧
               f_published_date f = Some (tag_text t)) ∨
         (no_hit article date_selectors ∧ f_published_date f = None))
    end ∧
    ∀ (s1 s2 : str) (rest : list str) (t : Tag),
      select_one article s1 = None → select_one article s2 = Some t →
      first_match article (s1 :: s2 :: rest) = Some t.
Proof.
  intros article. split.
  - unfold extract_fields.
    pose proof (first_match_finds article title_selectors) as Ht.
    pose proof (first_match_finds article summary_selectors) as Hs.
    pose proof (first_match_finds article image_selectors) as Hi.
    pose proof (first_match_finds article author_selectors) as Ha.
    pose proof (first_match_finds article date_selectors) as Hd.
    destruct (first_match article title_selectors) as [tt|]; [|exact Ht].
    cbn [f_title f_summary f_link f_image_url f_author f_published_date].
    split; [exists tt; auto|].
    split; [destruct (first_match article summary_selectors); eauto|].
    split.
    { destruct (first_match article image_selectors) as [it|]; [|eauto].
      left. exists it. split; [exact Hi|].
      pose proof (first_attr_finds it image_attrs) as Hattr.
      destruct (first_attr it image_attrs) as [u|].
      - destruct Hattr as (v & Hv & ->). left. exists v. by split.
      - right. by split. }
    split; [destruct (first_match article author_selectors); eauto|].
    destruct (first_match article date_selectors); eauto.
  - intros s1 s2 rest t H1 H2. simpl. rewrite H1, H2. reflexivity.
Qed.

Lemma first_matching_locator_wins_witness :
  first_match h3_article [pystr "h1 a"; pystr "h3 a"]
  = Some (mkTag (pystr "Second")
                [(pystr "href", pystr "https://example.org/a")]).
Proof.
  apply (proj2 (first_matching_locator_wins h3_article)
               (pystr "h1 a") (pystr "h3 a") []); reflexivity.
Defined.

(** A matched image element without any of the address attributes gives
    no image. *)
Example bare_image_article_fields :
  first_match bare_image_article image_selectors
  = Some (mkTag [] [(pystr "alt", pystr "x")]) ∧
  extract_fields bare_image_article
  = Some (mkFields (pystr "T") no_summary
                   (pystr "https://vandal.elespanol.com/n") None None None).
Proof. split; vm_compute; reflexivity. Qed.

Example h3_article_fields :
  extract_fields h3_article
  = Some (mkFields (pystr "Second") no_summary (pystr "https://example.org/a")
                   None None None).
Proof. vm_compute. reflexivity. Qed.

(** ** Detail enrichment *)

Lemma detail_summary_returns soup selectors item :
  snd (detail_summary soup selectors item) = Ok tt.
Proof.
  induction selectors as [|s r IH]; simpl; [reflexivity|].
  destruct (soup_select_one soup s); [|exact IH].
  case_bool_decide; reflexivity.
Qed.

Lemma detail_image_returns soup selectors item :
  snd (detail_image soup selectors item) = Ok tt.
Proof.
  induction selectors as [|s r IH]; simpl; [reflexivity|].
  destruct (soup_select_one soup s) as [main_image|]; [|exact IH].
  unfold bind. case_bool_decide; simpl; [reflexivity|].
  destruct (attr (tag_attrs main_image) (pystr "data-src"));
    [reflexivity|].
  destruct (attr (tag_attrs main_image) (pystr "src")); reflexivity.
Qed.

(** The body raises exactly when the request, the status check, the debug
    snapshot or the parser does, and all of them come before the first
    assignment. *)
Lemma enrich_body_raise (W : World) (item : NewsItem) (e : exn) :
  snd (enrich_body W item) = Raise e → fst (enrich_body W item) = item.
Proof.
  cbv [enrich_body bind lift get_state ret].
  destruct (session_get W (link item)) as [response|e1]; [|reflexivity].
  destruct (raise_for_status response) as [[]|e2]; [|reflexivity].
  destruct (write_debug W (debug_article item) (text response))
    as [[]|e3]; [|reflexivity].
  destruct (parse_html W (text response)) as [soup|e4]; [|reflexivity].
  pose proof (detail_summary_returns soup detail_summary_selectors item)
    as Hs.
  destruct (detail_summary soup detail_summary_selectors item)
    as [item1 r1]. simpl in Hs. subst r1.
  destruct (negb (truthy_opt (image_url item1))).
  - intros H. rewrite detail_image_returns in H. discriminate.
  - discriminate.
Qed.

(** C6. When the detail fetch or parse raises (the request, the HTTP
    status check, the debug snapshot or the parser), the record returned by
    [fetch_article_details] is the record it was given, field by field. *)
Theorem enrichment_failure_leaves_record_unchanged :
  ∀ (W : World) (news_item : NewsItem) (e : exn),
    snd (enrich_body W news_item) = Raise e →
    fetch_article_details W news_item = news_item.
Proof.
  intros W news_item e H. unfold fetch_article_details.
  destruct (negb (truthy (link news_item))); [reflexivity|].
  by eapply enrich_body_raise.
Qed.

Lemma enrichment_failure_leaves_record_unchanged_witness :
  fetch_article_details offline sample_item = sample_item.
Proof.
  apply (enrichment_failure_leaves_record_unchanged
           offline sample_item RequestException).
  reflexivity.
Defined.

(** ** Quota collection *)

Example site_page_1 :
  fetch_gaming_news (λ s, s) (site [article_A; article_B]) 1
  = [item_A; item_B].
Proof. vm_compute. reflexivity. Qed.

Example site_page_2 :
  fetch_gaming_news (λ s, s) (site [article_A; article_B]) 2 = [].
Proof. vm_compute. reflexivity. Qed.

Section QuotaProperties.

Variable lower : str → str.
Variable W : World.

Local Abbreviation fetch := (fetch_gaming_news lower W).
Local Abbreviation len l := (Z.of_nat (length l)).

Lemma is_duplicate_seen self x :
  is_duplicate (history self) x = true ↔ seen self x.
Proof. unfold is_duplicate, set_in, seen. apply bool_decide_eq_true. Qed.

Lemma is_duplicate_unseen self x :
  is_duplicate (history self) x = false ↔ unseen self x.
Proof. unfold is_duplicate, set_in, unseen. apply bool_decide_eq_false. Qed.

Lemma listing_from_S p n :
  listing_from lower W p (S n) = fetch p ++ listing_from lower W (p + 1) n.
Proof.
  unfold listing_from. simpl. rewrite Z.add_0_r. f_equal.
  rewrite <- seq_shift, map_map. f_equal. apply map_ext.
  intros k. f_equal. lia.
Qed.

Lemma scan_page_full self count l new dup :
  count ≤ len new → scan_page self count l new dup = (self, (new, dup)).
Proof.
  intros H. destruct l as [|x r]; simpl; [reflexivity|].
  destruct (Z.leb_spec count (len new)); [reflexivity|lia].
Qed.

Lemma scan_page_self self count l new dup :
  fst (scan_page self count l new dup) = self.
Proof.
  revert new dup. induction l as [|x r IH]; intros new dup; simpl;
    [reflexivity|].
  destruct (count <=? len new); [reflexivity|].
  destruct (is_duplicate (history self) x); apply IH.
Qed.

Lemma scan_page_app self count l1 l2 new dup :
  scan_page self count (l1 ++ l2) new dup
  = let '(_, (new', dup')) := scan_page self count l1 new dup in
    scan_page self count l2 new' dup'.
Proof.
  revert new dup. induction l1 as [|x r IH]; intros new dup; simpl.
  - reflexivity.
  - destruct (Z.leb_spec count (len new)) as [Hfull|Hmore].
    + by rewrite scan_page_full.
    + destruct (is_duplicate (history self) x); apply IH.
Qed.

Lemma unique_loop_full fuel self count new dup page :
  count ≤ len new →
  unique_loop lower W fuel self count new dup page
  = Some (self, (new, dup)).
Proof.
  intros H. destruct fuel; simpl;
    destruct (Z.ltb_spec (len new) count); try lia; reflexivity.
Qed.

Lemma unique_loop_S fuel self count new dup page :
  unique_loop lower W (S fuel) self count new dup page
  = if (len new <? count) && (page <=? max_pages) then
      match fetch page with
      | [] => unique_loop lower W fuel self count new dup (page + 1)
      | all_news =>
          let '(self', (new', dup')) :=
            scan_page self count all_news new dup in
          if len new' <? count then
            unique_loop lower W fuel self' count new' dup' (page + 1)
          else unique_loop lower W fuel self' count new' dup' page
      end
    else Some (self, (new, dup)).
Proof. reflexivity. Qed.

(** The loop is the scan of the remaining pages laid end to end, and
    [n] iterations are enough for [n] remaining pages. *)
Lemma unique_loop_scan n : ∀ fuel self count new dup page,
  page = max_pages + 1 - Z.of_nat n → (n ≤ fuel)%nat →
  unique_loop lower W fuel self count new dup page
  = Some (scan_page self count (listing_from lower W page n) new dup).
Proof.
  induction n as [|n IH]; intros fuel self count new dup page Hp Hf.
  - unfold listing_from. simpl.
    destruct fuel; simpl;
      destruct (Z.leb_spec page max_pages); try lia;
      rewrite andb_false_r; reflexivity.
  - destruct (Z.le_gt_cases count (len new)) as [Hfull|Hmore].
    { rewrite unique_loop_full, scan_page_full by done. reflexivity. }
    destruct fuel as [|fuel]; [lia|].
    rewrite listing_from_S, scan_page_app, unique_loop_S.
    destruct (Z.ltb_spec (len new) count); [|lia].
    destruct (Z.leb_spec page max_pages); [|lia].
    cbn [andb].
    destruct (fetch page) as [|x r] eqn:Hfetch.
    + cbn [scan_page]. apply IH; lia.
    + pose proof (scan_page_self self count (x :: r) new dup) as Hself.
      destruct (scan_page self count (x :: r) new dup)
        as [self' [new' dup']]. cbn [fst] in Hself. subst self'.
      destruct (Z.ltb_spec (len new') count).
      * apply IH; lia.
      * rewrite unique_loop_full, scan_page_full by done. reflexivity.
Qed.

(** What a scan does to the accumulators: it consumes a prefix
    [scanned] of the records, sends the unseen ones to [new] and the
    seen ones to [dup], meets every scanned record below the quota and
    leaves records unscanned only once the quota is met. *)
Lemma scan_page_scanned self count l : ∀ new dup,
  ∃ scanned rest,
    l = scanned ++ rest ∧
    scan_page self count l new dup
    = (self, (new ++ filter (unseen self) scanned,
              dup ++ filter (seen self) scanned)) ∧
    (∀ pre x post, scanned = pre ++ x :: post →
       len (new ++ filter (unseen self) pre) < count) ∧
    (rest ≠ [] → count ≤ len (new ++ filter (unseen self) scanned)).
Proof.
  induction l as [|x r IH]; intros new dup.
  - exists [], []. simpl. rewrite !app_nil_r.
    repeat split; try done. intros [] ? ?; discriminate.
  - simpl. destruct (Z.leb_spec count (len new)) as [Hfull|Hmore].
    + exists [], (x :: r). simpl. rewrite !app_nil_r.
      repeat split; try done. intros [] ? ?; discriminate.
    + destruct (is_duplicate (history self) x) eqn:Hx.
      * destruct (IH new (dup ++ [x]))
          as (scanned & rest & -> & Hscan & Hpre & Hrest).
        exists (x :: scanned), rest.
        assert (Hseen : seen self x) by by apply is_duplicate_seen.
        assert (Hnot : ¬ unseen self x) by (intros Hn; by apply Hn).
        rewrite (filter_cons_True (seen self)),
          (filter_cons_False (unseen self)) by done.
        rewrite Hscan, <- app_assoc. simpl.
        repeat split; try done.
        intros [|y pre] z post Heq; simpl in Heq; injection Heq as <- ->.
        -- simpl. by rewrite app_nil_r.
        -- rewrite filter_cons_False by done. eapply Hpre. reflexivity.
      * destruct (IH (new ++ [x]) dup)
          as (scanned & rest & -> & Hscan & Hpre & Hrest).
        exists (x :: scanned), rest.
        assert (Hunseen : unseen self x) by by apply is_duplicate_unseen.
        assert (Hnot : ¬ seen self x) by exact Hunseen.
        rewrite (filter_cons_True (unseen self)),
          (filter_cons_False (seen self)) by done.
        rewrite Hscan, <- app_assoc. simpl.
        repeat split; try done.
        -- intros [|y pre] z post Heq; simpl in Heq; injection Heq as <- ->.
           ++ simpl. by rewrite app_nil_r.
           ++ rewrite filter_cons_True by done.
              specialize (Hpre pre z post eq_refl).
              by rewrite <- app_assoc in Hpre.
        -- intros Hne. specialize (Hrest Hne).
           by rewrite <- app_assoc in Hrest.
Qed.

(** The collector returns, leaves the scraper as it was, and its two
    lists are those of a scan of the whole crawl. *)
Lemma get_unique_news_scanned fuel self (count : option Z) :
  (5 ≤ fuel)%nat →
  let target := default (news_count (config self)) count in
  ∃ scanned rest,
    listing lower W = scanned ++ rest ∧
    get_unique_news lower W fuel self count
    = Some (self, (filter (unseen self) scanned,
                   filter (seen self) scanned)) ∧
    (∀ pre x post, scanned = pre ++ x :: post →
       len (filter (unseen self) pre) < target) ∧
    (rest ≠ [] → target ≤ len (filter (unseen self) scanned)).
Proof.
  intros Hf target. unfold get_unique_news, listing. fold target.
  rewrite (unique_loop_scan 5) by (unfold max_pages; simpl; lia).
  destruct (scan_page_scanned self target
              (listing_from lower W 1 5) [] [])
    as (scanned & rest & Hl & Hscan & Hpre & Hrest).
  exists scanned, rest. simpl in *. rewrite Hscan. auto.
Qed.

Lemma scanned_within_quota self (target : Z) scanned :
  (∀ pre x post, scanned = pre ++ x :: post →
     len (filter (unseen self) pre) < target) →
  len (filter (unseen self) scanned) ≤ Z.max 0 target.
Proof.
  intros Hpre. destruct scanned as [|y l _] using rev_ind; simpl; [lia|].
  specialize (Hpre l y [] eq_refl).
  rewrite filter_app, length_app.
  assert (length (filter (unseen self) [y]) ≤ 1)%nat
    by apply (length_filter (unseen self) [y]).
  lia.
Qed.

Lemma listing_all_empty :
  (∀ page, 1 ≤ page ≤ max_pages → fetch page = []) →
  listing lower W = [].
Proof.
  intros H. unfold listing, listing_from, max_pages in *. simpl.
  rewrite !H by lia. reflexivity.
Qed.

(** Pages that yield nothing contribute nothing to the crawl. *)
Lemma listing_from_skip (j : nat) : ∀ (p : Z) (n : nat),
  (∀ page, p ≤ page < p + Z.of_nat j → fetch page = []) →
  listing_from lower W p (j + n) = listing_from lower W (p + Z.of_nat j) n.
Proof.
  induction j as [|j IH]; intros p n Hempty.
  - by rewrite Z.add_0_r.
  - cbn [Nat.add]. rewrite listing_from_S, Hempty by lia. cbn [app].
    rewrite IH by (intros page Hp; apply Hempty; lia).
    f_equal. lia.
Qed.

Lemma seen_by_id self x y :
  news_id x = news_id y → unseen self x → unseen self y.
Proof. unfold unseen. by intros ->. Qed.

Lemma occurrences_unseen self i l :
  (∀ y, news_id y = i → unseen self y) →
  occurrences i (filter (unseen self) l) = occurrences i l.
Proof.
  intros Hi. unfold occurrences.
  induction l as [|y l IH]; [reflexivity|].
  destruct (decide (news_id y = i)) as [Hy|Hy].
  - rewrite (filter_cons_True (unseen self)) by auto.
    rewrite !(filter_cons_True (λ x, news_id x = i)) by done.
    simpl. by rewrite IH.
  - rewrite (filter_cons_False (λ x, news_id x = i) y l) by done.
    destruct (decide (unseen self y)).
    + rewrite (filter_cons_True (unseen self)) by done.
      by rewrite filter_cons_False.
    + by rewrite (filter_cons_False (unseen self)).
Qed.

End QuotaProperties.

(** C2. With enough iterations allowed the collector returns a pair
    [(new, dup)] made from a prefix [scanned] of the records of pages 1 to
    5 taken in page order: [new] holds the scanned records whose
    identifier is not in the history set and [dup] those whose identifier
    is in it, each in order; every scanned record was met while [new] was
    still below the target, records are left unscanned only once [new] has
    reached the target, and [new] never holds more than the target. *)
Theorem quota_collector_partitions :
  ∀ (lower : str → str) (W : World) (fuel : nat) (self : Scraper)
    (count : option Z),
    (5 ≤ fuel)%nat →
    let target := default (news_count (config self)) count in
    ∃ scanned rest new dup,
      get_unique_news lower W fuel self count = Some (self, (new, dup)) ∧
      listing lower W = scanned ++ rest ∧
      new = filter (unseen self) scanned ∧
      dup = filter (seen self) scanned ∧
      (∀ pre x post, scanned = pre ++ x :: post →
         Z.of_nat (length (filter (unseen self) pre)) < target) ∧
      (rest ≠ [] → target ≤ Z.of_nat (length new)) ∧
      Z.of_nat (length new) ≤ Z.max 0 target.
Proof.
  intros lower W fuel self count Hf target.
  destruct (get_unique_news_scanned lower W fuel self count Hf)
    as (scanned & rest & Hl & Hres & Hpre & Hrest).
  exists scanned, rest, (filter (unseen self) scanned),
         (filter (seen self) scanned).
  repeat split; try done.
  by apply scanned_within_quota.
Qed.

Lemma quota_collector_partitions_witness :
  ∃ scanned rest new dup,
    get_unique_news (λ s, s) (site [article_A; article_B]) 5 scraper_seen_A
                    (Some 1)
    = Some (scraper_seen_A, (new, dup)) ∧
    listing (λ s, s) (site [article_A; article_B]) = scanned ++ rest ∧
    new = filter (unseen scraper_seen_A) scanned ∧
    dup = filter (seen scraper_seen_A) scanned ∧
    (∀ pre x post, scanned = pre ++ x :: post →
       Z.of_nat (length (filter (unseen scraper_seen_A) pre)) < 1) ∧
    (rest ≠ [] → 1 ≤ Z.of_nat (length new)) ∧
    Z.of_nat (length new) ≤ Z.max 0 1.
Proof.
  apply (quota_collector_partitions (λ s, s) (site [article_A; article_B])
           5 scraper_seen_A (Some 1)).
  lia.
Defined.


(** C8. Pages that yield nothing are passed over: when the pages before
    page [k] are empty, the collector goes on to page [k] and returns the
    partition of a prefix of the records of pages [k] to 5, so that with a
    positive target the first record of page [k] always ends in one of the
    two lists; and when the five pages are all empty it returns normally
    with both lists empty, whatever the target. *)
Theorem empty_pages_are_skipped :
  ∀ (lower : str → str) (W : World) (fuel : nat) (self : Scraper)
    (count : option Z),
    (5 ≤ fuel)%nat →
    let target := default (news_count (config self)) count in
    (∀ k : nat,
       (1 ≤ k ≤ Z.to_nat max_pages)%nat →
       (∀ page, 1 ≤ page < Z.of_nat k →
                fetch_gaming_news lower W page = []) →
       ∃ scanned rest new dup,
         get_unique_news lower W fuel self count = Some (self, (new, dup)) ∧
         listing_from lower W (Z.of_nat k) (Z.to_nat max_pages + 1 - k)
         = scanned ++ rest ∧
         new = filter (unseen self) scanned ∧
         dup = filter (seen self) scanned ∧
         (rest ≠ [] → target ≤ Z.of_nat (length new)) ∧
         (0 < target →
          ∀ x r, fetch_gaming_news lower W (Z.of_nat k) = x :: r →
                 x ∈ new ∨ x ∈ dup)) ∧
    ((∀ page, 1 ≤ page ≤ max_pages → fetch_gaming_news lower W page = []) →
     get_unique_news lower W fuel self count = Some (self, ([], []))).
Proof.
  intros lower W fuel self count Hf target.
  destruct (get_unique_news_scanned lower W fuel self count Hf)
    as (scanned & rest & Hl & Hres & Hpre & Hrest).
  split.
  - intros k Hk Hempty.
    assert (Hskip : listing lower W
                    = listing_from lower W (Z.of_nat k)
                        (Z.to_nat max_pages + 1 - k)).
    { unfold listing.
      replace (Z.to_nat max_pages)
        with ((k - 1) + (Z.to_nat max_pages + 1 - k))%nat at 1 by lia.
      rewrite listing_from_skip by (intros page Hp; apply Hempty; lia).
      f_equal. lia. }
    exists scanned, rest, (filter (unseen self) scanned),
           (filter (seen self) scanned).
    split; [exact Hres|]. split; [by rewrite <- Hskip|].
    split; [done|]. split; [done|]. split; [exact Hrest|].
    intros Hpos x r Hfetch.
    assert (Hhead : ∃ l, scanned ++ rest = x :: l).
    { rewrite <- Hl, Hskip.
      replace (Z.to_nat max_pages + 1 - k)%nat
        with (S (Z.to_nat max_pages - k)) by lia.
      rewrite listing_from_S, Hfetch. eauto. }
    destruct Hhead as [l Hhead].
    destruct scanned as [|y scanned'].
    + exfalso. cbn [app] in Hhead.
      assert (Hne : rest ≠ []) by (rewrite Hhead; discriminate).
      specialize (Hrest Hne). cbn in Hrest. fold target in Hrest. lia.
    + cbn [app] in Hhead. injection Hhead as -> _.
      destruct (decide (seen self x)) as [Hs|Hs].
      * right. apply list_elem_of_filter. split; [done|left].
      * left. apply list_elem_of_filter. split; [done|left].
  - intros Hempty. rewrite listing_all_empty in Hl by done.
    symmetry in Hl. apply app_eq_nil in Hl as [-> ->]. exact Hres.
Qed.

Example late_site_pages :
  fetch_gaming_news (λ s, s) (late_site [article_A]) 1 = [] ∧
  fetch_gaming_news (λ s, s) (late_site [article_A]) 2 = [item_A].
Proof. split; vm_compute; reflexivity. Qed.

Lemma empty_pages_are_skipped_witness :
  ∃ scanned rest new dup,
    get_unique_news (λ s, s) (late_site [article_A]) 5 fresh_scraper (Some 3)
    = Some (fresh_scraper, (new, dup)) ∧
    listing_from (λ s, s) (late_site [article_A]) 2 4 = scanned ++ rest ∧
    new = filter (unseen fresh_scraper) scanned ∧
    dup = filter (seen fresh_scraper) scanned ∧
    (rest ≠ [] → 3 ≤ Z.of_nat (length new)) ∧
    (0 < 3 →
     ∀ x r, fetch_gaming_news (λ s, s) (late_site [article_A]) 2 = x :: r →
            x ∈ new ∨ x ∈ dup).
Proof.
  apply (proj1 (empty_pages_are_skipped (λ s, s) (late_site [article_A])
                  5 fresh_scraper (Some 3) ltac:(lia)) 2%nat).
  - change (Z.to_nat max_pages) with 5%nat. lia.
  - intros page Hp. assert (page = 1) as -> by lia.
    exact (proj1 late_site_pages).
Defined.

(** Five empty pages with target 3, and an empty first page followed by a
    page with one record. *)
Example empty_crawl_and_late_page :
  get_unique_news (λ s, s) offline 5 fresh_scraper (Some 3)
  = Some (fresh_scraper, ([], [])) ∧
  get_unique_news (λ s, s) (late_site [article_A]) 5 fresh_scraper (Some 3)
  = Some (fresh_scraper, ([item_A], [])).
Proof. split; vm_compute; reflexivity. Qed.

(** Enrichment never touches the identifier. *)
Lemma detail_summary_news_id soup selectors item :
  news_id (fst (detail_summary soup selectors item)) = news_id item.
Proof.
  induction selectors as [|s r IH]; simpl; [reflexivity|].
  destruct (soup_select_one soup s); [|exact IH].
  case_bool_decide; reflexivity.
Qed.

Lemma detail_image_news_id soup selectors item :
  news_id (fst (detail_image soup selectors item)) = news_id item.
Proof.
  induction selectors as [|s r IH]; simpl; [reflexivity|].
  destruct (soup_select_one soup s) as [main_image|]; [|exact IH].
  unfold bind. case_bool_decide; simpl; [reflexivity|].
  destruct (attr (tag_attrs main_image) (pystr "data-src"));
    [reflexivity|].
  destruct (attr (tag_attrs main_image) (pystr "src")); reflexivity.
Qed.

Lemma fetch_article_details_news_id (W : World) (item : NewsItem) :
  news_id (fetch_article_details W item) = news_id item.
Proof.
  unfold fetch_article_details.
  destruct (negb (truthy (link item))); [reflexivity|].
  cbv [enrich_body bind lift get_state ret].
  destruct (session_get W (link item)) as [response|e1]; [|reflexivity].
  destruct (raise_for_status response) as [[]|e2]; [|reflexivity].
  destruct (write_debug W (debug_article item) (text response))
    as [[]|e3]; [|reflexivity].
  destruct (parse_html W (text response)) as [soup|e4]; [|reflexivity].
  pose proof (detail_summary_news_id soup detail_summary_selectors item)
    as Hid.
  pose proof (detail_summary_returns soup detail_summary_selectors item)
    as Hs.
  destruct (detail_summary soup detail_summary_selectors item)
    as [item1 r1]. cbn [fst snd] in Hid, Hs. subst r1.
  destruct (negb (truthy_opt (image_url item1))); [|exact Hid].
  by rewrite detail_image_news_id.
Qed.

(** The identifiers of the collected records reach the history in the
    loop that enriches them, after the collection has returned. *)
Lemma enrich_and_record_inserts (set_order : list str → list str)
    (W : World) (new_news : list NewsItem) :
  (∀ l, set_order l ≡ₚ l) →
  ∀ (self : Scraper) (x : str),
    x ∈ news_ids (history (fst (enrich_and_record set_order W self new_news)))
    ↔ x ∈ news_ids (history self) ∨ x ∈ news_id <$> new_news.
Proof.
  intros Hperm. induction new_news as [|item rest IH]; intros self x.
  - simpl. rewrite elem_of_nil. tauto.
  - cbn [enrich_and_record].
    set (self' := if negb _ then _ else self).
    specialize (IH self' x).
    destruct (enrich_and_record set_order W self' rest) as [self'' dn].
    cbn [fst] in *. rewrite IH, fmap_cons, elem_of_cons.
    enough (x ∈ news_ids (history self')
            ↔ x ∈ news_ids (history self) ∨ x = news_id item) by tauto.
    unfold self', is_duplicate, add_item, set_in.
    rewrite fetch_article_details_news_id.
    case_bool_decide as Hin; cbn [negb history news_ids].
    + split; [tauto|]. intros [?| ->]; done.
    + unfold set_of_list.
      rewrite Hperm, elem_of_remove_dups, elem_of_app,
        list_elem_of_singleton.
      tauto.
Qed.

(** C9, as stated, fails: the unseen article A is listed twice on the
    first page and the target is 1; the page is crawled, and only the
    first occurrence reaches the new list. *)
Lemma repeat_beyond_quota_is_dropped :
  ∃ new dup,
    get_unique_news (λ s, s) (site [article_A; article_A]) 5 fresh_scraper
                    (Some 1)
    = Some (fresh_scraper, (new, dup)) ∧
    unseen fresh_scraper item_A ∧
    occurrences (news_id item_A)
      (fetch_gaming_news (λ s, s) (site [article_A; article_A]) 1) = 2%nat ∧
    occurrences (news_id item_A) new = 1%nat.
Proof.
  exists [item_A], []. split; [vm_compute; reflexivity|].
  split; [apply not_elem_of_nil|].
  split; vm_compute; reflexivity.
Qed.

(** C9, amended.  The collector returns the scraper with its history as
    it was loaded, and it does not deduplicate within a run: for an
    article whose id is not in the history, the new list holds as many
    occurrences as the scanned part of the crawl does, and the scanned
    part is the whole crawl of pages 1 to 5 whenever the new list ends
    below the target. *)
Theorem collection_keeps_history_and_repeats :
  ∀ (lower : str → str) (W : World) (fuel : nat) (self : Scraper)
    (count : option Z),
    (5 ≤ fuel)%nat →
    ∃ self' scanned rest new dup,
      get_unique_news lower W fuel self count = Some (self', (new, dup)) ∧
      history self' = history self ∧
      listing lower W = scanned ++ rest ∧
      (∀ x, unseen self x →
         occurrences (news_id x) new = occurrences (news_id x) scanned) ∧
      (Z.of_nat (length new) < default (news_count (config self)) count →
       rest = []).
Proof.
  intros lower W fuel self count Hf.
  destruct (get_unique_news_scanned lower W fuel self count Hf)
    as (scanned & rest & Hl & Hres & Hpre & Hrest).
  exists self, scanned, rest, (filter (unseen self) scanned),
         (filter (seen self) scanned).
  repeat split; try done.
  - intros x Hx. apply occurrences_unseen.
    intros y Hy. by apply (seen_by_id self x).
  - intros Hlt. destruct rest as [|y rest]; [reflexivity|].
    assert (Hne : y :: rest ≠ []) by discriminate.
    specialize (Hrest Hne). lia.
Qed.

Lemma collection_keeps_history_and_repeats_witness :
  ∃ self' scanned rest new dup,
    get_unique_news (λ s, s) (site [article_A; article_A]) 5 fresh_scraper
                    (Some 5)
    = Some (self', (new, dup)) ∧
    history self' = history fresh_scraper ∧
    listing (λ s, s) (site [article_A; article_A]) = scanned ++ rest ∧
    (∀ x, unseen fresh_scraper x →
       occurrences (news_id x) new = occurrences (news_id x) scanned) ∧
    (Z.of_nat (length new)
       < default (news_count (config fresh_scraper)) (Some 5) →
     rest = []).
Proof.
  apply (collection_keeps_history_and_repeats
           (λ s, s) (site [article_A; article_A]) 5 fresh_scraper (Some 5)).
  lia.
Defined.

(** With a target the listing cannot fill, both occurrences are kept. *)
Example repeats_are_kept :
  get_unique_news (λ s, s) (site [article_A; article_A]) 5 fresh_scraper
                  (Some 5)
  = Some (fresh_scraper, ([item_A; item_A], [])).
Proof. vm_compute. reflexivity. Qed.

(** ** Names *)

Lemma pystr_inj s1 s2 : pystr s1 = pystr s2 → s1 = s2.
Proof.
  unfold pystr. intros H.
  rewrite <- (string_of_list_ascii_of_string s1),
          <- (string_of_list_ascii_of_string s2).
  f_equal. revert H.
  generalize (list_ascii_of_string s1) (list_ascii_of_string s2).
  induction l as [|a l IH]; intros [|b l'] H; simpl in H;
    try discriminate; [reflexivity|].
  injection H as Hab Hl. f_equal; [|by apply IH].
  apply N2Z.inj in Hab.
  rewrite <- (ascii_N_embedding a), <- (ascii_N_embedding b).
  by rewrite Hab.
Qed.

Lemma str_of_nat_inj n m : str_of_nat n = str_of_nat m → n = m.
Proof.
  unfold str_of_nat. intros H%pystr_inj.
  assert (Hu : Nat.to_uint n = Nat.to_uint m).
  { apply (f_equal NilEmpty.uint_of_string) in H.
    rewrite !NilEmpty.usu in H. by injection H. }
  apply (f_equal Nat.of_uint) in Hu.
  by rewrite !DecimalNat.Unsigned.of_to in Hu.
Qed.

Lemma versioned_inj date_str v v' :
  versioned date_str v = versioned date_str v' → v = v'.
Proof.
  unfold versioned. intros H. apply app_inv_head in H.
  apply app_inv_head in H. by apply str_of_nat_inj.
Qed.

Lemma noticia_inj i j : noticia i = noticia j → i = j.
Proof.
  unfold noticia. intros H. apply app_inv_head in H.
  apply str_of_nat_inj in H. lia.
Qed.

Lemma noticia_head i : ∃ r, noticia i = 110 :: 111 :: r.
Proof. unfold noticia. eexists. reflexivity. Qed.

Lemma noticia_not_news_json i : noticia i ≠ news_json.
Proof. destruct (noticia_head i) as [r ->]. discriminate. Qed.

Lemma noticia_not_all_captions i : noticia i ≠ all_captions_txt.
Proof. destruct (noticia_head i) as [r ->]. discriminate. Qed.

Lemma image_name_head lower strip item url :
  ∃ r, image_name lower strip item url = 105 :: r.
Proof. unfold image_name. eexists. reflexivity. Qed.

Lemma child_inj p q a b : child p a = child q b → p = q ∧ a = b.
Proof.
  unfold child. intros H. apply app_inj_tail in H. tauto.
Qed.

Lemma child_ne_self p a : child p a ≠ p.
Proof.
  unfold child. intros H. apply (f_equal length) in H.
  rewrite length_app in H. simpl in H. lia.
Qed.

(** ** Directory allocation *)

Lemma path_exists_true (fs : FS) (p : Path) : path_exists fs p = true ↔ is_Some (fs !! p).
Proof. unfold path_exists. apply bool_decide_eq_true. Qed.

Lemma path_exists_false (fs : FS) (p : Path) : path_exists fs p = false ↔ fs !! p = None.
Proof.
  unfold path_exists. rewrite bool_decide_eq_false, eq_None_not_Some. tauto.
Qed.

(** The probing loop gives up only when every candidate it could try is
    taken. *)
Lemma probe_dir_None (fuel : nat) :
  ∀ (fs : FS) (date_str : str) (version : nat) (date_dir : Path),
  probe_dir fuel fs date_str version date_dir = None →
  ∀ u, (version ≤ u < version + fuel)%nat →
       is_Some (fs !! child CONTENT_DIR (versioned date_str u)).
Proof.
  induction fuel as [|fuel IH]; intros fs date_str version date_dir H u Hu;
    [lia|].
  simpl in H. destruct (path_exists fs date_dir) eqn:He; [|discriminate].
  destruct fuel as [|fuel'].
  - assert (u = version) as -> by lia.
    simpl in H.
    destruct (path_exists fs (child CONTENT_DIR (versioned date_str version)))
      eqn:He'; [|discriminate].
    by apply path_exists_true.
  - destruct (decide (u = version)) as [->|Hne].
    + simpl in H.
      destruct (path_exists fs
                  (child CONTENT_DIR (versioned date_str version)))
        eqn:He'; [|discriminate].
      by apply path_exists_true.
    + eapply (IH fs date_str (S version)); [exact H|lia].
Qed.

(** More distinct candidates than entries: one of them is free. *)
Lemma candidates_exhaust (fs : FS) (date_str : str) (version fuel : nat) :
  (∀ u, (version ≤ u < version + fuel)%nat →
        is_Some (fs !! child CONTENT_DIR (versioned date_str u))) →
  (fuel ≤ size fs)%nat.
Proof.
  intros Hall.
  set (l := (λ u, child CONTENT_DIR (versioned date_str u))
              <$> seq version fuel).
  assert (Hnd : NoDup l).
  { apply NoDup_fmap_2_strong; [|apply NoDup_seq].
    intros u v _ _ H. apply child_inj in H as [_ H].
    by apply versioned_inj in H. }
  assert (Hsub : list_to_set (C := gset (list (list Z))) l ⊆ dom fs).
  { intros p Hp. apply elem_of_list_to_set in Hp.
    apply list_elem_of_fmap in Hp as (u & -> & Hu).
    apply elem_of_dom, Hall. apply elem_of_seq in Hu. lia. }
  apply subseteq_size in Hsub.
  rewrite size_list_to_set, size_dom in Hsub by done.
  unfold l in Hsub. by rewrite length_fmap, length_seq in Hsub.
Qed.

(** What the probing loop returns is free, and it is the first free
    candidate in the order tried. *)
Lemma probe_dir_Some (fuel : nat) :
  ∀ (fs : FS) (date_str : str) (version : nat) (date_dir d : Path),
  probe_dir fuel fs date_str version date_dir = Some d →
  fs !! d = None ∧
  (d = date_dir ∨
   ∃ v, (version ≤ v)%nat ∧
        d = child CONTENT_DIR (versioned date_str v) ∧
        is_Some (fs !! date_dir) ∧
        ∀ u, (version ≤ u < v)%nat →
             is_Some (fs !! child CONTENT_DIR (versioned date_str u))).
Proof.
  induction fuel as [|fuel IH]; intros fs date_str version date_dir d H;
    simpl in H; destruct (path_exists fs date_dir) eqn:He;
    try discriminate.
  - injection H as <-. apply path_exists_false in He. auto.
  - apply IH in H as [Hfree Hcases]. split; [done|]. right.
    apply path_exists_true in He.
    destruct Hcases as [->|(v & Hv & -> & Hex & Hbelow)].
    + exists version. repeat split; try done. intros u Hu. lia.
    + exists v. repeat split; try done; [lia|].
      intros u Hu. destruct (decide (u = version)) as [->|]; [done|].
      apply Hbelow. lia.
  - injection H as <-. apply path_exists_false in He. auto.
Qed.

Lemma allocate_dir_total (fuel : nat) (fs : FS) (date_str : str) :
  (size fs < fuel)%nat → is_Some (allocate_dir fuel fs date_str).
Proof.
  intros Hf. unfold allocate_dir.
  destruct (probe_dir fuel fs date_str 1 (child CONTENT_DIR date_str))
    eqn:H; [eauto|].
  pose proof (probe_dir_None _ _ _ _ _ H) as Hall.
  apply candidates_exhaust in Hall. lia.
Qed.

(** ** File-system primitives *)

Lemma fresh_below (fs : FS) (d : Path) :
  fs_wf fs → d ≠ [] → fs !! d = None → ∀ q, fs !! (d ++ q) = None.
Proof.
  intros Hwf Hd Hfree q. induction q as [|x q IH] using rev_ind.
  - by rewrite app_nil_r.
  - apply eq_None_not_Some. intros Hsome.
    rewrite app_assoc in Hsome. apply Hwf in Hsome.
    assert (Hne : d ++ q ≠ []) by (destruct d; [done|discriminate]).
    assert (Hno : None = Some Dir :> option Node)
      by (rewrite <- IH; exact (Hsome Hne)).
    discriminate.
Qed.

Lemma fs_wf_insert (fs : FS) (p : Path) (n : Node) :
  fs_wf fs →
  (∀ q name, p = child q name → q ≠ [] → fs !! q = Some Dir) →
  (n = Dir ∨ fs !! p ≠ Some Dir) →
  fs_wf (<[p := n]> fs).
Proof.
  intros Hwf Hparent Hnode q name Hsome Hq.
  assert (Hdir : fs !! q = Some Dir).
  { destruct (decide (p = child q name)) as [->|Hne].
    - by apply (Hparent q name).
    - rewrite lookup_insert_ne in Hsome by done. by apply (Hwf q name). }
  destruct (decide (p = q)) as [->|Hne].
  - rewrite lookup_insert_eq. destruct Hnode as [->|Hnd]; [done|congruence].
  - by rewrite lookup_insert_ne.
Qed.

Lemma removelast_child (p : Path) (name : str) :
  removelast (child p name) = p.
Proof. unfold child. apply removelast_last. Qed.

Lemma parent_is_dir_child (fs : FS) (p : Path) (name : str) :
  parent_is_dir fs (child p name) = true ↔ (p = [] ∨ fs !! p = Some Dir).
Proof.
  unfold parent_is_dir. rewrite removelast_child.
  destruct p as [|a p]; [tauto|].
  destruct (fs !! (a :: p)) as [[|c]|].
  - split; auto.
  - split; [discriminate|intros [?|?]; discriminate].
  - split; [discriminate|intros [?|?]; discriminate].
Qed.

Lemma write_file_ok (fs : FS) (d : Path) (name : str) (c : Content) :
  fs !! d = Some Dir → fs !! child d name ≠ Some Dir →
  write_file (child d name) c fs = (<[child d name := File c]> fs, Ok tt).
Proof.
  intros Hd Hp. unfold write_file.
  assert (Hpar : parent_is_dir fs (child d name) = true)
    by (apply parent_is_dir_child; auto).
  rewrite Hpar. by destruct (fs !! child d name) as [[|c']|].
Qed.

(** ** Encoding *)

Lemma encodable_app (a b : str) :
  encodable (a ++ b) = encodable a && encodable b.
Proof. apply forallb_app. Qed.

Lemma encodable_pystr (s : string) : encodable (pystr s) = true.
Proof.
  unfold encodable, pystr. apply forallb_forall. intros c Hc.
  apply in_map_iff in Hc as (a & <- & _).
  pose proof (N_ascii_bounded a) as Ha. unfold scalar_value.
  destruct (Z.leb_spec 0 (Z.of_N (N_of_ascii a))); [|lia].
  destruct (Z.ltb_spec (Z.of_N (N_of_ascii a)) 0xD800); [done|lia].
Qed.

Lemma encodable_str_of_nat (n : nat) : encodable (str_of_nat n) = true.
Proof. apply encodable_pystr. Qed.

Lemma encodable_take (n : nat) (s : str) :
  encodable s = true → encodable (take n s) = true.
Proof.
  unfold encodable. rewrite !forallb_forall. intros H c Hc.
  apply H, list_elem_of_In. apply list_elem_of_In in Hc.
  eapply elem_of_sublist; [exact Hc|apply sublist_take].
Qed.

Lemma written_all (chunks : list str) :
  forallb encodable chunks = true → written chunks = chunks.
Proof.
  induction chunks as [|c r IH]; [done|]. cbn [forallb written].
  intros [-> Hr]%andb_prop. by rewrite IH.
Qed.

Lemma write_text_ok (fs : FS) (d : Path) (name : str) (chunks : list str) :
  fs !! d = Some Dir → fs !! child d name ≠ Some Dir →
  forallb encodable chunks = true →
  write_text (child d name) chunks fs
  = (<[child d name := File (Text (concat chunks))]> fs, Ok tt).
Proof.
  intros Hd Hp Hok. unfold write_text. cbv [bind lift].
  rewrite write_file_ok by done. by rewrite Hok, written_all.
Qed.

Lemma write_text_fail (fs : FS) (d : Path) (name : str)
    (chunks : list str) :
  fs !! d = Some Dir → fs !! child d name ≠ Some Dir →
  forallb encodable chunks = false →
  write_text (child d name) chunks fs
  = (<[child d name := File (Text (concat (written chunks)))]> fs,
     Raise UnicodeEncodeError).
Proof.
  intros Hd Hp Hok. unfold write_text. cbv [bind lift].
  rewrite write_file_ok by done. by rewrite Hok.
Qed.

Lemma write_json_ok (fs : FS) (d : Path) (name : str)
    (items : list NewsItem) :
  fs !! d = Some Dir → fs !! child d name ≠ Some Dir →
  json_encodable items = true →
  write_json (child d name) items fs
  = (<[child d name := File (Json items)]> fs, Ok tt).
Proof.
  intros Hd Hp Hok. unfold write_json. cbv [bind lift].
  rewrite write_file_ok by done. by rewrite Hok.
Qed.

Lemma write_json_fail (fs : FS) (d : Path) (name : str)
    (items : list NewsItem) :
  fs !! d = Some Dir → fs !! child d name ≠ Some Dir →
  json_encodable items = false →
  write_json (child d name) items fs
  = (<[child d name := File (JsonCut items)]> fs, Raise UnicodeEncodeError).
Proof.
  intros Hd Hp Hok. unfold write_json. cbv [bind lift].
  rewrite write_file_ok by done. by rewrite Hok.
Qed.

Lemma concat_singleton (s : str) : concat [s] = s.
Proof. cbn. apply app_nil_r. Qed.

Lemma concat_description_chunks (cfg : Config) (item : NewsItem) :
  concat (description_chunks cfg item) = description_text cfg item.
Proof.
  unfold description_chunks, description_text. cbn [concat].
  by rewrite app_nil_r.
Qed.

Lemma concat_caption_entries (caps : list str) : ∀ i : nat,
  concat (caption_entries i caps)
  = concat (imap (λ k caption, caption_block (S (i + k)) caption) caps).
Proof.
  induction caps as [|c caps IH]; intros i; [done|].
  cbn [caption_entries imap concat]. rewrite IH. f_equal.
  - unfold caption_block. by rewrite Nat.add_0_r, Nat.add_1_r.
  - f_equal. apply imap_ext. intros k x _. cbn. f_equal. lia.
Qed.

Lemma captions_listing_written (caps : list str) :
  concat (caption_entries 0 caps) = captions_listing caps.
Proof. apply concat_caption_entries. Qed.

Lemma caption_entries_encodable (caps : list str) : ∀ i : nat,
  forallb encodable (caption_entries i caps) = forallb encodable caps.
Proof.
  induction caps as [|c caps IH]; intros i; [done|].
  cbn [caption_entries forallb]. rewrite IH. f_equal.
  rewrite !encodable_app, !encodable_pystr, encodable_str_of_nat.
  cbn [andb]. change (encodable nl) with true.
  by rewrite !andb_true_r.
Qed.

Lemma json_encodable_fields (items : list NewsItem) (item : NewsItem) :
  json_encodable items = true → item ∈ items →
  encodable (title item) = true ∧ encodable (summary item) = true.
Proof.
  unfold json_encodable. rewrite forallb_forall. intros H Hin.
  apply list_elem_of_In in Hin. specialize (H item Hin).
  unfold item_strings in H. cbn [app forallb] in H.
  apply andb_prop in H as [Ht H]. apply andb_prop in H as [Hs _]. done.
Qed.

Lemma format_description_encodable (cfg : Config) (item : NewsItem) :
  encodable (summary item) = true →
  encodable (format_description cfg item) = true.
Proof.
  intros Hs. unfold format_description.
  assert (Hcut : encodable (slice_to (description_length cfg) (summary item))
                 = true) by (unfold slice_to; by apply encodable_take).
  destruct (description_length cfg <? Z.of_nat (length (summary item)));
    [|done].
  by rewrite encodable_app, Hcut, encodable_pystr.
Qed.

Lemma description_chunks_encodable (cfg : Config) (item : NewsItem) :
  encodable (title item) = true → encodable (summary item) = true →
  forallb encodable (description_chunks cfg item) = true.
Proof.
  intros Ht Hs. unfold description_chunks. cbn [forallb].
  rewrite !encodable_app, Ht, format_description_encodable by done.
  reflexivity.
Qed.

Lemma bundles_encodable_texts (cfg : Config) (items : list NewsItem) :
  ∀ caps : list str,
    json_encodable items = true → forallb encodable caps = true →
    bundles_encodable cfg items caps = true.
Proof.
  induction items as [|item items IH]; intros caps Hj Hc; [done|].
  destruct caps as [|cap caps]; [done|].
  cbn [bundles_encodable forallb] in *.
  apply andb_prop in Hc as [-> Hc].
  destruct (json_encodable_fields (item :: items) item Hj) as [Ht Hs];
    [apply list_elem_of_here|].
  rewrite description_chunks_encodable by done.
  apply IH; [|done]. unfold json_encodable in *. cbn [forallb] in Hj.
  by apply andb_prop in Hj as [_ Hj].
Qed.

(** A run goes through exactly when the fields of the records and the
    captions can all be encoded. *)
Lemma run_encodable_texts (cfg : Config) (items : list NewsItem)
    (caps : list str) :
  run_encodable cfg items caps = texts_encodable items caps.
Proof.
  unfold run_encodable, texts_encodable.
  rewrite caption_entries_encodable.
  destruct (json_encodable items) eqn:Hj; [|done].
  destruct (forallb encodable caps) eqn:Hc; [|by rewrite andb_false_r].
  by rewrite bundles_encodable_texts.
Qed.

Lemma bind_Ok {A B : Type} (m : Eff FS A) (k : A → Eff FS B)
    (fs fs' : FS) (a : A) :
  m fs = (fs', Ok a) → bind m k fs = k a fs'.
Proof. intros H. unfold bind. by rewrite H. Qed.

Lemma bind_Raise {A B : Type} (m : Eff FS A) (k : A → Eff FS B)
    (fs fs' : FS) (e : exn) :
  m fs = (fs', Raise e) → bind m k fs = (fs', Raise e).
Proof. intros H. unfold bind. by rewrite H. Qed.

Lemma mkdir_from_new (rest : Path) : ∀ (made : Path) (fs : FS) (name : str),
  (∀ k, (1 ≤ k ≤ length rest)%nat → fs !! (made ++ take k rest) = Some Dir) →
  fs !! (made ++ rest ++ [name]) = None →
  mkdir_from made (rest ++ [name]) fs
  = (<[made ++ rest ++ [name] := Dir]> fs, Ok tt).
Proof.
  induction rest as [|a rest IH]; intros made fs name Hdirs Hfree; simpl.
  - unfold child. simpl in Hfree. by rewrite Hfree.
  - unfold child.
    pose proof (Hdirs 1%nat ltac:(simpl; lia)) as H1. simpl in H1.
    rewrite take_0 in H1. rewrite H1.
    rewrite IH.
    + by rewrite <- app_assoc.
    + intros k Hk. rewrite <- app_assoc. simpl.
      apply (Hdirs (S k)). simpl. lia.
    + by rewrite <- app_assoc.
Qed.

Lemma mkdir_p_child (fs : FS) (p : Path) (name : str) :
  dirs_to fs p → fs !! child p name = None →
  mkdir_p (child p name) fs = (<[child p name := Dir]> fs, Ok tt).
Proof.
  intros Hd Hfree. unfold mkdir_p, child.
  by rewrite (mkdir_from_new p [] fs name).
Qed.

Lemma dirs_to_child (fs : FS) (p : Path) (name : str) :
  dirs_to fs p → fs !! child p name = Some Dir → dirs_to fs (child p name).
Proof.
  intros Hp Hc k Hk. unfold child in *. rewrite length_app in Hk.
  simpl in Hk. destruct (decide (k ≤ length p)%nat).
  - rewrite take_app_le by done. apply Hp. lia.
  - rewrite take_ge by (rewrite length_app; simpl; lia). done.
Qed.

(** ** Well-formedness is kept by every write *)

Lemma wf_ret {A : Type} (a : A) : wf_preserving (ret a).
Proof. by intros fs H. Qed.

Lemma wf_lift {A : Type} (r : result A) : wf_preserving (lift r).
Proof. by intros fs H. Qed.

Lemma wf_bind {A B : Type} (m : Eff FS A) (k : A → Eff FS B) :
  wf_preserving m → (∀ a, wf_preserving (k a)) → wf_preserving (bind m k).
Proof.
  intros Hm Hk fs Hwf. unfold bind. specialize (Hm fs Hwf).
  destruct (m fs) as [fs' [a|e]]; simpl in *; [by apply Hk|done].
Qed.

Lemma wf_catch {A : Type} (m : Eff FS A) (a : A) :
  wf_preserving m → wf_preserving (catch m a).
Proof.
  intros Hm fs Hwf. unfold catch. specialize (Hm fs Hwf).
  by destruct (m fs) as [fs' [x|e]].
Qed.

Lemma wf_write_file (p : Path) (c : Content) : wf_preserving (write_file p c).
Proof.
  intros fs Hwf. unfold write_file.
  assert (Hins : fs !! p ≠ Some Dir → parent_is_dir fs p = true →
                 fs_wf (<[p := File c]> fs)).
  { intros Hp Hpar. apply fs_wf_insert; [done| |by right].
    intros q name Heq Hq. subst p.
    apply parent_is_dir_child in Hpar as [Hnil|Hd]; done. }
  destruct (fs !! p) as [[|c']|] eqn:Hp; simpl; try done;
    destruct (parent_is_dir fs p) eqn:Hpar; simpl; try done;
    apply Hins; congruence.
Qed.

Lemma wf_write_text (p : Path) (chunks : list str) :
  wf_preserving (write_text p chunks).
Proof.
  unfold write_text. apply wf_bind; [apply wf_write_file|].
  intros _. apply wf_lift.
Qed.

Lemma wf_write_json (p : Path) (items : list NewsItem) :
  wf_preserving (write_json p items).
Proof.
  unfold write_json. apply wf_bind; [apply wf_write_file|].
  intros _. apply wf_lift.
Qed.

Lemma wf_mkdir_from (rest : Path) : ∀ (made : Path) (fs : FS),
  fs_wf fs → (made = [] ∨ fs !! made = Some Dir) →
  fs_wf (fst (mkdir_from made rest fs)).
Proof.
  induction rest as [|a rest IH]; intros made fs Hwf Hmade; simpl; [done|].
  destruct (fs !! child made a) as [[|c]|] eqn:Hd; simpl; [|done|].
  - apply IH; auto.
  - apply IH.
    + apply fs_wf_insert; [done| |by left].
      intros q name [-> ->]%child_inj Hq. by destruct Hmade.
    + right. apply lookup_insert_eq.
Qed.

Lemma wf_mkdir_p (p : Path) : wf_preserving (mkdir_p p).
Proof. intros fs Hwf. apply wf_mkdir_from; auto. Qed.

(** ** Writes stay below the chosen directory *)

Lemma same_outside_refl (d : Path) (fs : FS) : same_outside d fs fs.
Proof. by intros p _. Qed.

Lemma same_outside_trans (d : Path) (fs1 fs2 fs3 : FS) :
  same_outside d fs1 fs2 → same_outside d fs2 fs3 → same_outside d fs1 fs3.
Proof. intros H12 H23 p Hp. by rewrite H23, H12. Qed.

Lemma same_outside_dirs (d : Path) (fs fs' : FS) :
  same_outside d fs fs' → dirs_to fs d → dirs_to fs' d.
Proof.
  intros Hsame Hd k Hk. rewrite Hsame; [by apply Hd|].
  destruct (decide (k = length d)) as [->|Hne].
  - right. by rewrite firstn_all.
  - left. intros [q Hq]. apply (f_equal length) in Hq.
    rewrite length_take, length_app in Hq. lia.
Qed.

Lemma confined_ret {A : Type} (d : Path) (a : A) : confined d (ret a).
Proof. intros fs _. apply same_outside_refl. Qed.

Lemma confined_lift {A : Type} (d : Path) (r : result A) :
  confined d (lift r).
Proof. intros fs _. apply same_outside_refl. Qed.

Lemma confined_bind {A B : Type} (d : Path) (m : Eff FS A)
    (k : A → Eff FS B) :
  confined d m → (∀ a, confined d (k a)) → confined d (bind m k).
Proof.
  intros Hm Hk fs Hd. specialize (Hm fs Hd). unfold bind.
  destruct (m fs) as [fs' [a|e]]; cbn [fst] in *; [|done].
  eapply same_outside_trans; [exact Hm|].
  apply Hk. by eapply same_outside_dirs.
Qed.

Lemma confined_catch {A : Type} (d : Path) (m : Eff FS A) (a : A) :
  confined d m → confined d (catch m a).
Proof.
  intros Hm fs Hd. specialize (Hm fs Hd). unfold catch.
  by destruct (m fs) as [fs' [x|e]].
Qed.

Lemma confined_write_file (d p : Path) (c : Content) :
  d `prefix_of` p → p ≠ d → confined d (write_file p c).
Proof.
  intros Hpre Hne fs _ q Hq. unfold write_file.
  assert (Hqp : p ≠ q) by (intros <-; by destruct Hq).
  destruct (fs !! p) as [[|c']|]; cbn [fst]; try done;
    destruct (parent_is_dir fs p); cbn [fst]; try done;
    by rewrite lookup_insert_ne.
Qed.

Lemma confined_write_text (d p : Path) (chunks : list str) :
  d `prefix_of` p → p ≠ d → confined d (write_text p chunks).
Proof.
  intros Hpre Hne. unfold write_text.
  apply confined_bind; [by apply confined_write_file|].
  intros _. apply confined_lift.
Qed.

Lemma confined_write_json (d p : Path) (items : list NewsItem) :
  d `prefix_of` p → p ≠ d → confined d (write_json p items).
Proof.
  intros Hpre Hne. unfold write_json.
  apply confined_bind; [by apply confined_write_file|].
  intros _. apply confined_lift.
Qed.

(** [mkdir] touches only the places of the path and its ancestors where
    nothing was. *)
Lemma mkdir_from_same (rest : Path) : ∀ (made : Path) (fs : FS) (p : Path),
  (∀ k, (1 ≤ k ≤ length rest)%nat → p = made ++ take k rest →
        is_Some (fs !! p)) →
  fst (mkdir_from made rest fs) !! p = fs !! p.
Proof.
  induction rest as [|a rest IH]; intros made fs p Hp; [done|].
  cbn [mkdir_from]. unfold child.
  assert (Hnext : ∀ fs' : FS,
            (is_Some (fs !! p) → is_Some (fs' !! p)) →
            ∀ k, (1 ≤ k ≤ length rest)%nat →
                 p = (made ++ [a]) ++ take k rest → is_Some (fs' !! p)).
  { intros fs' Hmono k Hk Heq. apply Hmono, (Hp (S k)); [simpl; lia|].
    by rewrite Heq, <- app_assoc. }
  destruct (fs !! (made ++ [a])) as [[|c]|] eqn:Hd; cbn [fst].
  - apply IH, Hnext. done.
  - done.
  - destruct (decide (p = made ++ [a])) as [->|Hne].
    + destruct (Hp 1%nat) as [n Hn]; [simpl; lia|reflexivity|].
      congruence.
    + rewrite IH; [by rewrite lookup_insert_ne|].
      apply Hnext. intros Hs. by rewrite lookup_insert_ne.
Qed.

Lemma confined_mkdir_p (d p : Path) :
  d `prefix_of` p → confined d (mkdir_p p).
Proof.
  intros [q ->] fs Hd x Hx. unfold mkdir_p. apply mkdir_from_same.
  intros k Hk ->. cbn [app] in *.
  destruct (decide (k ≤ length d)%nat) as [Hle|Hgt].
  - rewrite take_app_le by done. exists Dir. apply Hd.
    rewrite length_app in Hk. destruct Hx as [Hx| Hx]; lia.
  - exfalso. rewrite take_app_ge in Hx by lia.
    destruct Hx as [Hx|Hx].
    + apply Hx. by eexists.
    + apply (f_equal length) in Hx.
      rewrite length_app, length_take in Hx. rewrite length_app in Hk. lia.
Qed.

Lemma prefix_child (d : Path) (a : str) : d `prefix_of` child d a.
Proof. by exists [a]. Qed.

Lemma prefix_child2 (d : Path) (a b : str) :
  d `prefix_of` child (child d a) b.
Proof. exists [a; b]. unfold child. by rewrite <- app_assoc. Qed.

Lemma child2_ne (d : Path) (a b : str) : child (child d a) b ≠ d.
Proof.
  unfold child. intros H. apply (f_equal length) in H.
  rewrite !length_app in H. simpl in H. lia.
Qed.

Lemma confined_download_image (lower : str → str) (W : World)
    (strip : str → str) (item : NewsItem) (d : Path) (a : str) :
  confined d (download_image lower W strip item (child d a)).
Proof.
  unfold download_image.
  destruct (negb (truthy_opt (image_url item))); [apply confined_ret|].
  apply confined_catch, confined_bind; [apply confined_lift|]. intros r.
  apply confined_bind; [apply confined_lift|]. intros _.
  apply confined_bind; [|intros _; apply confined_ret].
  apply confined_write_file; [apply prefix_child2|apply child2_ne].
Qed.

Lemma confined_save_bundles (lower : str → str) (W : World)
    (strip : str → str) (cfg : Config) (d : Path) (items : list NewsItem) :
  ∀ (caps : list str) (i : nat),
    confined d (save_bundles lower W strip cfg d i items caps).
Proof.
  induction items as [|item items IH]; intros caps i; [apply confined_ret|].
  destruct caps as [|cap caps]; [apply confined_ret|]. cbn [save_bundles].
  apply confined_bind; [apply confined_mkdir_p, prefix_child|]. intros _.
  apply confined_bind;
    [apply confined_write_text; [apply prefix_child2|apply child2_ne]|].
  intros _.
  apply confined_bind;
    [apply confined_write_text; [apply prefix_child2|apply child2_ne]|].
  intros _.
  apply confined_bind; [apply confined_download_image|]. intros _. apply IH.
Qed.

(** ** Materialization *)

Lemma prefix_child_inv (d : Path) (a b : str) (q : Path) :
  child d a `prefix_of` (child d b ++ q) → a = b.
Proof.
  unfold child. intros [k Hk]. rewrite <- !app_assoc in Hk.
  apply app_inv_head in Hk. simpl in Hk. by injection Hk.
Qed.

Lemma not_prefix_child_self (d : Path) (a : str) : ¬ child d a `prefix_of` d.
Proof.
  unfold child. intros [k Hk]. apply (f_equal length) in Hk.
  rewrite !length_app in Hk. simpl in Hk. lia.
Qed.

Lemma caption_not_description : caption_txt ≠ description_txt.
Proof. intros H. vm_compute in H. discriminate. Qed.

Lemma news_json_not_all_captions : news_json ≠ all_captions_txt.
Proof. intros H. vm_compute in H. discriminate. Qed.

Section Materializer.

Variable lower strip_unsafe : str → str.
Variable W : World.
Variable cfg : Config.

Local Abbreviation image_of := (bundle_image lower strip_unsafe W).

Lemma bundle_image_name (item : NewsItem) (nm : str) (c : Content) :
  image_of item = Some (nm, c) → nm ≠ caption_txt ∧ nm ≠ description_txt.
Proof.
  unfold bundle_image. intros H.
  destruct (negb (truthy_opt (image_url item))); [discriminate|].
  destruct (session_get W (default [] (image_url item))) as [r|];
    [|discriminate].
  destruct (raise_for_status r); [|discriminate].
  injection H as <- _.
  destruct (image_name_head lower strip_unsafe item
              (default [] (image_url item))) as [t ->].
  split; intros H; vm_compute in H; discriminate.
Qed.

(** The tree [download_image] leaves in a directory where the image name
    is free. *)
Lemma download_image_exact (fs : FS) (nd : Path) (item : NewsItem) :
  fs !! nd = Some Dir →
  (∀ nm c, image_of item = Some (nm, c) → fs !! child nd nm = None) →
  ∃ r, download_image lower W strip_unsafe item nd fs
       = (match image_of item with
          | Some (nm, c) => <[child nd nm := File c]> fs
          | None => fs
          end, Ok r).
Proof.
  intros Hnd Hfree. unfold download_image, bundle_image in *.
  destruct (negb (truthy_opt (image_url item))); [by eexists|].
  cbv [catch bind lift ret].
  destruct (session_get W (default [] (image_url item))) as [r|e];
    [|by eexists].
  destruct (raise_for_status r) as [[]|e]; [|by eexists].
  rewrite write_file_ok; [by eexists|done|].
  by rewrite (Hfree _ _ eq_refl).
Qed.

Lemma bundle_fs_out (nd : Path) (cap desc : str)
    (img : option (str * Content)) (fs : FS) (p : Path) :
  ¬ nd `prefix_of` p → bundle_fs nd cap desc img fs !! p = fs !! p.
Proof.
  intros Hp. unfold bundle_fs.
  assert (Hnd : nd ≠ p) by (intros ->; by apply Hp).
  assert (Hch : ∀ x, child nd x ≠ p).
  { intros x <-. apply Hp. by exists [x]. }
  destruct img as [[nm c]|]; by rewrite !lookup_insert_ne.
Qed.

Lemma bundle_fs_base (nd : Path) (cap desc : str)
    (img : option (str * Content)) (fs fs' : FS) (p : Path) :
  fs !! p = fs' !! p →
  bundle_fs nd cap desc img fs !! p = bundle_fs nd cap desc img fs' !! p.
Proof.
  intros H. unfold bundle_fs.
  destruct img as [[nm c]|]; rewrite !lookup_insert;
    repeat case_decide; done.
Qed.

(** The content of a sub-bundle written where nothing was. *)
Lemma bundle_fs_in (nd : Path) (cap desc : str) (item : NewsItem)
    (fs : FS) :
  (∀ q, fs !! (nd ++ q) = None) →
  let fs' := bundle_fs nd cap desc (image_of item) fs in
  fs' !! nd = Some Dir ∧
  fs' !! child nd caption_txt = Some (File (Text cap)) ∧
  fs' !! child nd description_txt = Some (File (Text desc)) ∧
  (∀ nm c, image_of item = Some (nm, c) →
           fs' !! child nd nm = Some (File c)) ∧
  (∀ q, is_Some (fs' !! (nd ++ q)) →
        q = [] ∨ q = [caption_txt] ∨ q = [description_txt] ∨
        ∃ nm c, image_of item = Some (nm, c) ∧ q = [nm]).
Proof.
  intros Hfree fs'. unfold fs', bundle_fs.
  pose proof caption_not_description as Hcd.
  assert (Hc : child nd caption_txt ≠ nd) by apply child_ne_self.
  assert (Hd : child nd description_txt ≠ nd) by apply child_ne_self.
  assert (Hcd' : child nd caption_txt ≠ child nd description_txt).
  { intros [_ H]%child_inj. done. }
  destruct (image_of item) as [[nm c]|] eqn:Himg.
  - destruct (bundle_image_name item nm c Himg) as [Hn1 Hn2].
    assert (Hi : child nd nm ≠ nd) by apply child_ne_self.
    assert (Hic : child nd nm ≠ child nd caption_txt).
    { intros [_ H]%child_inj. done. }
    assert (Hid : child nd nm ≠ child nd description_txt).
    { intros [_ H]%child_inj. done. }
    repeat split.
    + rewrite !lookup_insert_ne by done. apply lookup_insert_eq.
    + rewrite !lookup_insert_ne by done. apply lookup_insert_eq.
    + rewrite lookup_insert_ne by done. apply lookup_insert_eq.
    + intros nm' c' [= <- <-]. apply lookup_insert_eq.
    + intros q Hq. rewrite !lookup_insert in Hq.
      repeat case_decide.
      * right; right; right. exists nm, c. split; [done|].
        unfold child in *. by apply app_inv_head in H.
      * right; right; left. unfold child in *. by apply app_inv_head in H0.
      * right; left. unfold child in *. by apply app_inv_head in H1.
      * left. rewrite <- (app_nil_r nd) in H2 at 1.
        by apply app_inv_head in H2.
      * rewrite Hfree in Hq. by destruct Hq.
  - repeat split.
    + rewrite !lookup_insert_ne by done. apply lookup_insert_eq.
    + rewrite !lookup_insert_ne by done. apply lookup_insert_eq.
    + apply lookup_insert_eq.
    + discriminate.
    + intros q Hq. rewrite !lookup_insert in Hq.
      repeat case_decide.
      * right; right; left. unfold child in *. by apply app_inv_head in H.
      * right; left. unfold child in *. by apply app_inv_head in H0.
      * left. rewrite <- (app_nil_r nd) in H1 at 1.
        by apply app_inv_head in H1.
      * rewrite Hfree in Hq. by destruct Hq.
Qed.

Variable d : Path.
Hypothesis d_not_root : d ≠ [].

Local Abbreviation nd i := (child d (noticia i)).

Lemma bundles_fs_out (items : list NewsItem) :
  ∀ (caps : list str) (i : nat) (fs : FS) (p : Path),
    (∀ j, (i ≤ j < i + min (length items) (length caps))%nat →
          ¬ nd j `prefix_of` p) →
    bundles_fs lower strip_unsafe W cfg d i items caps fs !! p = fs !! p.
Proof.
  induction items as [|item items IH]; intros caps i fs p Hp;
    [reflexivity|].
  destruct caps as [|cap caps]; [reflexivity|]. simpl in *.
  rewrite IH by (intros j Hj; apply Hp; lia).
  apply bundle_fs_out, Hp. lia.
Qed.

Lemma nd_apart (i j : nat) (q : Path) :
  i ≠ j → ¬ nd j `prefix_of` (nd i ++ q).
Proof. intros Hij H%prefix_child_inv%noticia_inj. lia. Qed.

Lemma d_not_below (j : nat) : ¬ nd j `prefix_of` d.
Proof. apply not_prefix_child_self. Qed.

(** On a tree where the later sub-bundles do not exist yet, the loop
    returns when its texts can be encoded, leaving the tree [bundles_fs]
    describes, and raises [UnicodeEncodeError] otherwise. *)
Lemma save_bundles_outcome (items : list NewsItem) :
  ∀ (caps : list str) (i : nat) (fs : FS),
    dirs_to fs d →
    (∀ j q, (i ≤ j)%nat → fs !! (nd j ++ q) = None) →
    if bundles_encodable cfg items caps
    then save_bundles lower W strip_unsafe cfg d i items caps fs
         = (bundles_fs lower strip_unsafe W cfg d i items caps fs, Ok tt)
    else snd (save_bundles lower W strip_unsafe cfg d i items caps fs)
         = Raise UnicodeEncodeError.
Proof.
  induction items as [|item items IH]; intros caps i fs Hd Hfree;
    [reflexivity|].
  destruct caps as [|cap caps]; [reflexivity|].
  cbn [save_bundles bundles_fs bundles_encodable].
  change (pystr "caption.txt") with caption_txt.
  change (pystr "description.txt") with description_txt.
  assert (Hat : ∀ q, fs !! (nd i ++ q) = None) by (intros q; by apply Hfree).
  assert (Hnd : fs !! nd i = None).
  { rewrite <- (app_nil_r (nd i)). apply Hat. }
  assert (Hc : child (nd i) caption_txt ≠ nd i) by apply child_ne_self.
  assert (Hds : child (nd i) description_txt ≠ nd i) by apply child_ne_self.
  assert (Hcd : child (nd i) caption_txt ≠ child (nd i) description_txt).
  { intros [_ H]%child_inj. by apply caption_not_description. }
  rewrite (bind_Ok _ _ _ _ _ (mkdir_p_child fs d (noticia i) Hd Hnd)).
  assert (Hcfree : <[nd i := Dir]> fs !! child (nd i) caption_txt
                   ≠ Some Dir).
  { rewrite lookup_insert_ne by done.
    change (child (nd i) caption_txt) with (nd i ++ [caption_txt]).
    by rewrite Hat. }
  destruct (encodable cap) eqn:Hcap; cbn [andb]; cycle 1.
  { erewrite bind_Raise; [reflexivity|].
    apply write_text_fail; [apply lookup_insert_eq|done|].
    cbn [forallb]. by rewrite Hcap. }
  erewrite bind_Ok; cycle 1.
  { apply write_text_ok; [apply lookup_insert_eq|done|].
    cbn [forallb]. by rewrite Hcap. }
  rewrite concat_singleton.
  assert (Hdfree : <[child (nd i) caption_txt := File (Text cap)]>
                     (<[nd i := Dir]> fs) !! child (nd i) description_txt
                   ≠ Some Dir).
  { rewrite !lookup_insert_ne by done.
    change (child (nd i) description_txt)
      with (nd i ++ [description_txt]).
    by rewrite Hat. }
  assert (Hdir : <[child (nd i) caption_txt := File (Text cap)]>
                   (<[nd i := Dir]> fs) !! nd i = Some Dir).
  { rewrite lookup_insert_ne by done. apply lookup_insert_eq. }
  destruct (forallb encodable (description_chunks cfg item)) eqn:Hdesc;
    cbn [andb]; cycle 1.
  { erewrite bind_Raise; [reflexivity|]. by apply write_text_fail. }
  erewrite bind_Ok; [|by apply write_text_ok].
  rewrite concat_description_chunks.
  edestruct (download_image_exact
               (<[child (nd i) description_txt
                    := File (Text (description_text cfg item))]>
                  (<[child (nd i) caption_txt := File (Text cap)]>
                     (<[nd i := Dir]> fs)))
               (nd i) item) as [r Hr].
  { rewrite !lookup_insert_ne by done. apply lookup_insert_eq. }
  { intros nm c Himg.
    destruct (bundle_image_name item nm c Himg) as [Hn1 Hn2].
    rewrite !lookup_insert_ne.
    - change (child (nd i) nm) with (nd i ++ [nm]). apply Hat.
    - apply not_eq_sym, child_ne_self.
    - intros [_ H]%child_inj. done.
    - intros [_ H]%child_inj. done. }
  rewrite (bind_Ok _ _ _ _ _ Hr).
  fold (bundle_fs (nd i) cap (description_text cfg item)
                  (bundle_image lower strip_unsafe W item) fs).
  apply IH.
  - intros k Hk. rewrite bundle_fs_out; [by apply Hd|].
    intros [t Ht]. apply (f_equal length) in Ht. unfold child in Ht.
    rewrite length_take, !length_app in Ht. simpl in Ht. lia.
  - intros j q Hj. rewrite bundle_fs_out; [apply Hfree; lia|].
    apply nd_apart. lia.
Qed.

(** What the loop leaves in the sub-bundle of record [k]. *)
Lemma bundles_fs_at (items : list NewsItem) :
  ∀ (caps : list str) (i : nat) (fs : FS) (k : nat) (item : NewsItem)
    (cap : str) (q : Path),
    items !! k = Some item → caps !! k = Some cap →
    bundles_fs lower strip_unsafe W cfg d i items caps fs
      !! (nd (i + k) ++ q)
    = bundle_fs (nd (i + k)) cap (description_text cfg item)
                (bundle_image lower strip_unsafe W item) fs
        !! (nd (i + k) ++ q).
Proof.
  induction items as [|it items IH]; intros caps i fs k item cap q Hi Hc;
    [done|].
  destruct caps as [|cp caps]; [done|].
  destruct k as [|k]; simpl in Hi, Hc.
  - injection Hi as ->. injection Hc as ->.
    rewrite Nat.add_0_r. cbn [bundles_fs].
    apply bundles_fs_out. intros j Hj. apply nd_apart. lia.
  - cbn [bundles_fs].
    replace (i + S k)%nat with (S i + k)%nat by lia.
    rewrite (IH caps (S i) _ k item cap q Hi Hc).
    apply bundle_fs_base, bundle_fs_out, nd_apart. lia.
Qed.

Local Abbreviation result_fs items caps fs :=
  (materialized lower strip_unsafe W cfg d items caps fs).
Local Abbreviation bundles items caps :=
  (min (length items) (length caps)).

Section Fresh.

Variable fs : FS.
Hypothesis fresh : ∀ q, fs !! (d ++ q) = None.
Variable items : list NewsItem.
Variable caps : list str.

Lemma fresh_child (a : str) (q : Path) : fs !! (child d a ++ q) = None.
Proof. unfold child. rewrite <- app_assoc. apply fresh. Qed.

Lemma fresh_child0 (a : str) : fs !! child d a = None.
Proof. rewrite <- (app_nil_r (child d a)). apply fresh_child. Qed.

(** The tree after the directory and [news.json] are created. *)
Local Abbreviation fs2 :=
  (<[child d news_json := File (Json items)]> (<[d := Dir]> fs)).

Lemma fs2_bundle_fresh (j : nat) (q : Path) : fs2 !! (nd j ++ q) = None.
Proof.
  rewrite !lookup_insert_ne.
  - apply fresh_child.
  - intros H. apply (f_equal length) in H. unfold child in H.
    rewrite !length_app in H. simpl in H. lia.
  - intros H. symmetry in H.
    assert (Hp : nd j `prefix_of` child d news_json) by by exists q.
    rewrite <- (app_nil_r (child d news_json)) in Hp.
    apply prefix_child_inv in Hp. by apply (noticia_not_news_json j).
Qed.

Lemma materialized_out (p : Path) :
  ¬ d `prefix_of` p → result_fs items caps fs !! p = fs !! p.
Proof.
  intros Hp. unfold materialized.
  assert (Hch : ∀ a, child d a ≠ p).
  { intros a <-. apply Hp. by exists [a]. }
  assert (Hd : d ≠ p) by (intros <-; by apply Hp).
  rewrite lookup_insert_ne by done.
  rewrite bundles_fs_out.
  - by rewrite !lookup_insert_ne.
  - intros j _ [k Hk]. apply Hp. exists (noticia j :: k).
    rewrite Hk. unfold child. by rewrite <- app_assoc.
Qed.

Lemma materialized_keeps : keeps fs (result_fs items caps fs).
Proof.
  intros p n Hp. rewrite materialized_out; [done|].
  intros [k ->]. rewrite fresh in Hp. discriminate.
Qed.

Lemma materialized_dir : result_fs items caps fs !! d = Some Dir.
Proof.
  unfold materialized.
  rewrite lookup_insert_ne by apply child_ne_self.
  rewrite bundles_fs_out by (intros j _; apply d_not_below).
  rewrite lookup_insert_ne by apply child_ne_self.
  apply lookup_insert_eq.
Qed.

Lemma materialized_all_captions :
  result_fs items caps fs !! child d all_captions_txt
  = Some (File (Text (captions_listing caps))).
Proof. unfold materialized. apply lookup_insert_eq. Qed.

Lemma child_not_bundle (a : str) (j : nat) :
  a ≠ noticia j → ¬ nd j `prefix_of` child d a.
Proof.
  intros Ha Hp. rewrite <- (app_nil_r (child d a)) in Hp.
  apply prefix_child_inv in Hp. by apply Ha.
Qed.

Lemma materialized_news_json :
  result_fs items caps fs !! child d news_json
  = Some (File (Json items)).
Proof.
  unfold materialized. rewrite lookup_insert_ne.
  - rewrite bundles_fs_out; [apply lookup_insert_eq|].
    intros j _. apply child_not_bundle, not_eq_sym,
      noticia_not_news_json.
  - intros [_ H]%child_inj. by apply news_json_not_all_captions.
Qed.

Lemma materialized_below_bundle (j : nat) (q : Path) :
  result_fs items caps fs !! (nd j ++ q)
  = bundles_fs lower strip_unsafe W cfg d 0 items caps fs2
      !! (nd j ++ q).
Proof.
  unfold materialized. apply lookup_insert_ne. intros H.
  assert (Hp : nd j `prefix_of` child d all_captions_txt)
    by (rewrite H; by exists q).
  revert Hp. apply child_not_bundle, not_eq_sym,
    noticia_not_all_captions.
Qed.

(** The sub-bundle of record [k]: the directory [noticia_<k+1>] with
    caption [k], the description of record [k], its image if one was
    downloaded, and nothing else. *)
Lemma materialized_bundle (k : nat) (item : NewsItem) (cap : str) :
  items !! k = Some item → caps !! k = Some cap →
  let fs' := result_fs items caps fs in
  fs' !! nd k = Some Dir ∧
  fs' !! child (nd k) caption_txt = Some (File (Text cap)) ∧
  fs' !! child (nd k) description_txt
    = Some (File (Text (description_text cfg item))) ∧
  (∀ nm c, bundle_image lower strip_unsafe W item = Some (nm, c) →
           fs' !! child (nd k) nm = Some (File c)) ∧
  (∀ q, is_Some (fs' !! (nd k ++ q)) →
        q = [] ∨ q = [caption_txt] ∨ q = [description_txt] ∨
        ∃ nm c, bundle_image lower strip_unsafe W item = Some (nm, c) ∧
                q = [nm]).
Proof.
  intros Hi Hc fs'.
  assert (Hlook : ∀ q,
    fs' !! (nd k ++ q)
    = bundle_fs (nd k) cap (description_text cfg item)
        (bundle_image lower strip_unsafe W item) fs2 !! (nd k ++ q)).
  { intros q. unfold fs'. rewrite materialized_below_bundle.
    apply (bundles_fs_at items caps 0 fs2 k item cap q Hi Hc). }
  destruct (bundle_fs_in (nd k) cap
              (description_text cfg item) item fs2
              (fs2_bundle_fresh k))
    as (H1 & H2 & H3 & H4 & H5).
  repeat split.
  - rewrite <- (app_nil_r (nd k)), Hlook, app_nil_r. exact H1.
  - change (child (nd k) caption_txt) with (nd k ++ [caption_txt]).
    rewrite Hlook. exact H2.
  - change (child (nd k) description_txt)
      with (nd k ++ [description_txt]).
    rewrite Hlook. exact H3.
  - intros nm c Himg.
    change (child (nd k) nm) with (nd k ++ [nm]).
    rewrite Hlook. by apply H4.
  - intros q Hq. rewrite Hlook in Hq. by apply H5.
Qed.

Lemma materialized_no_bundle (j : nat) (q : Path) :
  (bundles items caps ≤ j)%nat →
  result_fs items caps fs !! (nd j ++ q) = None.
Proof.
  intros Hj. rewrite materialized_below_bundle, bundles_fs_out.
  - apply fs2_bundle_fresh.
  - intros i Hi. apply nd_apart. lia.
Qed.

(** The directories right under the chosen one are the sub-bundles. *)
Lemma materialized_subdirs (a : str) :
  result_fs items caps fs !! child d a = Some Dir ↔
  ∃ j, (j < bundles items caps)%nat ∧ a = noticia j.
Proof.
  split.
  - intros Hdir.
    destruct (decide (a ∈ noticia <$> seq 0 (bundles items caps)))
      as [Hin|Hout].
    + apply list_elem_of_fmap in Hin as (j & -> & Hj).
      apply elem_of_seq in Hj. exists j. split; [lia|done].
    + exfalso. revert Hdir. unfold materialized.
      destruct (decide (a = all_captions_txt)) as [->|Hac].
      { rewrite lookup_insert_eq. discriminate. }
      rewrite lookup_insert_ne
        by (intros [_ H]%child_inj; by apply Hac).
      rewrite bundles_fs_out.
      * destruct (decide (a = news_json)) as [->|Hnj].
        { rewrite lookup_insert_eq. discriminate. }
        rewrite lookup_insert_ne
          by (intros [_ H]%child_inj; by apply Hnj).
        rewrite lookup_insert_ne
          by (apply not_eq_sym, child_ne_self).
        rewrite fresh_child0. discriminate.
      * intros j Hj. apply child_not_bundle. intros ->.
        apply Hout, list_elem_of_fmap. exists j. split; [done|].
        apply elem_of_seq. lia.
  - intros (j & Hj & ->).
    destruct (lookup_lt_is_Some_2 items j ltac:(lia)) as [item Hi].
    destruct (lookup_lt_is_Some_2 caps j ltac:(lia)) as [cap Hc].
    by destruct (materialized_bundle j item cap Hi Hc) as [H _].
Qed.

End Fresh.

End Materializer.

Lemma wf_download_image (lower : str → str) (W : World)
    (strip : str → str) (item : NewsItem) (nd : Path) :
  wf_preserving (download_image lower W strip item nd).
Proof.
  unfold download_image.
  destruct (negb (truthy_opt (image_url item))); [apply wf_ret|].
  apply wf_catch, wf_bind; [apply wf_lift|]. intros r.
  apply wf_bind; [apply wf_lift|]. intros _.
  apply wf_bind; [apply wf_write_file|]. intros _. apply wf_ret.
Qed.

Lemma wf_save_bundles (lower : str → str) (W : World)
    (strip : str → str) (cfg : Config) (d : Path) (items : list NewsItem) :
  ∀ (caps : list str) (i : nat),
    wf_preserving (save_bundles lower W strip cfg d i items caps).
Proof.
  induction items as [|item items IH]; intros caps i; [apply wf_ret|].
  destruct caps as [|cap caps]; [apply wf_ret|]. cbn [save_bundles].
  apply wf_bind; [apply wf_mkdir_p|]. intros _.
  apply wf_bind; [apply wf_write_text|]. intros _.
  apply wf_bind; [apply wf_write_text|]. intros _.
  apply wf_bind; [apply wf_download_image|]. intros _. apply IH.
Qed.

Lemma wf_save_into (lower : str → str) (W : World)
    (strip : str → str) (cfg : Config) (d : Path) (items : list NewsItem)
    (caps : list str) :
  wf_preserving (save_into lower W strip cfg d items caps).
Proof.
  unfold save_into.
  apply wf_bind; [apply wf_mkdir_p|]. intros _.
  apply wf_bind; [apply wf_write_json|]. intros _.
  apply wf_bind; [apply wf_save_bundles|]. intros _.
  apply wf_bind; [apply wf_write_text|]. intros _. apply wf_ret.
Qed.

Lemma dirs_to_content (fs : FS) :
  fs_wf fs → fs !! CONTENT_DIR = Some Dir → dirs_to fs CONTENT_DIR.
Proof.
  intros Hwf Hc k Hk.
  assert (Ho : fs !! OUTPUT_DIR = Some Dir).
  { apply (Hwf OUTPUT_DIR (pystr "contenido")); [|discriminate].
    unfold CONTENT_DIR in Hc. by rewrite Hc. }
  change (length CONTENT_DIR) with 2%nat in Hk.
  destruct k as [|[|[|k]]]; try lia; assumption.
Qed.

(** Whatever its outcome, writing into a free directory under the
    content directory creates that directory and changes nothing outside
    it. *)
Lemma save_into_frame (lower strip : str → str) (W : World)
    (cfg : Config) (name : str)
    (items : list NewsItem) (caps : list str) (fs : FS) :
  fs_wf fs → fs !! CONTENT_DIR = Some Dir →
  fs !! child CONTENT_DIR name = None →
  let d := child CONTENT_DIR name in
  let fs' := fst (save_into lower W strip cfg d items caps fs) in
  fs' !! d = Some Dir ∧ (∀ p, ¬ d `prefix_of` p → fs' !! p = fs !! p).
Proof.
  intros Hwf Hc Hfree d fs'.
  pose proof (dirs_to_content fs Hwf Hc) as Hdirs.
  assert (Hd : dirs_to (<[d := Dir]> fs) d).
  { apply dirs_to_child; [|apply lookup_insert_eq].
    intros k Hk. rewrite lookup_insert_ne; [by apply Hdirs|].
    intros H. apply (f_equal length) in H.
    rewrite length_take in H. unfold d, child in H.
    rewrite length_app in H. simpl in H. lia. }
  assert (Hsame : same_outside d (<[d := Dir]> fs) fs').
  { unfold fs', save_into.
    rewrite (bind_Ok _ _ _ _ _ (mkdir_p_child fs CONTENT_DIR name Hdirs Hfree)).
    fold d. revert Hd. generalize (<[d := Dir]> fs).
    change (∀ g : FS, dirs_to g d → same_outside d g (fst (_ g)))
      with (confined d
              (write_json (child d (pystr "news.json")) items ;;;
               save_bundles lower W strip cfg d 0 items caps ;;;
               write_text (child d (pystr "all_captions.txt"))
                          (caption_entries 0 caps) ;;;
               ret (child d (pystr "all_captions.txt"), d))%eff).
    apply confined_bind;
      [apply confined_write_json; [apply prefix_child|apply child_ne_self]|].
    intros _. apply confined_bind; [apply confined_save_bundles|].
    intros _. apply confined_bind; [|intros _; apply confined_ret].
    apply confined_write_text; [apply prefix_child|apply child_ne_self]. }
  split.
  - rewrite Hsame by (by right). apply lookup_insert_eq.
  - intros p Hp. rewrite Hsame by (by left).
    apply lookup_insert_ne. intros <-. by apply Hp.
Qed.

(** On a well-formed tree with the content directory in place, writing
    into a free directory under it returns when every text can be
    encoded, leaving the tree [materialized] describes, and raises
    [UnicodeEncodeError] otherwise. *)
Lemma save_into_outcome (lower strip : str → str) (W : World)
    (cfg : Config) (name : str)
    (items : list NewsItem) (caps : list str) (fs : FS) :
  fs_wf fs → fs !! CONTENT_DIR = Some Dir →
  fs !! child CONTENT_DIR name = None →
  let d := child CONTENT_DIR name in
  if run_encodable cfg items caps
  then save_into lower W strip cfg d items caps fs
       = (materialized lower strip W cfg d items caps fs,
          Ok (child d all_captions_txt, d))
  else snd (save_into lower W strip cfg d items caps fs)
       = Raise UnicodeEncodeError.
Proof.
  intros Hwf Hc Hfree d.
  assert (Hd : d ≠ []) by discriminate.
  assert (Hbelow : ∀ q, fs !! (d ++ q) = None) by by apply fresh_below.
  pose proof (dirs_to_content fs Hwf Hc) as Hdirs.
  unfold save_into, run_encodable.
  change (pystr "news.json") with news_json.
  change (pystr "all_captions.txt") with all_captions_txt.
  rewrite (bind_Ok _ _ _ _ _ (mkdir_p_child fs CONTENT_DIR name Hdirs Hfree)).
  fold d.
  assert (Hjfree : <[d := Dir]> fs !! child d news_json ≠ Some Dir).
  { rewrite lookup_insert_ne by (apply not_eq_sym, child_ne_self).
    by rewrite (fresh_child0 d fs Hbelow). }
  destruct (json_encodable items) eqn:Hjson; cbn [andb]; cycle 1.
  { erewrite bind_Raise; [reflexivity|].
    apply write_json_fail; [apply lookup_insert_eq|done|done]. }
  erewrite bind_Ok;
    [|apply write_json_ok; [apply lookup_insert_eq|done|done]].
  assert (Hd2 : dirs_to (<[child d news_json := File (Json items)]>
                           (<[d := Dir]> fs)) d).
  { apply dirs_to_child.
    - intros k Hk. rewrite !lookup_insert_ne.
      + by apply Hdirs.
      + intros H. apply (f_equal length) in H.
        rewrite length_take in H. unfold d, child in H.
        rewrite length_app in H. simpl in H. lia.
      + intros H. apply (f_equal length) in H.
        rewrite length_take in H. unfold d, child in H.
        rewrite !length_app in H. simpl in H. lia.
    - rewrite lookup_insert_ne by apply child_ne_self.
      apply lookup_insert_eq. }
  assert (Hfree2 : ∀ (j : nat) (q : Path), (0 ≤ j)%nat →
            <[child d news_json := File (Json items)]> (<[d := Dir]> fs)
              !! (child d (noticia j) ++ q) = None).
  { intros j q _. by apply fs2_bundle_fresh. }
  pose proof (save_bundles_outcome lower strip W cfg d items caps 0
                (<[child d news_json := File (Json items)]>
                   (<[d := Dir]> fs)) Hd2 Hfree2) as Hloop.
  destruct (bundles_encodable cfg items caps); cbn [andb]; cycle 1.
  { destruct (save_bundles lower W strip cfg d 0 items caps
                (<[child d news_json := File (Json items)]>
                   (<[d := Dir]> fs))) as [fs3 r3] eqn:Hrun.
    cbn [snd] in Hloop. rewrite Hloop in Hrun.
    by rewrite (bind_Raise _ _ _ _ _ Hrun). }
  rewrite (bind_Ok _ _ _ _ _ Hloop).
  set (fs3 := bundles_fs lower strip W cfg d 0 items caps
                (<[child d news_json := File (Json items)]>
                   (<[d := Dir]> fs))).
  assert (Hdir3 : fs3 !! d = Some Dir).
  { unfold fs3. rewrite bundles_fs_out by (intros j _; apply d_not_below).
    rewrite lookup_insert_ne by apply child_ne_self.
    apply lookup_insert_eq. }
  assert (Hafree : fs3 !! child d all_captions_txt ≠ Some Dir).
  { unfold fs3. rewrite bundles_fs_out.
    - rewrite lookup_insert_ne.
      + rewrite lookup_insert_ne by (apply not_eq_sym, child_ne_self).
        by rewrite (fresh_child0 d fs Hbelow).
      + intros [_ H]%child_inj. by apply news_json_not_all_captions.
    - intros j _. apply child_not_bundle, not_eq_sym,
        noticia_not_all_captions. }
  destruct (forallb encodable (caption_entries 0 caps)) eqn:Hcaps; cycle 1.
  { erewrite bind_Raise; [reflexivity|]. by apply write_text_fail. }
  erewrite bind_Ok; [|by apply write_text_ok].
  rewrite captions_listing_written. reflexivity.
Qed.

(** One run of [save_content] on a well-formed tree: it ends, returning
    when every text can be encoded and raising [UnicodeEncodeError]
    otherwise; either way the directory it chose was free and is there
    afterwards, and nothing outside it has changed. *)
Lemma save_content_run (lower strip : str → str) (W : World)
    (cfg : Config) (items : list NewsItem) (caps : list str)
    (date_str : str) (fs : FS) (fuel : nat) :
  fs_wf fs → fs !! CONTENT_DIR = Some Dir → (size fs < fuel)%nat →
  ∃ fs' d,
    first_free fs date_str d ∧
    (∀ q, fs !! (d ++ q) = None) ∧
    d ≠ [] ∧
    save_content lower W strip fuel cfg items caps date_str fs
    = Some (fs', if texts_encodable items caps
                 then Ok (child d all_captions_txt, d)
                 else Raise UnicodeEncodeError) ∧
    (texts_encodable items caps = true →
     fs' = materialized lower strip W cfg d items caps fs) ∧
    fs' !! d = Some Dir ∧
    (∀ p, ¬ d `prefix_of` p → fs' !! p = fs !! p) ∧
    keeps fs fs' ∧
    fs_wf fs' ∧
    fs' !! CONTENT_DIR = Some Dir.
Proof.
  intros Hwf Hc Hf.
  destruct (allocate_dir_total fuel fs date_str Hf) as [d Hd].
  pose proof Hd as Hfirst. unfold allocate_dir in Hfirst.
  apply probe_dir_Some in Hfirst.
  assert (Hname : ∃ name, d = child CONTENT_DIR name).
  { destruct Hfirst as [_ [->|(v & _ & -> & _)]]; eauto. }
  destruct Hname as [name ->].
  destruct Hfirst as [Hfree Horder].
  assert (Hne : child CONTENT_DIR name ≠ []) by discriminate.
  assert (Hbelow : ∀ q, fs !! (child CONTENT_DIR name ++ q) = None)
    by by apply fresh_below.
  pose proof (save_into_outcome lower strip W cfg name items caps fs
                Hwf Hc Hfree) as Hout.
  destruct (save_into_frame lower strip W cfg name items caps fs
              Hwf Hc Hfree) as [Hdir Hsame].
  pose proof (wf_save_into lower W strip cfg (child CONTENT_DIR name)
                items caps fs Hwf) as Hwf'.
  cbv zeta in Hout. rewrite run_encodable_texts in Hout.
  destruct (save_into lower W strip cfg (child CONTENT_DIR name) items caps fs)
    as [fs' r] eqn:Hrun. cbn [fst snd] in *.
  exists fs', (child CONTENT_DIR name).
  split; [done|]. split; [done|]. split; [done|].
  split.
  { unfold save_content. rewrite Hd. cbn [mbind option_bind].
    rewrite Hrun. destruct (texts_encodable items caps).
    - by injection Hout as _ ->.
    - by rewrite Hout. }
  split.
  { intros Hok. rewrite Hok in Hout. by injection Hout. }
  split; [done|]. split; [done|]. split.
  { intros p n Hp. rewrite Hsame; [done|].
    intros [k ->]. rewrite Hbelow in Hp. discriminate. }
  split; [done|].
  rewrite Hsame; [done|]. apply not_prefix_child_self.
Qed.

(** C3. On a well-formed tree holding the content directory, a
    materialization ends, whatever its inputs: it returns, or it raises
    [UnicodeEncodeError] when one of its texts cannot be encoded.  In both
    cases the directory it wrote to did not exist before: it is the base
    directory of the date if that was free, else the first free one among
    [_V1], [_V2], ... in that order; it exists afterwards, and nothing
    outside it has changed.  A second materialization for the same date
    on the resulting tree uses a different directory and leaves every
    file and directory of the first in place. *)
Theorem materialization_uses_a_fresh_directory :
  ∀ (lower strip : str → str) (W : World) (cfg : Config)
    (items : list NewsItem) (caps : list str) (date_str : str)
    (fs : FS) (fuel : nat),
    fs_wf fs → fs !! CONTENT_DIR = Some Dir → (size fs < fuel)%nat →
    ∃ fs1 r1 d1,
      save_content lower W strip fuel cfg items caps date_str fs
      = Some (fs1, r1) ∧
      r1 = (if texts_encodable items caps
            then Ok (child d1 all_captions_txt, d1)
            else Raise UnicodeEncodeError) ∧
      first_free fs date_str d1 ∧
      fs1 !! d1 = Some Dir ∧
      (∀ p, ¬ d1 `prefix_of` p → fs1 !! p = fs !! p) ∧
      keeps fs fs1 ∧
      ∀ (items' : list NewsItem) (caps' : list str) (fuel' : nat),
        (size fs1 < fuel')%nat →
        ∃ fs2 r2 d2,
          save_content lower W strip fuel' cfg items' caps' date_str fs1
          = Some (fs2, r2) ∧
          r2 = (if texts_encodable items' caps'
                then Ok (child d2 all_captions_txt, d2)
                else Raise UnicodeEncodeError) ∧
          d2 ≠ d1 ∧
          first_free fs1 date_str d2 ∧
          fs2 !! d2 = Some Dir ∧
          (∀ p, ¬ d2 `prefix_of` p → fs2 !! p = fs1 !! p) ∧
          keeps fs1 fs2.
Proof.
  intros lower strip W cfg items caps date_str fs fuel Hwf Hc Hf.
  destruct (save_content_run lower strip W cfg items caps date_str fs fuel
              Hwf Hc Hf)
    as (fs1 & d1 & Hfirst1 & _ & _ & Hrun1 & _ & Hdir1 & Hout1 & Hkeep1
        & Hwf1 & Hc1).
  eexists fs1, _, d1. split; [exact Hrun1|].
  split; [done|]. split; [done|]. split; [done|]. split; [done|].
  split; [done|].
  intros items' caps' fuel' Hf'.
  destruct (save_content_run lower strip W cfg items' caps' date_str fs1
              fuel' Hwf1 Hc1 Hf')
    as (fs2 & d2 & Hfirst2 & _ & _ & Hrun2 & _ & Hdir2 & Hout2 & Hkeep2 & _).
  eexists fs2, _, d2. split; [exact Hrun2|]. split; [done|].
  split.
  - intros ->. destruct Hfirst2 as [Hfree2 _]. congruence.
  - done.
Qed.

(** The constructor accepts a summary that holds a lone surrogate: only
    title and link are encoded when the record is built. *)
Example surrogate_item_is_built :
  NewsItem_new (pystr "T") [0xD800] (pystr "https://vandal.elespanol.com/n")
               None None None
  = Some surrogate_item.
Proof. vm_compute. reflexivity. Qed.

(** C10, as stated, fails: a record whose summary holds a lone surrogate
    makes [json.dump] raise; [news.json] is left cut short, and neither a
    sub-bundle nor [all_captions.txt] is written. *)
Lemma unencodable_record_stops_the_run :
  let d := child CONTENT_DIR (pystr "2024-06-01") in
  let run :=
    save_content (λ s, s) offline (λ s, s) 3 CONFIG [surrogate_item]
                 [pystr "caption"] (pystr "2024-06-01") ready_fs in
  snd <$> run = Some (Raise UnicodeEncodeError) ∧
  (λ r, fst r !! child d news_json) <$> run
  = Some (Some (File (JsonCut [surrogate_item]))) ∧
  (λ r, fst r !! child d (noticia 0)) <$> run = Some None ∧
  (λ r, fst r !! child d all_captions_txt) <$> run = Some None.
Proof. repeat split; vm_compute; reflexivity. Qed.

(** C10, amended.  When the fields of the records and the captions can
    all be encoded, a materialization returns; it writes [news.json] with
    all the records and [all_captions.txt] with a numbered block for
    every caption, in order; for every index below both lengths it
    creates [noticia_<i+1>] holding caption [i], the title and description
    of record [i], the image of record [i] when one was downloaded, and
    nothing else; no sub-bundle exists for a larger index, so the
    directories created under the chosen one are exactly those of the
    indices below the shorter length, [noticia_1] to [noticia_n] when both
    lists have length [n]. *)
Theorem sub_bundles_follow_the_zip :
  ∀ (lower strip : str → str) (W : World) (cfg : Config)
    (items : list NewsItem) (caps : list str) (date_str : str)
    (fs : FS) (fuel : nat),
    fs_wf fs → fs !! CONTENT_DIR = Some Dir → (size fs < fuel)%nat →
    texts_encodable items caps = true →
    ∃ fs' d,
      save_content lower W strip fuel cfg items caps date_str fs
      = Some (fs', Ok (child d all_captions_txt, d)) ∧
      fs' !! child d news_json = Some (File (Json items)) ∧
      fs' !! child d all_captions_txt
        = Some (File (Text (captions_listing caps))) ∧
      (∀ i item cap,
         items !! i = Some item → caps !! i = Some cap →
         let news_dir := child d (noticia i) in
         fs' !! news_dir = Some Dir ∧
         fs' !! child news_dir caption_txt = Some (File (Text cap)) ∧
         fs' !! child news_dir description_txt
           = Some (File (Text (description_text cfg item))) ∧
         (∀ nm c, bundle_image lower strip W item = Some (nm, c) →
                  fs' !! child news_dir nm = Some (File c)) ∧
         (∀ q, is_Some (fs' !! (news_dir ++ q)) →
               q = [] ∨ q = [caption_txt] ∨ q = [description_txt] ∨
               ∃ nm c, bundle_image lower strip W item = Some (nm, c) ∧
                       q = [nm])) ∧
      (∀ i q, (min (length items) (length caps) ≤ i)%nat →
              fs' !! (child d (noticia i) ++ q) = None) ∧
      (∀ a, fs' !! child d a = Some Dir ↔
            ∃ i, (i < min (length items) (length caps))%nat ∧
                 a = noticia i) ∧
      (length items = length caps →
       ∀ a, fs' !! child d a = Some Dir ↔
            ∃ i, (i < length items)%nat ∧ a = noticia i).
Proof.
  intros lower strip W cfg items caps date_str fs fuel Hwf Hc Hf Hok.
  destruct (save_content_run lower strip W cfg items caps date_str fs fuel
              Hwf Hc Hf)
    as (fs' & d & Hfirst & Hbelow & Hne & Hrun & Hfs & _).
  rewrite Hok in Hrun. rewrite (Hfs Hok) in *.
  eexists _, d. split; [exact Hrun|].
  split; [by apply materialized_news_json|].
  split; [by apply materialized_all_captions|].
  split; [intros i item cap Hi Hcap; by apply materialized_bundle|].
  split; [intros i q Hi; by apply materialized_no_bundle|].
  split; [intros a; by apply materialized_subdirs|].
  intros Hlen a. rewrite materialized_subdirs by done.
  by rewrite <- Hlen, Nat.min_id.
Qed.

Lemma ready_fs_wf : fs_wf ready_fs.
Proof.
  intros p name Hsome Hp. unfold ready_fs in *.
  destruct (decide (CONTENT_DIR = child p name)) as [Heq|Hne].
  - unfold CONTENT_DIR in Heq. apply child_inj in Heq as [<- _].
    rewrite lookup_insert_ne by discriminate. apply lookup_insert_eq.
  - rewrite lookup_insert_ne in Hsome by done.
    destruct (decide (OUTPUT_DIR = child p name)) as [Heq|Hne2].
    + destruct p; [done|]. destruct p; discriminate.
    + rewrite lookup_insert_ne, lookup_empty in Hsome by done.
      by destruct Hsome.
Qed.

Lemma ready_fs_size : size ready_fs = 2%nat.
Proof.
  unfold ready_fs.
  rewrite map_size_insert_None.
  - rewrite map_size_insert_None by apply lookup_empty.
    by rewrite map_size_empty.
  - rewrite lookup_insert_ne by discriminate. apply lookup_empty.
Qed.

Lemma ready_fs_content : ready_fs !! CONTENT_DIR = Some Dir.
Proof. apply lookup_insert_eq. Qed.

Lemma materialization_uses_a_fresh_directory_witness :
  ∃ fs1 r1 d1,
    save_content (λ s, s) offline (λ s, s) 3 CONFIG [sample_item]
                 [pystr "caption"] (pystr "2024-06-01") ready_fs
    = Some (fs1, r1) ∧
    first_free ready_fs (pystr "2024-06-01") d1 ∧
    fs1 !! d1 = Some Dir ∧
    keeps ready_fs fs1.
Proof.
  destruct (materialization_uses_a_fresh_directory
              (λ s, s) (λ s, s) offline CONFIG [sample_item]
              [pystr "caption"] (pystr "2024-06-01") ready_fs 3
              ready_fs_wf ready_fs_content
              ltac:(rewrite ready_fs_size; lia))
    as (fs1 & r1 & d1 & H1 & _ & H2 & H3 & _ & H4 & _).
  exists fs1, r1, d1. auto.
Defined.

Lemma sub_bundles_follow_the_zip_witness :
  ∃ fs' d,
    save_content (λ s, s) offline (λ s, s) 3 CONFIG [sample_item; item_A]
                 [pystr "caption"] (pystr "2024-06-01") ready_fs
    = Some (fs', Ok (child d all_captions_txt, d)) ∧
    fs' !! child d news_json = Some (File (Json [sample_item; item_A])) ∧
    fs' !! child d all_captions_txt
      = Some (File (Text (captions_listing [pystr "caption"]))) ∧
    (∀ a, fs' !! child d a = Some Dir ↔
          ∃ i, (i < 1)%nat ∧ a = noticia i).
Proof.
  destruct (sub_bundles_follow_the_zip
              (λ s, s) (λ s, s) offline CONFIG [sample_item; item_A]
              [pystr "caption"] (pystr "2024-06-01") ready_fs 3
              ready_fs_wf ready_fs_content
              ltac:(rewrite ready_fs_size; lia)
              ltac:(vm_compute; reflexivity))
    as (fs' & d & H1 & H2 & H3 & _ & _ & H4 & _).
  exists fs', d. auto.
Defined.

(** The names of the first two sub-bundles and of the first two versioned
    directories. *)
Example bundle_and_version_names :
  noticia 0 = pystr "noticia_1" ∧ noticia 1 = pystr "noticia_2" ∧
  version_dir (pystr "2024-06-01") 1
  = CONTENT_DIR ++ [pystr "2024-06-01_V1"] ∧
  version_dir (pystr "2024-06-01") 2
  = CONTENT_DIR ++ [pystr "2024-06-01_V2"].
Proof. repeat split; vm_compute; reflexivity. Qed.

(** The aggregate captions file for two captions. *)
Example captions_listing_example :
  captions_listing [pystr "one"; pystr "two"]
  = pystr "=== CAPTION 1 ===" ++ nl ++ pystr "one" ++ nl ++ nl ++
    pystr "=== CAPTION 2 ===" ++ nl ++ pystr "two" ++ nl ++ nl.
Proof. vm_compute. reflexivity. Qed.

(** The scenario of the specification: two materializations on the same
    day give [<date>] and then [<date>_V1]. *)
Example same_day_twice :
  let date := pystr "2024-06-01" in
  let run fs := save_content (λ s, s) offline (λ s, s) 8 CONFIG [sample_item]
                             [pystr "caption"] date fs in
  (snd <$> run ready_fs)
  = Some (Ok (child (child CONTENT_DIR date) all_captions_txt,
              child CONTENT_DIR date)) ∧
  (snd <$> (run ready_fs ≫= (λ r, run (fst r))))
  = Some (Ok (child (child CONTENT_DIR (pystr "2024-06-01_V1"))
                    all_captions_txt,
              child CONTENT_DIR (pystr "2024-06-01_V1"))).
Proof. split; vm_compute; reflexivity. Qed.

(** * Further properties of the code *)

(** ** Identifiers *)

Lemma le_bytes_length n x : length (MD5.le_bytes n x) = n.
Proof. unfold MD5.le_bytes. by rewrite length_map, length_seq. Qed.

Lemma le_bytes_range n x : Forall (λ b, 0 ≤ b < 256) (MD5.le_bytes n x).
Proof.
  unfold MD5.le_bytes. apply Forall_forall. intros b Hb.
  apply list_elem_of_In, in_map_iff in Hb as (i & <- & _).
  change 0xFF with (Z.ones 8). rewrite Z.land_ones by lia.
  apply Z.mod_pos_bound. lia.
Qed.

Lemma digest_length msg : length (MD5.digest msg) = 16%nat.
Proof.
  unfold MD5.digest. cbv zeta. by rewrite !length_app, !le_bytes_length.
Qed.

Lemma digest_range msg : Forall (λ b, 0 ≤ b < 256) (MD5.digest msg).
Proof.
  unfold MD5.digest. cbv zeta.
  repeat (apply Forall_app; split); apply le_bytes_range.
Qed.

Lemma hex_digit_is_hex d : 0 ≤ d < 16 → is_hex (MD5.hex_digit d).
Proof.
  intros Hd. unfold MD5.hex_digit, is_hex.
  destruct (Z.ltb_spec d 10); lia.
Qed.

Lemma hexdigest_shape msg :
  length (MD5.hexdigest msg) = 32%nat ∧ Forall is_hex (MD5.hexdigest msg).
Proof.
  unfold MD5.hexdigest.
  pose proof (digest_length msg) as Hlen.
  pose proof (digest_range msg) as Hrange.
  revert Hlen Hrange. generalize (MD5.digest msg) as bs. intros bs.
  assert (Hgen : Forall (λ b, 0 ≤ b < 256) bs →
    length (flat_map (λ b, [MD5.hex_digit (Z.shiftr b 4);
                            MD5.hex_digit (Z.land b 0xF)]) bs)
      = (2 * length bs)%nat ∧
    Forall is_hex
      (flat_map (λ b, [MD5.hex_digit (Z.shiftr b 4);
                       MD5.hex_digit (Z.land b 0xF)]) bs)).
  { induction 1 as [|b bs' Hb _ [IHl IHf]]; [split; [done|constructor]|].
    cbn [flat_map app length]. split; [lia|].
    constructor; [|constructor; [|done]].
    - apply hex_digit_is_hex. rewrite Z.shiftr_div_pow2 by lia.
      change (2 ^ 4) with 16. split.
      + apply Z.div_pos; lia.
      + apply Z.div_lt_upper_bound; lia.
    - apply hex_digit_is_hex. change 0xF with (Z.ones 4).
      rewrite Z.land_ones by lia. apply Z.mod_pos_bound. lia. }
  intros Hlen Hrange. destruct (Hgen Hrange) as [Hl Hf].
  split; [lia|done].
Qed.

(** X1. Every record that gets built carries an identifier of exactly 32
    lower-case hexadecimal digits. *)
Theorem news_id_is_32_hex_digits :
  ∀ (t s l : str) (i a d : option str) (item : NewsItem),
    NewsItem_new t s l i a d = Some item →
    length (news_id item) = 32%nat ∧ Forall is_hex (news_id item).
Proof.
  intros t s l i a d item H. unfold NewsItem_new, post_init, article_id in H.
  cbn [news_id title link truthy negb] in H.
  destruct (encode_utf8 (t ++ pystr "|" ++ l)) as [bs|]; [|discriminate].
  injection H as <-. cbn [news_id set_news_id]. apply hexdigest_shape.
Qed.

Lemma news_id_is_32_hex_digits_witness :
  length (pystr "68c71117eb9cc9adfd2fb5136415584a") = 32%nat ∧
  Forall is_hex (pystr "68c71117eb9cc9adfd2fb5136415584a").
Proof.
  apply (news_id_is_32_hex_digits (pystr "T") (pystr "listing summary")
           (pystr "https://vandal.elespanol.com/n") None None None
           sample_item).
  vm_compute. reflexivity.
Defined.

Lemma encode_char_Some c b : encode_char c = Some b → scalar_value c = true.
Proof.
  unfold encode_char. destruct (scalar_value c); [done|discriminate].
Qed.

Lemma encode_utf8_is_Some s :
  is_Some (encode_utf8 s) ↔ forallb scalar_value s = true.
Proof.
  split; [|apply encode_utf8_scalar].
  induction s as [|c r IH]; [done|]. simpl. intros [bs H].
  destruct (encode_char c) as [b|] eqn:Hc; [|discriminate].
  destruct (encode_utf8 r) as [br|] eqn:Hr; [|discriminate].
  apply encode_char_Some in Hc. rewrite Hc. apply IH. eauto.
Qed.

(** X2. Building a record raises exactly when the title or the link holds
    a code point that UTF-8 cannot encode (a surrogate); the summary and
    the optional fields never make it fail. *)
Theorem NewsItem_new_fails_only_on_surrogates :
  ∀ (t s l : str) (i a d : option str),
    is_Some (NewsItem_new t s l i a d) ↔
    forallb scalar_value t = true ∧ forallb scalar_value l = true.
Proof.
  intros. unfold NewsItem_new, post_init, article_id.
  cbn [news_id title link truthy negb].
  rewrite <- !encode_utf8_is_Some.
  assert (He : is_Some (encode_utf8 (t ++ pystr "|" ++ l)) ↔
               is_Some (encode_utf8 t) ∧ is_Some (encode_utf8 l)).
  { rewrite !encode_utf8_is_Some, !forallb_app.
    change (forallb scalar_value (pystr "|")) with true.
    rewrite andb_true_iff. cbn [andb]. tauto. }
  rewrite <- He.
  destruct (encode_utf8 (t ++ pystr "|" ++ l)); cbn; split;
    intros [x Hx]; try discriminate; eauto.
Qed.

(** X3. The identifier does not tell title from link around the
    separator: moving a piece [|m] from the end of the title to the
    start of the link gives a different (title, link) pair with the same
    identifier. *)
Theorem news_id_blind_to_separator_position :
  ∀ (t m l s : str) (i a d : option str),
    news_id <$> NewsItem_new (t ++ pystr "|" ++ m) s l i a d
      = news_id <$> NewsItem_new t s (m ++ pystr "|" ++ l) i a d ∧
    t ++ pystr "|" ++ m ≠ t.
Proof.
  intros. split.
  - unfold NewsItem_new, post_init, article_id.
    cbn [news_id title link truthy negb].
    replace ((t ++ pystr "|" ++ m) ++ pystr "|" ++ l)
      with (t ++ pystr "|" ++ m ++ pystr "|" ++ l)
      by (by rewrite <- !app_assoc).
    by destruct (encode_utf8 (t ++ pystr "|" ++ m ++ pystr "|" ++ l)).
  - intros H. apply (f_equal length) in H.
    rewrite !length_app in H.
    change (length (pystr "|")) with 1%nat in H. lia.
Qed.

(** ** History store, further *)

Section HistoryFurther.

Variable set_order : list str → list str.
Hypothesis set_order_perm : ∀ l, set_order l ≡ₚ l.

Lemma trim_history_NoDup (h : NewsHistory) :
  NoDup (news_ids h) → NoDup (news_ids (trim_history set_order h)).
Proof.
  intros Hnd. unfold trim_history.
  destruct (limit h <? Z.of_nat (length (news_ids h))); [|done].
  apply (set_of_list_NoDup set_order set_order_perm).
Qed.

Lemma load_history_elem (file : HistoryFile) (x : str) :
  x ∈ _load_history set_order file ↔ x ∈ stored_ids file.
Proof.
  destruct file as [| |[[l|t|k|]|]]; cbn [_load_history stored_ids];
    try done; apply (set_of_list_elem set_order set_order_perm).
Qed.

Lemma load_history_NoDup (file : HistoryFile) :
  NoDup (_load_history set_order file).
Proof.
  destruct file as [| |[[l|t|k|]|]]; cbn [_load_history];
    try apply NoDup_nil_2;
    apply (set_of_list_NoDup set_order set_order_perm).
Qed.

End HistoryFurther.

(** X4. Loading never fails and yields a set: for a history file that is
    missing, unreadable, or an object whose [news_ids] entry is absent, an
    array of strings, a string, an object or a value [set()] rejects, no
    identifier is loaded twice, and an identifier is loaded exactly when
    it is an element of the array, a character of the string or a key of
    the object; every other case gives the empty set. *)
Theorem load_history_reads_the_array_or_nothing :
  ∀ (set_order : list str → list str) (file : HistoryFile),
    (∀ l, set_order l ≡ₚ l) →
    NoDup (_load_history set_order file) ∧
    (∀ x, x ∈ _load_history set_order file ↔ x ∈ stored_ids file) ∧
    (∀ s c, file = FileData (Some (IdsString s)) →
            [c] ∈ _load_history set_order file ↔ c ∈ s) ∧
    (stored_ids file = [] → _load_history set_order file = []).
Proof.
  intros set_order file Hperm. split; [by apply load_history_NoDup|].
  split; [intros x; by apply load_history_elem|]. split.
  - intros t c ->. rewrite load_history_elem by done.
    cbn [stored_ids]. rewrite list_elem_of_fmap. split.
    + by intros (c' & [= ->] & Hc).
    + intros Hc. by exists c.
  - intros Hnil.
    destruct (_load_history set_order file) as [|x l] eqn:Hl; [done|].
    assert (Hx : x ∈ stored_ids file).
    { apply (load_history_elem set_order Hperm). rewrite Hl. left. }
    rewrite Hnil in Hx. by apply elem_of_nil in Hx.
Qed.

Lemma load_history_reads_the_array_or_nothing_witness :
  NoDup (_load_history (λ l, l)
           (FileData (Some (IdsArray [id_a; id_b; id_a])))).
Proof.
  refine (proj1 (load_history_reads_the_array_or_nothing
                   (λ l, l) (FileData (Some (IdsArray [id_a; id_b; id_a])))
                   _)).
  intros l. reflexivity.
Defined.

(** An array with a repeated identifier, and a string in place of the
    array. *)
Example load_history_examples :
  _load_history (λ l, l) (FileData (Some (IdsArray [id_a; id_b; id_a])))
  = [id_b; id_a] ∧
  _load_history (λ l, l) (FileData (Some (IdsString (pystr "aba"))))
  = [pystr "b"; pystr "a"] ∧
  _load_history (λ l, l) (FileData (Some IdsRejected)) = [].
Proof. repeat split; vm_compute; reflexivity. Qed.

(** X5. Saving and loading again gives back the store: after a save that
    could write, a history built from the file holds exactly the
    identifiers kept in memory, as many of them, under the same limit. *)
Theorem save_then_load_round_trip :
  ∀ (set_order : list str → list str) (h : NewsHistory)
    (file : HistoryFile) (opened : bool),
    (∀ l, set_order l ≡ₚ l) → NoDup (news_ids h) →
    let saved := save_history set_order true h in
    let reloaded :=
      NewsHistory_new set_order (history_file_after (snd saved) opened file)
                      (limit h) in
    same_set (news_ids reloaded) (news_ids (fst saved)) ∧
    length (news_ids reloaded) = length (news_ids (fst saved)) ∧
    limit reloaded = limit (fst saved).
Proof.
  intros set_order h file opened Hperm Hnd saved reloaded.
  unfold reloaded, saved, save_history, NewsHistory_new.
  cbn [fst snd history_file_after _load_history news_ids limit].
  pose proof (trim_history_NoDup set_order Hperm h Hnd) as Hnd'.
  repeat split.
  - by apply set_of_list_elem.
  - by apply set_of_list_elem.
  - by apply set_of_list_length.
  - unfold trim_history.
    by destruct (limit h <? Z.of_nat (length (news_ids h))).
Qed.

Lemma id_a_b_NoDup : NoDup [id_a; id_b].
Proof.
  apply NoDup_cons. split; [|apply NoDup_singleton].
  rewrite list_elem_of_singleton. intros H. vm_compute in H. discriminate.
Qed.

Lemma save_then_load_round_trip_witness :
  let saved := save_history (λ l, l) true (mkNewsHistory [id_a; id_b] 1) in
  let reloaded :=
    NewsHistory_new (λ l, l)
                    (history_file_after (snd saved) true FileMissing) 1 in
  same_set (news_ids reloaded) (news_ids (fst saved)) ∧
  length (news_ids reloaded) = length (news_ids (fst saved)) ∧
  limit reloaded = limit (fst saved).
Proof.
  apply (save_then_load_round_trip (λ l, l) (mkNewsHistory [id_a; id_b] 1)
           FileMissing true).
  - intros l. reflexivity.
  - exact id_a_b_NoDup.
Defined.

(** X6. Adding a record makes it a duplicate, changes the answer for no
    record with another identifier, keeps the set free of repetitions and
    the limit as it was, and adds at most one identifier; adding a record
    already present changes nothing.  The limit is not enforced here. *)
Theorem add_item_then_is_duplicate :
  ∀ (set_order : list str → list str) (h : NewsHistory) (item : NewsItem),
    (∀ l, set_order l ≡ₚ l) → NoDup (news_ids h) →
    let h' := add_item set_order h item in
    is_duplicate h' item = true ∧
    (∀ other, news_id other ≠ news_id item →
              is_duplicate h' other = is_duplicate h other) ∧
    NoDup (news_ids h') ∧
    limit h' = limit h ∧
    (is_duplicate h item = true → h' = h) ∧
    (is_duplicate h item = false →
     length (news_ids h') = S (length (news_ids h))).
Proof.
  intros set_order h item Hperm Hnd h'. unfold h', add_item, is_duplicate,
    set_in.
  destruct (decide (news_id item ∈ news_ids h)) as [Hin|Hin].
  - rewrite !(bool_decide_true _ Hin). repeat split; try done.
  - rewrite !(bool_decide_false _ Hin). cbn [news_ids limit].
    assert (Hnd' : NoDup (news_ids h ++ [news_id item])).
    { apply NoDup_app. repeat split; [done| |apply NoDup_singleton].
      intros x Hx Hx'. apply list_elem_of_singleton in Hx'. by subst. }
    repeat split; try done.
    + apply bool_decide_eq_true, set_of_list_elem; [done|].
      apply elem_of_app. right. by apply list_elem_of_singleton.
    + intros other Hne. apply bool_decide_ext.
      rewrite set_of_list_elem, elem_of_app, list_elem_of_singleton by done.
      tauto.
    + by apply set_of_list_NoDup.
    + intros _. rewrite set_of_list_length by done.
      rewrite length_app. simpl. lia.
Qed.

Lemma add_item_then_is_duplicate_witness :
  is_duplicate (add_item (λ l, l) (mkNewsHistory [id_a] 500) item_A) item_A
  = true.
Proof.
  apply (add_item_then_is_duplicate (λ l, l) (mkNewsHistory [id_a] 500)
           item_A).
  - intros l. reflexivity.
  - apply NoDup_singleton.
Defined.

(** X7. With a positive limit a save keeps at most [limit] identifiers:
    a store within the limit is left as it is, a larger one is cut down
    to exactly the last [limit] identifiers of its iteration order; what
    is written, when the write succeeds, is what is kept, and a failed
    write still leaves the store cut down. *)
Theorem save_history_keeps_the_last_limit_ids :
  ∀ (set_order : list str → list str) (h : NewsHistory) (w : bool),
    (∀ l, set_order l ≡ₚ l) → NoDup (news_ids h) → 0 < limit h →
    let h' := fst (save_history set_order w h) in
    let n := length (news_ids h) in
    Z.of_nat (length (news_ids h')) ≤ limit h ∧
    (Z.of_nat n ≤ limit h → h' = h) ∧
    (limit h < Z.of_nat n →
     same_set (news_ids h') (drop (n - Z.to_nat (limit h)) (news_ids h)) ∧
     Z.of_nat (length (news_ids h')) = limit h) ∧
    snd (save_history set_order w h)
      = (if w then Some (news_ids h') else None).
Proof.
  intros set_order h w Hperm Hnd Hpos h' n.
  unfold h', save_history, trim_history. cbn [fst snd].
  destruct (Z.ltb_spec (limit h) (Z.of_nat (length (news_ids h))))
    as [Hgt|Hle].
  - assert (Hslice : slice_from (- limit h) (news_ids h)
                     = drop (n - Z.to_nat (limit h)) (news_ids h)).
    { unfold slice_from. destruct (Z.ltb_spec (- limit h) 0); [|lia].
      f_equal. unfold n. lia. }
    assert (Hs : NoDup (slice_from (- limit h) (news_ids h))).
    { eapply sublist_NoDup; [done|apply slice_from_sublist]. }
    cbn [news_ids]. rewrite set_of_list_length by done.
    rewrite slice_from_neg_length by lia.
    repeat split; try lia.
    + rewrite <- Hslice. by apply set_of_list_elem.
    + rewrite <- Hslice. by apply set_of_list_elem.
  - repeat split; try lia; done.
Qed.

Lemma save_history_keeps_the_last_limit_ids_witness :
  let h := mkNewsHistory [id_a; id_b] 1 in
  Z.of_nat (length (news_ids (fst (save_history (λ l, l) true h)))) ≤ 1.
Proof.
  refine (proj1 (save_history_keeps_the_last_limit_ids
                   (λ l, l) (mkNewsHistory [id_a; id_b] 1) true _ _ _)).
  - intros l. reflexivity.
  - exact id_a_b_NoDup.
  - simpl. lia.
Defined.

(** ** Addresses *)

Lemma startswith_app (p s : str) : startswith (p ++ s) p = true.
Proof.
  induction p as [|a p IH]; [by destruct s|]. simpl.
  by rewrite Z.eqb_refl, IH.
Qed.

Lemma BASE_URL_is_absolute (u : str) : is_absolute (BASE_URL ++ u) = true.
Proof.
  unfold is_absolute.
  change BASE_URL with (pystr "https://" ++ pystr "vandal.elespanol.com").
  rewrite <- app_assoc, startswith_app. apply orb_true_r.
Qed.

Lemma absolutize_nonempty (u : str) :
  u ≠ [] → is_absolute (absolutize u) = true.
Proof.
  intros Hu. unfold absolutize. destruct u as [|c u]; [done|].
  cbn [truthy andb]. destruct (is_absolute (c :: u)) eqn:Habs; cbn [negb];
    [done|apply BASE_URL_is_absolute].
Qed.

Lemma absolutize_fixed (u : str) :
  u = [] ∨ is_absolute u = true → absolutize u = u.
Proof.
  unfold absolutize. intros [->|H]; [reflexivity|].
  rewrite H. cbn [negb]. by rewrite andb_false_r.
Qed.

Lemma absolutize_truthy (u : str) :
  truthy (absolutize u) = true → is_absolute (absolutize u) = true.
Proof.
  intros H. apply absolutize_nonempty. intros ->. discriminate.
Qed.

(** X8. The address normalisation used for links and images leaves the
    empty string and absolute addresses alone, prefixes every other
    address with the site origin, always ends on an empty or absolute
    address, and applying it twice changes nothing more. *)
Theorem absolutize_normalises :
  ∀ u : str,
    (u = [] → absolutize u = []) ∧
    (is_absolute u = true → absolutize u = u) ∧
    (u ≠ [] → is_absolute u = false → absolutize u = BASE_URL ++ u) ∧
    (u ≠ [] → is_absolute (absolutize u) = true) ∧
    absolutize (absolutize u) = absolutize u.
Proof.
  intros u. split; [|split; [|split; [|split]]].
  - intros ->. reflexivity.
  - intros H. apply absolutize_fixed. by right.
  - intros Hu Habs. unfold absolutize. rewrite Habs.
    by destruct u.
  - apply absolutize_nonempty.
  - apply absolutize_fixed. destruct u as [|c u]; [by left|].
    right. by apply absolutize_nonempty.
Qed.

Lemma absolutize_normalises_witness :
  absolutize (pystr "/noticia/a")
  = BASE_URL ++ pystr "/noticia/a".
Proof.
  apply (proj1 (proj2 (proj2 (absolutize_normalises (pystr "/noticia/a")))));
    [discriminate|reflexivity].
Defined.

(** X9. Page 1, and any page number below it, is the listing address
    itself; from page 2 on every page has an address of its own, different
    from the listing address. *)
Theorem page_url_distinct_pages :
  ∀ p q : Z,
    (p ≤ 1 → page_url p = NEWS_URL) ∧
    (2 ≤ p → page_url p ≠ NEWS_URL) ∧
    (2 ≤ p → 2 ≤ q → page_url p = page_url q → p = q).
Proof.
  intros p q. unfold page_url. split; [|split].
  - intros Hp. destruct (Z.ltb_spec 1 p); [lia|done].
  - intros Hp. destruct (Z.ltb_spec 1 p); [|lia].
    intros Heq. apply (f_equal length) in Heq.
    rewrite !length_app in Heq.
    change (length (pystr "/")) with 1%nat in Heq. lia.
  - intros Hp Hq. destruct (Z.ltb_spec 1 p); [|lia].
    destruct (Z.ltb_spec 1 q); [|lia].
    intros Heq. do 2 apply app_inv_head in Heq.
    apply str_of_nat_inj in Heq. lia.
Qed.

Lemma page_url_distinct_pages_witness : page_url 2 ≠ NEWS_URL.
Proof.
  apply (proj1 (proj2 (page_url_distinct_pages 2 2))). lia.
Defined.

(** ** Listing records *)

Lemma NewsItem_new_fields t s l i a d item :
  NewsItem_new t s l i a d = Some item →
  title item = t ∧ summary item = s ∧ link item = l ∧ image_url item = i ∧
  author item = a ∧ published_date item = d ∧
  article_id t l = Some (news_id item).
Proof.
  unfold NewsItem_new, post_init. cbn [news_id title link truthy negb].
  destruct (article_id t l) as [id|]; [|discriminate].
  intros [= <-]. by cbn.
Qed.

Lemma extract_article_fields (article : Element) (item : NewsItem) :
  extract_article article = Some item →
  ∃ f, extract_fields article = Some f ∧
       truthy (f_title f) = true ∧ truthy (f_link f) = true ∧
       title item = f_title f ∧ summary item = f_summary f ∧
       link item = f_link f ∧ image_url item = f_image_url f ∧
       author item = f_author f ∧
       published_date item = f_published_date f ∧
       article_id (title item) (link item) = Some (news_id item).
Proof.
  unfold extract_article. intros H.
  destruct (extract_fields article) as [f|]; [|discriminate].
  cbn in H.
  destruct (truthy (f_title f)) eqn:Ht; [|discriminate].
  destruct (truthy (f_link f)) eqn:Hl; [|discriminate].
  cbn [andb] in H. apply NewsItem_new_fields in H.
  destruct H as (H1 & H2 & H3 & H4 & H5 & H6 & H7).
  exists f. rewrite H1, H3. repeat split; done.
Qed.

Lemma before_space_no_space (s : str) : 32 ∉ before_space s.
Proof.
  induction s as [|c r IH]; simpl; [apply not_elem_of_nil|].
  destruct (Z.eqb_spec c 32); [apply not_elem_of_nil|].
  rewrite not_elem_of_cons. split; [congruence|done].
Qed.

Lemma first_attr_no_space (t : Tag) (names : list str) (v : str) :
  first_attr t names = Some v → 32 ∉ v.
Proof.
  induction names as [|n r IH]; simpl; [discriminate|].
  destruct (attr (tag_attrs t) n) as [w|]; [|exact IH].
  intros [= <-]. case_bool_decide as Hw; [apply before_space_no_space|done].
Qed.

Lemma absolutize_no_space (u : str) : 32 ∉ u → 32 ∉ absolutize u.
Proof.
  intros Hu. unfold absolutize.
  destruct (truthy u && negb (is_absolute u)); [|done].
  assert (Hb : bool_decide (32 ∈ BASE_URL) = false)
    by (vm_compute; reflexivity).
  apply bool_decide_eq_false in Hb. rewrite elem_of_app. tauto.
Qed.

Lemma extract_fields_Some (article : Element) (f : Fields) :
  extract_fields article = Some f →
  ∃ title_tag,
    first_match article title_selectors = Some title_tag ∧
    f_title f = tag_text title_tag ∧
    f_link f = absolutize (tag_get title_tag (pystr "href")) ∧
    f_image_url f
      = absolutize <$> (first_match article image_selectors
                          ≫= λ t, first_attr t image_attrs).
Proof.
  unfold extract_fields.
  destruct (first_match article title_selectors) as [title_tag|];
    [|discriminate].
  intros [= <-]. exists title_tag.
  cbn [f_title f_link f_image_url]. repeat split.
Qed.

(** X10. Every record a listing page yields has a non-empty title and an
    absolute link, carries the digest of its own title and link as
    identifier, and has an image address that is absent, empty or
    absolute and holds no space (of a density list only the first entry
    is kept). *)
Theorem listing_records_are_well_formed :
  ∀ (lower : str → str) (W : World) (page : Z) (item : NewsItem),
    item ∈ fetch_gaming_news lower W page →
    title item ≠ [] ∧
    is_absolute (link item) = true ∧
    article_id (title item) (link item) = Some (news_id item) ∧
    ∀ u, image_url item = Some u →
         (u = [] ∨ is_absolute u = true) ∧ 32 ∉ u.
Proof.
  intros lower W page item Hin. unfold fetch_gaming_news in Hin.
  destruct (load_listing W page) as [soup|e];
    [|by apply elem_of_nil in Hin].
  cbv zeta in Hin. apply list_elem_of_omap in Hin as (article & _ & Hext).
  apply extract_article_fields in Hext
    as (f & Hf & Ht & Hl & Et & _ & El & Ei & _ & _ & Hid).
  apply extract_fields_Some in Hf as (title_tag & _ & _ & Fl & Fi).
  split; [rewrite Et; intros H0; rewrite H0 in Ht; discriminate|].
  split; [rewrite El, Fl; apply absolutize_truthy; by rewrite <- Fl|].
  split; [done|].
  intros u Hu. rewrite Ei, Fi in Hu.
  destruct (first_match article image_selectors) as [image_tag|];
    [|discriminate].
  cbn [mbind option_bind] in Hu.
  destruct (first_attr image_tag image_attrs) as [raw|] eqn:Hraw;
    [|discriminate].
  injection Hu as <-. split.
  - destruct raw as [|c raw]; [by left|right].
    by apply absolutize_nonempty.
  - apply absolutize_no_space. by eapply first_attr_no_space.
Qed.

Lemma listing_records_are_well_formed_witness :
  is_absolute (link item_A) = true.
Proof.
  apply (listing_records_are_well_formed (λ s, s)
           (site [article_A; article_B]) 1 item_A).
  rewrite site_page_1. apply list_elem_of_here.
Defined.

Lemma omap_length {A B : Type} (f : A → option B) (l : list A) :
  (length (omap f l) ≤ length l)%nat.
Proof.
  induction l as [|x l IH]; [done|].
  change (omap f (x :: l))
    with (match f x with Some y => y :: omap f l | None => omap f l end).
  destruct (f x); cbn [length]; lia.
Qed.

Lemma select_articles_first (soup : Soup) (selectors pre post : list str)
    (sel : str) :
  selectors = pre ++ sel :: post →
  Forall (λ s, soup_select soup s = []) pre →
  soup_select soup sel ≠ [] →
  select_articles soup selectors = soup_select soup sel.
Proof.
  intros -> Hpre Hsel. induction Hpre as [|s pre Hs _ IH]; simpl.
  - by destruct (soup_select soup sel).
  - by rewrite Hs.
Qed.

Lemma select_articles_none (soup : Soup) (selectors : list str) :
  Forall (λ s, soup_select soup s = []) selectors →
  select_articles soup selectors = [].
Proof.
  induction 1 as [|s r Hs _ IH]; simpl; [done|]. by rewrite Hs.
Qed.

(** X11. A listing page yields records only when the request returned, its
    status was not an error status, the debug snapshot could be written and
    the page could be parsed; any of these failing gives no record. *)
Theorem listing_page_needs_a_clean_load :
  ∀ (lower : str → str) (W : World) (page : Z),
    fetch_gaming_news lower W page ≠ [] →
    ∃ response soup,
      session_get W (page_url page) = Ok response ∧
      ¬ (400 ≤ status_code response < 600) ∧
      write_debug W (debug_page page) (text response) = Ok tt ∧
      parse_html W (text response) = Ok soup.
Proof.
  intros lower W page Hne. unfold fetch_gaming_news, load_listing in Hne.
  destruct (session_get W (page_url page)) as [response|e] eqn:Hget;
    [|done].
  assert (Hstatus : ¬ (400 ≤ status_code response < 600)).
  { intros [Hlo Hhi]. apply Hne. unfold raise_for_status.
    destruct (Z.leb_spec 400 (status_code response)); [|lia].
    destruct (Z.ltb_spec (status_code response) 600); [|lia].
    reflexivity. }
  destruct (raise_for_status response) as [[]|e]; [|done].
  destruct (write_debug W (debug_page page) (text response)) as [[]|e]
    eqn:Hwrite; [|done].
  destruct (parse_html W (text response)) as [soup|e] eqn:Hparse; [|done].
  exists response, soup. split; [reflexivity|]. split; [exact Hstatus|].
  split; assumption.
Qed.

Lemma listing_page_needs_a_clean_load_witness :
  ∃ response soup,
    session_get (site [article_A; article_B]) (page_url 1) = Ok response ∧
    ¬ (400 ≤ status_code response < 600) ∧
    write_debug (site [article_A; article_B]) (debug_page 1) (text response)
      = Ok tt ∧
    parse_html (site [article_A; article_B]) (text response) = Ok soup.
Proof.
  apply (listing_page_needs_a_clean_load (λ s, s)
           (site [article_A; article_B]) 1).
  rewrite site_page_1. discriminate.
Defined.

(** X12. On a page that loaded, the records come, in document order and at
    most one per block, from the blocks of the first article selector that
    matches anything; the heading-link scan is used only when no article
    selector matches at all. *)
Theorem listing_uses_first_matching_block_selector :
  ∀ (lower : str → str) (W : World) (page : Z) (soup : Soup),
    load_listing W page = Ok soup →
    (∀ pre sel post,
       article_selectors = pre ++ sel :: post →
       Forall (λ s, soup_select soup s = []) pre →
       soup_select soup sel ≠ [] →
       fetch_gaming_news lower W page
       = omap extract_article (soup_select soup sel) ∧
       (length (fetch_gaming_news lower W page)
          ≤ length (soup_select soup sel))%nat) ∧
    (Forall (λ s, soup_select soup s = []) article_selectors →
     fetch_gaming_news lower W page
     = omap extract_article (heading_articles lower soup)).
Proof.
  intros lower W page soup Hload. unfold fetch_gaming_news.
  rewrite Hload. cbv zeta. split.
  - intros pre sel post Heq Hpre Hsel.
    rewrite (select_articles_first soup _ pre post sel Heq Hpre Hsel).
    assert (He : omap extract_article
                   match soup_select soup sel with
                   | [] => heading_articles lower soup
                   | _ :: _ => soup_select soup sel
                   end = omap extract_article (soup_select soup sel))
      by by destruct (soup_select soup sel).
    rewrite He. split; [done|]. apply omap_length.
  - intros Hnone. by rewrite select_articles_none.
Qed.

Lemma listing_uses_first_matching_block_selector_witness :
  fetch_gaming_news (λ s, s) (site [article_A; article_B]) 1
  = omap extract_article
         (soup_select (page_soup [article_A; article_B]) (pystr "article")).
Proof.
  refine (proj1 (proj1 (listing_uses_first_matching_block_selector
                   (λ s, s) (site [article_A; article_B]) 1
                   (page_soup [article_A; article_B]) _)
                 (map pystr ["article.noticia"; "div.article"; "div.card";
                             ".cardNoticia"; ".noticia"; "div.item"]%string)
                 (pystr "article") [pystr ".article-item"] _ _ _)).
  - reflexivity.
  - reflexivity.
  - repeat constructor.
  - discriminate.
Defined.

(** ** Detail enrichment, further *)

Lemma set_summary_same (item : NewsItem) : set_summary item (summary item) = item.
Proof. by destruct item. Qed.

Lemma set_image_url_same (item : NewsItem) :
  set_image_url item (image_url item) = item.
Proof. by destruct item. Qed.

Lemma detail_summary_form (soup : Soup) (selectors : list str)
    (item : NewsItem) :
  ∃ s, fst (detail_summary soup selectors item) = set_summary item s.
Proof.
  induction selectors as [|sel r IH]; simpl.
  - exists (summary item). by rewrite set_summary_same.
  - destruct (soup_select_one soup sel); [|exact IH].
    case_bool_decide; eexists; reflexivity.
Qed.

Lemma detail_image_form (soup : Soup) (selectors : list str)
    (item : NewsItem) :
  ∃ o, fst (detail_image soup selectors item) = set_image_url item o ∧
       (o = image_url item ∨ ∃ v, o = Some (absolutize v)).
Proof.
  induction selectors as [|sel r IH]; simpl.
  - exists (image_url item). rewrite set_image_url_same. auto.
  - destruct (soup_select_one soup sel) as [main_image|]; [|exact IH].
    unfold bind. case_bool_decide.
    + eexists. split; [reflexivity|]. cbn. eauto.
    + destruct (attr (tag_attrs main_image) (pystr "data-src")) as [v|].
      { eexists. split; [reflexivity|]. cbn. eauto. }
      destruct (attr (tag_attrs main_image) (pystr "src")) as [v|].
      { eexists. split; [reflexivity|]. cbn. eauto. }
      exists (absolutize <$> image_url item). split; [by destruct item|].
      destruct (image_url item) as [v|]; cbn; eauto.
Qed.

Lemma enrich_body_form (W : World) (item : NewsItem) :
  ∃ s o,
    fst (enrich_body W item) = set_image_url (set_summary item s) o ∧
    (truthy_opt (image_url item) = true → o = image_url item) ∧
    (o = image_url item ∨ ∃ v, o = Some (absolutize v)).
Proof.
  assert (Hsame : ∃ s o,
    item = set_image_url (set_summary item s) o ∧
    (truthy_opt (image_url item) = true → o = image_url item) ∧
    (o = image_url item ∨ ∃ v, o = Some (absolutize v))).
  { exists (summary item), (image_url item). split; [by destruct item|].
    auto. }
  cbv [enrich_body bind lift get_state ret].
  destruct (session_get W (link item)) as [response|e1]; [|exact Hsame].
  destruct (raise_for_status response) as [[]|e2]; [|exact Hsame].
  destruct (write_debug W (debug_article item) (text response))
    as [[]|e3]; [|exact Hsame].
  destruct (parse_html W (text response)) as [soup|e4]; [|exact Hsame].
  destruct (detail_summary_form soup detail_summary_selectors item)
    as [s Hs].
  pose proof (detail_summary_returns soup detail_summary_selectors item)
    as Hr.
  destruct (detail_summary soup detail_summary_selectors item)
    as [item1 r1]. cbn [fst snd] in Hs, Hr. subst r1 item1.
  cbn [image_url set_summary].
  destruct (truthy_opt (image_url item)) eqn:Himg; cbn [negb].
  - exists s, (image_url item). split; [|auto].
    cbn [fst]. by destruct item.
  - destruct (detail_image_form soup detail_image_selectors
                (set_summary item s)) as (o & Ho & Hcases).
    exists s, o. split; [exact Ho|]. split; [discriminate|exact Hcases].
Qed.

(** X13. Enrichment touches the summary and the image only: title, link,
    author, date and identifier come back as they were given; a record
    that already has a non-empty image keeps it; and an image set by
    enrichment went through the address normalisation. *)
Theorem enrichment_changes_summary_and_image_only :
  ∀ (W : World) (item : NewsItem),
    let r := fetch_article_details W item in
    title r = title item ∧ link r = link item ∧ author r = author item ∧
    published_date r = published_date item ∧ news_id r = news_id item ∧
    (truthy_opt (image_url item) = true → image_url r = image_url item) ∧
    (image_url r = image_url item ∨
     ∃ v, image_url r = Some (absolutize v)).
Proof.
  intros W item r. unfold r, fetch_article_details.
  destruct (negb (truthy (link item))); [by auto 10|].
  destruct (enrich_body_form W item) as (s & o & -> & Hkeep & Hcases).
  cbn [title link author published_date news_id image_url set_image_url
       set_summary].
  by auto 10.
Qed.

Lemma enrichment_changes_summary_and_image_only_witness :
  image_url (fetch_article_details offline
               (set_image_url sample_item (Some (pystr "https://x/y.png"))))
  = Some (pystr "https://x/y.png").
Proof.
  apply (enrichment_changes_summary_and_image_only offline
           (set_image_url sample_item (Some (pystr "https://x/y.png")))).
  reflexivity.
Defined.

Lemma detail_summary_first (soup : Soup) (selectors pre post : list str)
    (sel : str) (t : Tag) (item : NewsItem) :
  selectors = pre ++ sel :: post →
  Forall (λ s, soup_select_one soup s = None) pre →
  soup_select_one soup sel = Some t →
  summary (fst (detail_summary soup selectors item))
  = if bool_decide (sel = meta_description)
    then tag_get t (pystr "content") else tag_text t.
Proof.
  intros -> Hpre Hsel. induction Hpre as [|s pre Hs _ IH]; simpl.
  - rewrite Hsel. by case_bool_decide.
  - by rewrite Hs.
Qed.

Lemma detail_summary_none (soup : Soup) (selectors : list str)
    (item : NewsItem) :
  Forall (λ s, soup_select_one soup s = None) selectors →
  fst (detail_summary soup selectors item) = item.
Proof.
  induction 1 as [|s r Hs _ IH]; simpl; [done|]. by rewrite Hs.
Qed.

Lemma detail_image_summary (soup : Soup) (selectors : list str)
    (item : NewsItem) :
  summary (fst (detail_image soup selectors item)) = summary item.
Proof.
  destruct (detail_image_form soup selectors item) as (o & -> & _).
  reflexivity.
Qed.

(** X14. When the detail page loads, the first summary locator of the
    chain that matches replaces the listing summary with the element's
    stripped text (the [content] attribute for the description meta
    tag), even when that text is empty; when none matches the summary
    stays. *)
Theorem detail_summary_overrides_listing_summary :
  ∀ (W : World) (item : NewsItem) (response : Response) (soup : Soup),
    link item ≠ [] →
    session_get W (link item) = Ok response →
    raise_for_status response = Ok tt →
    write_debug W (debug_article item) (text response) = Ok tt →
    parse_html W (text response) = Ok soup →
    (∀ pre sel post t,
       detail_summary_selectors = pre ++ sel :: post →
       Forall (λ s, soup_select_one soup s = None) pre →
       soup_select_one soup sel = Some t →
       summary (fetch_article_details W item)
       = if bool_decide (sel = meta_description)
         then tag_get t (pystr "content") else tag_text t) ∧
    (Forall (λ s, soup_select_one soup s = None) detail_summary_selectors →
     summary (fetch_article_details W item) = summary item).
Proof.
  intros W item response soup Hlink Hget Hstatus Hwrite Hparse.
  assert (Hbody : summary (fetch_article_details W item)
    = summary (fst (detail_summary soup detail_summary_selectors item))).
  { unfold fetch_article_details.
    destruct (link item) as [|c l] eqn:El; [done|]. cbn [truthy negb].
    cbv [enrich_body bind lift get_state ret].
    rewrite El, Hget, Hstatus, Hwrite, Hparse.
    pose proof (detail_summary_returns soup detail_summary_selectors item)
      as Hr.
    destruct (detail_summary soup detail_summary_selectors item)
      as [item1 r1]. cbn [fst snd] in *. subst r1.
    destruct (negb (truthy_opt (image_url item1))); [|done].
    apply detail_image_summary. }
  rewrite Hbody. split.
  - intros pre sel post t Heq Hpre Hsel.
    by apply (detail_summary_first soup _ pre post).
  - intros Hnone. by rewrite detail_summary_none.
Qed.

Lemma detail_summary_overrides_listing_summary_witness :
  summary (fetch_article_details detail_site sample_item)
  = pystr "Full summary".
Proof.
  refine (proj1 (detail_summary_overrides_listing_summary
                   detail_site sample_item
                   (mkResponse 200 (link sample_item) []) detail_soup
                   _ _ _ _ _)
                (map pystr ["div.entradilla"; ".article-summary"]%string)
                (pystr ".summary")
                (map pystr [".intro"; ".excerpt"]%string ++ [meta_description])
                (mkTag (pystr "Full summary") []) _ _ _).
  - discriminate.
  - reflexivity.
  - reflexivity.
  - reflexivity.
  - reflexivity.
  - reflexivity.
  - repeat constructor.
  - reflexivity.
Defined.

(** ** Image download *)



Lemma slice_to_nonneg {A : Type} (n : Z) (l : list A) :
  0 ≤ n → slice_to n l = take (Z.to_nat n) l.
Proof.
  intros Hn. unfold slice_to. destruct (Z.ltb_spec n 0); [lia|].
  destruct (Z.le_gt_cases n (Z.of_nat (length l))).
  - by rewrite Z.min_l.
  - rewrite Z.min_r, Nat2Z.id by lia.
    by rewrite !take_ge by lia.
Qed.

Lemma slice_to_length {A : Type} (n : Z) (l : list A) :
  0 ≤ n → Z.of_nat (length (slice_to n l)) = Z.min n (Z.of_nat (length l)).
Proof.
  intros Hn. rewrite slice_to_nonneg, length_take by done. lia.
Qed.

(** X16. The file name of a downloaded image is [image_], at most 50
    characters of the cleaned title with no space among them, a dot, and
    an extension that is either taken from the address, when its lower
    case is one of jpg, jpeg, png and gif, or [jpg]. *)
Theorem image_name_shape :
  ∀ (lower strip : str → str) (item : NewsItem) (url : str),
    ∃ safe ext,
      image_name lower strip item url
      = pystr "image_" ++ safe ++ pystr "." ++ ext ∧
      (length safe ≤ 50)%nat ∧
      (32 ∉ safe) ∧
      (ext = pystr "jpg" ∨
       (ext = before_first 63 (after_last 46 url) ∧
        lower ext ∈ image_extensions)).
Proof.
  intros lower strip item url. unfold image_name. cbv zeta.
  eexists _, _. split; [reflexivity|]. split; [|split].
  - rewrite slice_to_nonneg, length_take by lia. lia.
  - rewrite slice_to_nonneg by lia. intros Hin.
    eapply elem_of_sublist in Hin; [|apply sublist_take].
    unfold spaces_to_underscores in Hin.
    apply list_elem_of_In, in_map_iff in Hin as (c & Hc & _).
    destruct (Z.eqb_spec c 32); lia.
  - case_bool_decide; auto.
Qed.

(** ** Descriptions and captions *)

(** X17. With a non-negative [description_length] the description is the
    summary itself when it fits, else its first [description_length]
    characters followed by three dots; it is never longer than
    [description_length + 3]. *)
Theorem format_description_bounded :
  ∀ (cfg : Config) (item : NewsItem),
    0 ≤ description_length cfg →
    let n := description_length cfg in
    let len := Z.of_nat (length (summary item)) in
    (len ≤ n → format_description cfg item = summary item) ∧
    (n < len →
     format_description cfg item
     = take (Z.to_nat n) (summary item) ++ pystr "...") ∧
    Z.of_nat (length (format_description cfg item)) ≤ n + 3.
Proof.
  intros cfg item Hn n len. unfold format_description. fold n. fold len.
  rewrite slice_to_nonneg by done.
  destruct (Z.ltb_spec n len) as [Hlt|Hge].
  - split; [lia|]. split; [done|].
    rewrite length_app, length_take.
    change (length (pystr "...")) with 3%nat. lia.
  - split; [|split; [lia|]].
    + intros _. apply take_ge. unfold len in Hge. lia.
    + rewrite length_take. unfold len in Hge. lia.
Qed.

Lemma format_description_bounded_witness :
  format_description CONFIG sample_item = summary sample_item.
Proof.
  apply (format_description_bounded CONFIG sample_item).
  - cbn. lia.
  - vm_compute. discriminate.
Defined.

(** X18. With a [caption_max_length] of at least 3 a caption never
    exceeds it, whatever hashtags were drawn: a caption that fits is
    returned whole, a longer one is cut to its first
    [caption_max_length - 3] characters followed by three dots, exactly
    [caption_max_length] characters in all. *)
Theorem format_tiktok_caption_bounded :
  ∀ (cc : CaptionConfig) (selected : list str) (item : NewsItem),
    3 ≤ caption_max_length cc →
    let caption := format_tiktok_caption cc selected item in
    let body := caption_body cc selected item in
    let n := caption_max_length cc in
    Z.of_nat (length caption) ≤ n ∧
    (Z.of_nat (length body) ≤ n → caption = body) ∧
    (n < Z.of_nat (length body) →
     caption = take (Z.to_nat (n - 3)) body ++ pystr "..." ∧
     Z.of_nat (length caption) = n).
Proof.
  intros cc selected item Hmax caption body n.
  unfold caption, format_tiktok_caption. fold body. fold n. cbv zeta.
  destruct (Z.ltb_spec n (Z.of_nat (length body))) as [Hlt|Hge].
  - rewrite slice_to_nonneg by lia.
    assert (Hlen : Z.of_nat (length (take (Z.to_nat (n - 3)) body
                                     ++ pystr "...")) = n).
    { rewrite length_app, length_take.
      change (length (pystr "...")) with 3%nat. lia. }
    split; [lia|]. split; [lia|done].
  - split; [done|]. split; [done|lia].
Qed.

Lemma format_tiktok_caption_bounded_witness :
  Z.of_nat (length (format_tiktok_caption CAPTION_CONFIG
                      [pystr "Gaming"; pystr "Xbox"; pystr "PC"]
                      sample_item)) ≤ 150.
Proof.
  apply (format_tiktok_caption_bounded CAPTION_CONFIG
           [pystr "Gaming"; pystr "Xbox"; pystr "PC"] sample_item).
  cbn. lia.
Defined.

Example caption_example :
  format_tiktok_caption CAPTION_CONFIG [pystr "Gaming"; pystr "Xbox"]
                        sample_item
  = [0x1F3AE] ++ pystr " T" ++ nl ++ nl ++ pystr "listing summary" ++ nl ++ nl
    ++ [0x1F449] ++ pystr " Leer m" ++ [0xE1]
    ++ pystr "s: https://vandal.elespanol.com/n" ++ nl ++ nl
    ++ pystr "#Gaming #Xbox".
Proof. vm_compute. reflexivity. Qed.

(** ** Output directories *)

Lemma grows_refl (fs : FS) : grows fs fs.
Proof. intros q. by left. Qed.

Lemma grows_trans (fs1 fs2 fs3 : FS) :
  grows fs1 fs2 → grows fs2 fs3 → grows fs1 fs3.
Proof.
  intros H12 H23 q.
  destruct (H12 q) as [E12|[N1 D2]], (H23 q) as [E23|[N2 D3]].
  - left. congruence.
  - right. split; congruence.
  - right. split; congruence.
  - congruence.
Qed.

Lemma grows_keeps (fs fs' : FS) : grows fs fs' → keeps fs fs'.
Proof.
  intros Hg p n Hp. destruct (Hg p) as [E|[N _]]; congruence.
Qed.

Lemma grows_no_file (fs fs' : FS) (p : Path) :
  grows fs fs' → no_file_on fs p → no_file_on fs' p.
Proof.
  intros Hg Hn k c Hk H. destruct (Hg (take k p)) as [E|[_ D]].
  - apply (Hn k c Hk). congruence.
  - congruence.
Qed.

Lemma grows_insert_dir (fs : FS) (p : Path) :
  fs !! p = None → grows fs (<[p := Dir]> fs).
Proof.
  intros Hp q. destruct (decide (p = q)) as [<-|Hne].
  - right. by rewrite lookup_insert_eq.
  - left. by rewrite lookup_insert_ne.
Qed.

(** [mkdir] with parents succeeds whenever no file is in the way, adds
    directories only, and leaves the whole chain of directories. *)
Lemma mkdir_from_grows (rest : Path) : ∀ (made : Path) (fs : FS),
  (∀ k c, (1 ≤ k)%nat → fs !! (made ++ take k rest) ≠ Some (File c)) →
  ∃ fs', mkdir_from made rest fs = (fs', Ok tt) ∧ grows fs fs' ∧
         ∀ k, (1 ≤ k ≤ length rest)%nat →
              fs' !! (made ++ take k rest) = Some Dir.
Proof.
  induction rest as [|a rest IH]; intros made fs Hclear.
  - exists fs. split; [done|]. split; [apply grows_refl|].
    intros k Hk. simpl in Hk. lia.
  - cbn [mkdir_from]. unfold child.
    assert (H1 : ∀ c, fs !! (made ++ [a]) ≠ Some (File c)).
    { intros c. pose proof (Hclear 1%nat c ltac:(lia)) as H1.
      cbn [take] in H1. by rewrite take_0 in H1. }
    assert (Hshift : ∀ k, (made ++ [a]) ++ take k rest
                          = made ++ take (S k) (a :: rest)).
    { intros k. by rewrite <- app_assoc. }
    assert (Hfinish : ∀ fs0 fs',
      grows fs fs0 → fs0 !! (made ++ [a]) = Some Dir → grows fs0 fs' →
      (∀ k, (1 ≤ k ≤ length rest)%nat →
            fs' !! ((made ++ [a]) ++ take k rest) = Some Dir) →
      grows fs fs' ∧
      ∀ k, (1 ≤ k ≤ length (a :: rest))%nat →
           fs' !! (made ++ take k (a :: rest)) = Some Dir).
    { intros fs0 fs' Hg0 Hd0 Hg Hdirs. split; [by eapply grows_trans|].
      intros [|[|k]] Hk; [lia| |].
      - cbn [take]. rewrite take_0. by apply (grows_keeps fs0 fs').
      - rewrite <- Hshift. apply Hdirs. simpl in Hk. lia. }
    destruct (fs !! (made ++ [a])) as [[|c]|] eqn:Hd.
    + destruct (IH (made ++ [a]) fs) as (fs' & Hrun & Hg & Hdirs).
      { intros k c Hk. rewrite Hshift. apply Hclear. lia. }
      exists fs'. split; [done|].
      apply (Hfinish fs fs'); try done. apply grows_refl.
    + by destruct (H1 c).
    + destruct (IH (made ++ [a]) (<[made ++ [a] := Dir]> fs))
        as (fs' & Hrun & Hg & Hdirs).
      { intros k c Hk. rewrite lookup_insert. case_decide; [discriminate|].
        rewrite Hshift. apply Hclear. lia. }
      exists fs'. split; [done|].
      apply (Hfinish (<[made ++ [a] := Dir]> fs) fs'); try done.
      * by apply grows_insert_dir.
      * apply lookup_insert_eq.
Qed.

Lemma mkdir_p_grows (p : Path) (fs : FS) :
  no_file_on fs p →
  ∃ fs', mkdir_p p fs = (fs', Ok tt) ∧ grows fs fs' ∧
         (p ≠ [] → fs' !! p = Some Dir).
Proof.
  intros Hclear.
  destruct (mkdir_from_grows p [] fs Hclear) as (fs' & Hrun & Hg & Hdirs).
  exists fs'. split; [done|]. split; [done|].
  intros Hp. rewrite <- (take_ge p (length p)) by lia.
  apply (Hdirs (length p)). destruct p; [done|simpl; lia].
Qed.

Lemma mkdir_from_dirs (rest : Path) : ∀ (made : Path) (fs : FS),
  (∀ k, (1 ≤ k ≤ length rest)%nat →
        fs !! (made ++ take k rest) = Some Dir) →
  mkdir_from made rest fs = (fs, Ok tt).
Proof.
  induction rest as [|a rest IH]; intros made fs Hdirs; [done|].
  cbn [mkdir_from]. unfold child.
  pose proof (Hdirs 1%nat ltac:(simpl; lia)) as H1. cbn [take] in H1.
  rewrite take_0 in H1. rewrite H1. apply IH.
  intros k Hk. rewrite <- app_assoc. apply (Hdirs (S k)). simpl. lia.
Qed.

Lemma prefixes_closed (a b c d e : str) (p : Path) (k : nat) :
  p ∈ [[a]; [a; b]; [a; c]; [a; c; d]; [a; c; e]] →
  (1 ≤ k ≤ length p)%nat →
  take k p ∈ [[a]; [a; b]; [a; c]; [a; c; d]; [a; c; e]].
Proof.
  intros Hp Hk.
  repeat (apply elem_of_cons in Hp as [->|Hp]);
    [..|by apply elem_of_nil in Hp];
    cbn [length] in Hk;
    destruct k as [|[|[|[|k]]]]; try lia; cbn [take];
    repeat first [apply list_elem_of_here | apply list_elem_of_further].
Qed.

Lemma output_dirs_closed (fs : FS) (p : Path) :
  (∀ q, q ∈ output_dirs → fs !! q = Some Dir) →
  p ∈ output_dirs → mkdir_p p fs = (fs, Ok tt).
Proof.
  intros Hall Hp. apply mkdir_from_dirs. intros k Hk.
  apply Hall. cbn [app].
  exact (prefixes_closed (pystr "gaming_news_output") (pystr "contenido")
           (pystr "logs") (pystr "logs") (pystr "debug") p k Hp Hk).
Qed.

Lemma wf_ensure_output_dir : wf_preserving _ensure_output_dir.
Proof.
  unfold _ensure_output_dir.
  repeat (apply wf_bind; [apply wf_mkdir_p|intros _]). apply wf_mkdir_p.
Qed.

(** X19. When no file stands in the way of the five output directories,
    [_ensure_output_dir] returns, only adds directories, leaves all five
    in place (the content directory that [save_content] relies on among
    them), keeps a well-formed tree well formed, and running it again
    changes nothing. *)
Theorem ensure_output_dir_establishes_the_directories :
  ∀ fs : FS,
    (∀ p, p ∈ output_dirs → no_file_on fs p) →
    ∃ fs',
      _ensure_output_dir fs = (fs', Ok tt) ∧
      (∀ p, p ∈ output_dirs → fs' !! p = Some Dir) ∧
      grows fs fs' ∧
      (fs_wf fs → fs_wf fs') ∧
      _ensure_output_dir fs' = (fs', Ok tt).
Proof.
  intros fs Hclear.
  assert (Hin : ∀ p, p ∈ output_dirs → p ∈ output_dirs) by done.
  unfold output_dirs in Hclear.
  destruct (mkdir_p_grows OUTPUT_DIR fs) as (fs1 & R1 & G1 & D1).
  { apply Hclear. apply list_elem_of_here. }
  destruct (mkdir_p_grows CONTENT_DIR fs1) as (fs2 & R2 & G2 & D2).
  { eapply grows_no_file; [exact G1|]. apply Hclear.
    repeat first [apply list_elem_of_here | apply list_elem_of_further]. }
  pose proof (grows_trans _ _ _ G1 G2) as G12.
  destruct (mkdir_p_grows LOGS_DIR fs2) as (fs3 & R3 & G3 & D3).
  { eapply grows_no_file; [exact G12|]. apply Hclear.
    repeat first [apply list_elem_of_here | apply list_elem_of_further]. }
  pose proof (grows_trans _ _ _ G12 G3) as G13.
  destruct (mkdir_p_grows LOG_SUBDIR fs3) as (fs4 & R4 & G4 & D4).
  { eapply grows_no_file; [exact G13|]. apply Hclear.
    repeat first [apply list_elem_of_here | apply list_elem_of_further]. }
  pose proof (grows_trans _ _ _ G13 G4) as G14.
  destruct (mkdir_p_grows DEBUG_SUBDIR fs4) as (fs5 & R5 & G5 & D5).
  { eapply grows_no_file; [exact G14|]. apply Hclear.
    repeat first [apply list_elem_of_here | apply list_elem_of_further]. }
  pose proof (grows_trans _ _ _ G14 G5) as G15.
  assert (Hrun : _ensure_output_dir fs = (fs5, Ok tt)).
  { unfold _ensure_output_dir. cbv [bind]. by rewrite R1, R2, R3, R4, R5. }
  assert (Hall : ∀ p, p ∈ output_dirs → fs5 !! p = Some Dir).
  { intros p Hp. unfold output_dirs in Hp.
    pose proof (grows_keeps _ _ G5) as K5.
    pose proof (grows_keeps _ _ (grows_trans _ _ _ G4 G5)) as K45.
    pose proof (grows_keeps _ _ (grows_trans _ _ _ G3 (grows_trans _ _ _ G4 G5)))
      as K35.
    pose proof (grows_keeps _ _
                  (grows_trans _ _ _ G2
                     (grows_trans _ _ _ G3 (grows_trans _ _ _ G4 G5))))
      as K25.
    repeat (apply elem_of_cons in Hp as [->|Hp]);
      [apply K25, D1|apply K35, D2|apply K45, D3|apply K5, D4|apply D5|
       by apply elem_of_nil in Hp]; discriminate. }
  exists fs5. split; [done|]. split; [done|]. split; [done|]. split.
  - intros Hwf. pose proof (wf_ensure_output_dir fs Hwf) as H.
    by rewrite Hrun in H.
  - unfold _ensure_output_dir. cbv [bind].
    rewrite !(output_dirs_closed fs5)
      by (done ||
          (unfold output_dirs;
           repeat first [apply list_elem_of_here
                        |apply list_elem_of_further])).
    reflexivity.
Qed.

Lemma empty_fs_no_file (p : Path) : no_file_on (∅ : FS) p.
Proof. intros k c _. by rewrite lookup_empty. Qed.

Lemma ensure_output_dir_establishes_the_directories_witness :
  ∃ fs',
    _ensure_output_dir (∅ : FS) = (fs', Ok tt) ∧
    fs' !! CONTENT_DIR = Some Dir ∧
    fs_wf fs'.
Proof.
  destruct (ensure_output_dir_establishes_the_directories ∅)
    as (fs' & Hrun & Hall & _ & Hwf & _).
  - intros p _. apply empty_fs_no_file.
  - exists fs'. split; [done|]. split.
    + apply Hall. unfold output_dirs.
      repeat first [apply list_elem_of_here | apply list_elem_of_further].
    + apply Hwf. intros p name H. rewrite lookup_empty in H. by destruct H.
Defined.

(** ** Materialization, further *)

(** X20. On a well-formed tree [save_content] ends, given enough
    iterations for its probing loop, and whatever the outcome (a return,
    an [OSError] from a [mkdir] or an [open], a [UnicodeEncodeError]
    half-way through the writes) the tree it leaves is well formed:
    whatever exists lies in a directory. *)
Theorem save_content_keeps_the_tree_well_formed :
  ∀ (lower strip : str → str) (W : World) (fuel : nat) (cfg : Config)
    (items : list NewsItem) (caps : list str) (date_str : str) (fs : FS),
    fs_wf fs → (size fs < fuel)%nat →
    ∃ fs' r,
      save_content lower W strip fuel cfg items caps date_str fs
      = Some (fs', r) ∧
      fs_wf fs'.
Proof.
  intros lower strip W fuel cfg items caps date_str fs Hwf Hf.
  destruct (allocate_dir_total fuel fs date_str Hf) as [d Hd].
  unfold save_content. rewrite Hd. cbn [mbind option_bind].
  pose proof (wf_save_into lower W strip cfg d items caps fs Hwf) as H.
  destruct (save_into lower W strip cfg d items caps fs) as [fs' r].
  by exists fs', r.
Qed.

Lemma save_content_keeps_the_tree_well_formed_witness :
  ∃ fs' r,
    save_content (λ s, s) offline (λ s, s) 3 CONFIG [surrogate_item]
                 [pystr "caption"] (pystr "2024-06-01") ready_fs
    = Some (fs', r) ∧
    fs_wf fs'.
Proof.
  apply (save_content_keeps_the_tree_well_formed
           (λ s, s) (λ s, s) offline 3 CONFIG [surrogate_item]
           [pystr "caption"] (pystr "2024-06-01") ready_fs ready_fs_wf).
  rewrite ready_fs_size. lia.
Defined.

(** X21. When the place of the content directory is taken by a file,
    [save_content] raises an [OSError] from its first [mkdir] and
    nothing is written; the probing loop is not even entered, since
    nothing exists under a file. *)
Theorem save_content_raises_on_a_file_in_the_way :
  ∀ (lower strip : str → str) (W : World) (fuel : nat) (cfg : Config)
    (items : list NewsItem) (caps : list str) (date_str : str)
    (fs : FS) (c : Content),
    fs_wf fs → fs !! CONTENT_DIR = Some (File c) →
    save_content lower W strip fuel cfg items caps date_str fs
    = Some (fs, Raise OSError).
Proof.
  intros lower strip W fuel cfg items caps date_str fs c Hwf Hc.
  assert (Hfree : fs !! child CONTENT_DIR date_str = None).
  { apply eq_None_not_Some. intros Hs.
    apply (Hwf CONTENT_DIR date_str) in Hs; [|discriminate]. congruence. }
  assert (Ho : fs !! OUTPUT_DIR = Some Dir).
  { apply (Hwf OUTPUT_DIR (pystr "contenido")); [|discriminate].
    unfold CONTENT_DIR in Hc. by rewrite Hc. }
  unfold save_content, allocate_dir.
  assert (Hprobe : probe_dir fuel fs date_str 1 (child CONTENT_DIR date_str)
                   = Some (child CONTENT_DIR date_str)).
  { apply path_exists_false in Hfree.
    destruct fuel; simpl; by rewrite Hfree. }
  rewrite Hprobe. cbn [mbind option_bind]. f_equal.
  unfold save_into. cbv [bind].
  assert (Hmk : mkdir_p (child CONTENT_DIR date_str) fs = (fs, Raise OSError)).
  { unfold mkdir_p, CONTENT_DIR, OUTPUT_DIR, child in *.
    cbn [app mkdir_from] in *. unfold child. cbn [app].
    by rewrite Ho, Hc. }
  by rewrite Hmk.
Qed.

Lemma blocked_fs_wf : fs_wf blocked_fs.
Proof.
  intros p name Hsome Hp. unfold blocked_fs in *.
  destruct (decide (CONTENT_DIR = child p name)) as [Heq|Hne].
  - unfold CONTENT_DIR in Heq. apply child_inj in Heq as [<- _].
    rewrite lookup_insert_ne by discriminate. apply lookup_insert_eq.
  - rewrite lookup_insert_ne in Hsome by done.
    destruct (decide (OUTPUT_DIR = child p name)) as [Heq|Hne2].
    + destruct p; [done|]. destruct p; discriminate.
    + rewrite lookup_insert_ne, lookup_empty in Hsome by done.
      by destruct Hsome.
Qed.

Lemma save_content_raises_on_a_file_in_the_way_witness :
  save_content (λ s, s) offline (λ s, s) 0 CONFIG [sample_item]
               [pystr "caption"] (pystr "2024-06-01") blocked_fs
  = Some (blocked_fs, Raise OSError).
Proof.
  apply (save_content_raises_on_a_file_in_the_way
           (λ s, s) (λ s, s) offline 0 CONFIG [sample_item]
           [pystr "caption"] (pystr "2024-06-01") blocked_fs (Text [])).
  - exact blocked_fs_wf.
  - apply lookup_insert_eq.
Defined.

(** ** A run after a run *)

Lemma enrich_and_record_detailed (set_order : list str → list str)
    (W : World) (new_news : list NewsItem) :
  ∀ self : Scraper,
    snd (enrich_and_record set_order W self new_news)
    = fetch_article_details W <$> new_news ∧
    config (fst (enrich_and_record set_order W self new_news)) = config self ∧
    limit (history (fst (enrich_and_record set_order W self new_news)))
    = limit (history self).
Proof.
  induction new_news as [|item rest IH]; intros self; [done|].
  cbn [enrich_and_record].
  set (self' := if negb _ then _ else self).
  assert (Hc : config self' = config self ∧
               limit (history self') = limit (history self)).
  { unfold self'. destruct (negb _); [|done]. cbn. split; [done|].
    unfold add_item. by destruct (set_in _ _). }
  destruct (IH self') as (H1 & H2 & H3).
  destruct (enrich_and_record set_order W self' rest) as [self'' dn].
  cbn [fst snd] in *. rewrite H1, H2, H3. by destruct Hc as [-> ->].
Qed.

(** X22. The loop of [main] that enriches and records: the records it
    hands on are the enriched inputs, in order; afterwards the history
    holds exactly what it held plus the identifiers of the inputs, and
    the configuration and the limit are untouched. *)
Theorem recording_adds_exactly_the_new_ids :
  ∀ (set_order : list str → list str) (W : World) (self : Scraper)
    (new_news : list NewsItem),
    (∀ l, set_order l ≡ₚ l) →
    let self' := fst (enrich_and_record set_order W self new_news) in
    snd (enrich_and_record set_order W self new_news)
    = fetch_article_details W <$> new_news ∧
    (∀ x, x ∈ news_ids (history self') ↔
          x ∈ news_ids (history self) ∨ x ∈ news_id <$> new_news) ∧
    config self' = config self ∧
    limit (history self') = limit (history self).
Proof.
  intros set_order W self new_news Hperm self'.
  destruct (enrich_and_record_detailed set_order W new_news self)
    as (H1 & H2 & H3).
  split; [done|]. split; [|done].
  intros x. by apply enrich_and_record_inserts.
Qed.

Lemma recording_adds_exactly_the_new_ids_witness :
  snd (enrich_and_record (λ l, l) offline fresh_scraper [item_A; item_B])
  = fetch_article_details offline <$> [item_A; item_B] ∧
  limit (history (fst (enrich_and_record (λ l, l) offline fresh_scraper
                         [item_A; item_B])))
  = limit (history fresh_scraper).
Proof.
  destruct (recording_adds_exactly_the_new_ids (λ l, l) offline
              fresh_scraper [item_A; item_B]) as (H1 & _ & _ & H4).
  - intros l. reflexivity.
  - split; [exact H1|exact H4].
Defined.



Example second_run_finds_nothing :
  get_unique_news (λ s, s) (site [article_A; article_B]) 5
    (fst (enrich_and_record (λ l, l) offline scraper_seen_A [item_B]))
    (Some 1)
  = Some (fst (enrich_and_record (λ l, l) offline scraper_seen_A [item_B]),
          ([], [item_A; item_B])).
Proof. vm_compute. reflexivity. Qed.

(** ** The home-page scan *)

Lemma collect_news_links_spec (all_links : list Tag) (t h : str) :
  (t, h) ∈ collect_news_links all_links →
  15 < Z.of_nat (length t) ∧
  (contains (pystr "/noticia/") h || contains (pystr "/noticias/") h) = true.
Proof.
  unfold collect_news_links. rewrite list_elem_of_omap.
  intros (link & _ & Hl).
  destruct (contains (pystr "/noticia/") (tag_get link (pystr "href"))
            || contains (pystr "/noticias/") (tag_get link (pystr "href")))
    eqn:Hc; [|discriminate].
  destruct (truthy (tag_text link)
            && (15 <? Z.of_nat (length (tag_text link)))) eqn:Ht;
    [|discriminate].
  injection Hl as <- <-. apply andb_true_iff in Ht as [_ Ht].
  split; [by apply Z.ltb_lt|done].
Qed.

Lemma contains_app_r (needle p hay : str) :
  contains needle hay = true → contains needle (p ++ hay) = true.
Proof.
  intros H. induction p as [|a p IH]; [done|].
  cbn [app contains]. rewrite IH. apply orb_true_r.
Qed.

Lemma fallback_append_spec (news_links : list (str * str))
    (fallback_news : list NewsItem) :
  ∃ items,
    fallback_append news_links fallback_news = fallback_news ++ items ∧
    (length items ≤ length news_links)%nat ∧
    ∀ item, item ∈ items →
      ∃ h, (title item, h) ∈ news_links ∧ summary item = [] ∧
           (link item = h ∨ link item = BASE_URL ++ h) ∧
           startswith (link item) (pystr "http") = true ∧
           image_url item = None ∧ author item = None ∧
           published_date item = None.
Proof.
  revert fallback_news.
  induction news_links as [|[t h] rest IH]; intros acc.
  - exists []. cbn. rewrite app_nil_r. split; [done|]. split; [lia|].
    intros item Hin. by apply elem_of_nil in Hin.
  - cbn [fallback_append].
    set (href := if negb (startswith h (pystr "http")) then BASE_URL ++ h
                 else h).
    assert (Hhttp : startswith href (pystr "http") = true).
    { subst href. destruct (startswith h (pystr "http")) eqn:Hs; cbn [negb];
        [done|].
      change BASE_URL with (pystr "http" ++ pystr "s://vandal.elespanol.com").
      by rewrite <- app_assoc, startswith_app. }
    destruct (NewsItem_new t [] href None None None) as [item|] eqn:Hnew.
    + destruct (IH (acc ++ [item])) as (items & -> & Hlen & Hitems).
      exists (item :: items). rewrite <- app_assoc. split; [done|].
      split; [cbn; lia|].
      intros it [->|Hin]%elem_of_cons.
      * apply NewsItem_new_fields in Hnew
          as (Ht & Hs & Hl & Hi & Ha & Hd & _).
        exists h. rewrite Ht, Hs, Hl, Hi, Ha, Hd.
        split; [apply list_elem_of_here|]. split; [done|].
        split; [|done]. subst href.
        destruct (negb (startswith h (pystr "http"))); [by right|by left].
      * destruct (Hitems it Hin) as (h' & Hin' & Hrest).
        exists h'. split; [by apply list_elem_of_further|done].
    + exists []. rewrite app_nil_r. split; [done|]. split; [cbn; lia|].
      intros item Hin. by apply elem_of_nil in Hin.
Qed.

(** X24. The home-page scan that [main] falls back on yields at most five
    records; each has a title longer than 15 characters, an empty summary,
    an address that starts with [http] and contains [/noticia/] or
    [/noticias/], and no image, author or date; and it yields nothing at
    all unless the home page answers with status 200 exactly. *)
Theorem fallback_scan_records :
  ∀ (pair_order : list (str * str) → list (str * str)) (H : Homepage),
    (∀ l, pair_order l ≡ₚ l) →
    let found := fallback_scan pair_order H in
    (length found ≤ 5)%nat ∧
    (∀ item, item ∈ found →
       15 < Z.of_nat (length (title item)) ∧ summary item = [] ∧
       startswith (link item) (pystr "http") = true ∧
       (contains (pystr "/noticia/") (link item)
        || contains (pystr "/noticias/") (link item)) = true ∧
       image_url item = None ∧ author item = None ∧
       published_date item = None) ∧
    (∀ response, requests_get H = Ok response →
       status_code response ≠ 200 → found = []).
Proof.
  intros pair_order H Hperm found. subst found. unfold fallback_scan.
  assert (Hnil : (length (@nil NewsItem) ≤ 5)%nat ∧
                 ∀ item : NewsItem, item ∈ @nil NewsItem →
                   15 < Z.of_nat (length (title item)) ∧ summary item = [] ∧
                   startswith (link item) (pystr "http") = true ∧
                   (contains (pystr "/noticia/") (link item)
                    || contains (pystr "/noticias/") (link item)) = true ∧
                   image_url item = None ∧ author item = None ∧
                   published_date item = None).
  { split; [cbn; lia|]. intros item Hin. by apply elem_of_nil in Hin. }
  destruct (requests_get H) as [response|e];
    [|destruct Hnil; split; [done|split; [done|discriminate]]].
  destruct (Z.eqb_spec (status_code response) 200) as [H200|H200];
    [|destruct Hnil; split; [done|split; [done|done]]].
  assert (Hlast : ∀ r, Ok response = Ok r → status_code r ≠ 200 →
            ∀ l : list NewsItem, l = []).
  { intros r [= <-] Hne. done. }
  destruct (write_homepage H (text response)) as [[]|e];
    [|destruct Hnil; split; [done|split; [done|]];
      intros r Hr Hne; by eapply Hlast].
  destruct (find_all_a H (text response)) as [all_links|e];
    [|destruct Hnil; split; [done|split; [done|]];
      intros r Hr Hne; by eapply Hlast].
  cbv zeta.
  set (pairs := slice_to (news_count CONFIG)
                  (pair_order (remove_dups (collect_news_links all_links)))).
  destruct (fallback_append_spec pairs []) as (items & -> & Hlen & Hitems).
  cbn [app].
  assert (Hpairs : (length pairs ≤ 5)%nat).
  { subst pairs. change (news_count CONFIG) with 5.
    rewrite slice_to_nonneg, length_take by lia.
    change (Z.to_nat 5) with 5%nat. lia. }
  split; [lia|]. split.
  - intros item Hin.
    destruct (Hitems item Hin) as (h & Hp & Hs & Hl & Hhttp & Hrest).
    subst pairs. change (news_count CONFIG) with 5 in Hp.
    rewrite slice_to_nonneg in Hp by lia.
    eapply elem_of_sublist in Hp as Hp'; [|apply sublist_take].
    rewrite Hperm, elem_of_remove_dups in Hp'.
    apply collect_news_links_spec in Hp' as [Ht Hc].
    split; [done|]. split; [done|]. split; [done|]. split; [|done].
    destruct Hl as [->| ->]; [done|].
    apply orb_true_iff in Hc as [Hc|Hc]; apply orb_true_iff;
      [left|right]; by apply contains_app_r.
  - intros r Hr Hne. by eapply Hlast.
Qed.

Lemma fallback_scan_records_witness :
  (length (fallback_scan (λ l, l) sample_homepage) ≤ 5)%nat.
Proof.
  refine (proj1 (fallback_scan_records (λ l, l) sample_homepage _)).
  intros l. reflexivity.
Defined.

(** On the sample home page the scan keeps the one long-titled news link
    and makes its address absolute. *)
Example fallback_scan_example :
  fallback_scan (λ l, l) sample_homepage = [fallback_item].
Proof. vm_compute. reflexivity. Qed.
